(** * Tempmail MX server: a shallow embedding of the SMTP receiving pipeline

    The development follows the Go sources file by file:
    - [Config]      config.go    (domain set, size limit)
    - [validation]  validation.go (SPF, DMARC, DKIM verdicts)
    - [database]    database.go  (transactional store, quota trimming)
    - [server]      server.go    (validator creation, backend)
    - [session]     session.go   (RCPT, DATA, MIME extraction)
    - [config_file]  config.go   (LoadConfig)
    - [transaction]  session.go  (the calls of an SMTP transaction)
    - [database_v1]  database.go (the first StoreEmail, which creates mailboxes)
    - [schema]       the functions of the schema and the trigger of the migration

    Go strings are byte strings and are modelled by [string]; [int] and
    [int64] are modelled by [Z] with the wrap-around written out where the
    code computes; maps with string keys are [gmap string _].  Calls into
    packages outside the repository (net, net/mail, go-msgauth/dkim, enmime,
    the case tables of unicode, the SQL driver) are oracles: fields of the
    class [Platform] or, for the driver, a fault plan carried by the
    connection.  What PostgreSQL decides where a statement leaves it open
    (the value a TIMESTAMP column keeps, the order of rows with equal sort
    keys) is a field of the class [database.Postgres]. *)

From Stdlib Require Import ZArith List String Ascii Lia Bool Permutation Sorted.
From Stdlib Require Import DecimalString DecimalZ DecimalPos.
From stdpp Require Import gmap strings list.

Open Scope string_scope.

(* ===================================================================== *)
(** * Errors *)
(* ===================================================================== *)

(** An argument of a format string. *)
Inductive fmt_arg : Type :=
| ArgS (s : string)
| ArgD (n : Z).

(** Go [error] values.  [Errorf format args] is [fmt.Errorf(format, args...)]
    for a format without [%w]; [ErrorfW format args err] is the same call
    with a final [%w] verb that wraps [err]. *)
Inductive error : Type :=
| ErrNoRows                       (* sql.ErrNoRows *)
| ErrDriver (msg : string)        (* any other error of database/sql or lib/pq *)
| ErrLib (msg : string)           (* an error of io, net, net/mail, dkim or enmime *)
| Errorf (format : string) (args : list fmt_arg)
| ErrorfW (format : string) (args : list fmt_arg) (err : error).

(** [errors.Unwrap] *)
Definition Unwrap (e : error) : option error :=
  match e with
  | ErrorfW _ _ w => Some w
  | _ => None
  end.

(** [errors.Is(e, target)] for a sentinel [target]: [target] is [e] or is
    reached from [e] by unwrapping. *)
Fixpoint wraps (e target : error) : Prop :=
  e = target \/
  match e with
  | ErrorfW _ _ w => wraps w target
  | _ => False
  end.

(** The result of a Go function returning [(A, error)]. *)
Inductive result (A : Type) : Type :=
| Ok (a : A)
| Err (e : error).
Arguments Ok {A} a.
Arguments Err {A} e.

(* ===================================================================== *)
(** * config.go *)
(* ===================================================================== *)

Module Config.

Record ServerT : Type := {
  APIPort : Z;
  MXPort : Z;
  MaxMsgSizeMB : Z;
  Hostname : string
}.

Record TempmailT : Type := {
  AddressLifetimeHours : Z;
  MaxEmailsPerAddress : Z;
  CleanupIntervalHours : Z;
  AddressFormat : string
}.

Record ValidationT : Type := {
  CheckDKIM : bool;
  CheckSPF : bool;
  CheckDMARC : bool;
  StoreResults : bool
}.

(** [Config], without the Database, TLS and Logging groups, which the
    receiving pipeline does not read. *)
Record t : Type := {
  Domains : list string;
  Server : ServerT;
  Tempmail : TempmailT;
  Validation : ValidationT
}.

(** A 64-bit signed integer after overflow. *)
Definition wrap64 (z : Z) : Z :=
  ((z + 2 ^ 63) mod 2 ^ 64 - 2 ^ 63)%Z.

(** [GetMaxMessageSize]: [int64(c.Server.MaxMsgSizeMB) * 1024 * 1024] *)
Definition GetMaxMessageSize (c : t) : Z :=
  wrap64 (wrap64 (MaxMsgSizeMB (Server c) * 1024) * 1024).

(** [GetDomainMap]: the configured strings, as written, mapped to [true]. *)
Definition GetDomainMap (c : t) : gmap string bool :=
  fold_left (fun domains domain => <[domain := true]> domains) (Domains c) ∅.

End Config.

(** Indexing a [map[string]bool]: the zero value [false] for a missing key. *)
Definition map_index (m : gmap string bool) (k : string) : bool :=
  default false (m !! k).

(* ===================================================================== *)
(** * Packages outside the repository *)
(* ===================================================================== *)

(** Byte slices. *)
Definition bytes : Type := list Byte.byte.

(** [time.Time], as nanoseconds since the Unix epoch. *)
Definition GoTime : Type := Z.

(** The zero [time.Time] is January 1, year 1, 00:00 UTC. *)
Definition zero_time : GoTime := (-62135596800 * 10 ^ 9)%Z.

Definition IsZero (t : GoTime) : bool := (t =? zero_time)%Z.

(** [mail.Address] *)
Module Address.
Record t : Type := { Name : string; Address : string }.
End Address.

(** [dkim.Verification]: the fields [validateDKIM] reads. *)
Module Verification.
Record t : Type := { Domain : string; Err : option error }.
End Verification.

(** [enmime.Part]: the fields [extractAttachments] reads. *)
Module Part.
Record t : Type := { FileName : string; ContentType : string; Content : bytes }.
End Part.

(** [enmime.Envelope].  [GetHeader] is the decoded value of a header, the
    empty string when absent; [RootHeader] is [Root.Header], a map from a
    key to its values, listed in the order the range loop visits it. *)
Module Envelope.
Record t : Type := {
  GetHeader : string -> string;
  RootHeader : list (string * list string);
  Text : string;
  HTML : string;
  Attachments : list Part.t;
  Inlines : list Part.t
}.
End Envelope.

(** The library calls the pipeline makes.  A lookup or a parse that can
    fail returns a [result]; [net.ParseIP] returns [None] for Go's nil;
    [strings_Map_unicode_ToLower] is [strings.Map(unicode.ToLower, s)],
    which [strings.ToLower] calls for a string that is not ASCII. *)
Class Platform : Type := {
  IP : Type;
  IPNet : Type;
  net_ParseIP : string -> option IP;
  net_ParseCIDR : string -> result IPNet;
  IPNet_Contains : IPNet -> IP -> bool;
  IP_Equal : IP -> IP -> bool;
  net_LookupTXT : string -> result (list string);
  net_SplitHostPort : string -> result (string * string);
  mail_ParseAddress : string -> result Address.t;
  mail_ParseDate : string -> result GoTime;
  dkim_Verify : bytes -> result (list Verification.t);
  enmime_ReadEnvelope : bytes -> result Envelope.t;
  strings_Map_unicode_ToLower : string -> string
}.

(* ===================================================================== *)
(** * Package strings *)
(* ===================================================================== *)

Module strings.

(** ASCII upper-case letters. *)
Definition is_upper (c : ascii) : bool :=
  (65 <=? nat_of_ascii c)%nat && (nat_of_ascii c <=? 90)%nat.

Definition lower_byte (c : ascii) : ascii :=
  if is_upper c then ascii_of_nat (nat_of_ascii c + 32) else c.

(** The test [isASCII] of [strings.ToLower]: no byte of [s] is
    [utf8.RuneSelf] (128) or above. *)
Fixpoint isASCII (s : string) : bool :=
  match s with
  | EmptyString => true
  | String c r => (nat_of_ascii c <? 128)%nat && isASCII r
  end.

(** The path [strings.ToLower] takes for an ASCII string: the bytes [A]
    to [Z] become [a] to [z] and the others stay. *)
Fixpoint lower_ascii (s : string) : string :=
  match s with
  | EmptyString => EmptyString
  | String c r => String (lower_byte c) (lower_ascii r)
  end.

(** [strings.ToLower].  A string with a byte above 127 is handed to
    [strings.Map(unicode.ToLower, s)], which lower-cases every letter of
    Unicode by the case tables of package [unicode]: an oracle of the
    platform. *)
Definition ToLower {P : Platform} (s : string) : string :=
  if isASCII s then lower_ascii s else strings_Map_unicode_ToLower s.

(** Some byte of [s] is an ASCII upper-case letter. *)
Fixpoint has_upper (s : string) : bool :=
  match s with
  | EmptyString => false
  | String c r => is_upper c || has_upper r
  end.

(** [strings.Split(s, sep)] for a one-byte separator: the pieces between
    the separators, [count sep + 1] of them. *)
Fixpoint Split (s : string) (sep : ascii) : list string :=
  match s with
  | EmptyString => [EmptyString]
  | String c r =>
      if Ascii.eqb c sep then EmptyString :: Split r sep
      else match Split r sep with
           | [] => [String c EmptyString]
           | p :: ps => String c p :: ps
           end
  end.

(** [strings.HasPrefix(s, prefix)] *)
Fixpoint HasPrefix (s prefix : string) : bool :=
  match prefix, s with
  | EmptyString, _ => true
  | String _ _, EmptyString => false
  | String p ps, String c cs => Ascii.eqb c p && HasPrefix cs ps
  end.

(** [strings.TrimPrefix(s, prefix)]: [s] without the leading [prefix], or
    [s] itself when it does not start with it. *)
Definition TrimPrefix (s prefix : string) : string :=
  if HasPrefix s prefix
  then String.substring (String.length prefix) (String.length s - String.length prefix) s
  else s.

(** A byte of the cutset. *)
Fixpoint in_cutset (c : ascii) (cutset : string) : bool :=
  match cutset with
  | EmptyString => false
  | String d r => Ascii.eqb c d || in_cutset c r
  end.

Fixpoint TrimLeft (s cutset : string) : string :=
  match s with
  | EmptyString => EmptyString
  | String c r => if in_cutset c cutset then TrimLeft r cutset else s
  end.

(** The string reversed, used to trim on the right. *)
Fixpoint rev_append (s acc : string) : string :=
  match s with
  | EmptyString => acc
  | String c r => rev_append r (String c acc)
  end.

Definition reverse (s : string) : string := rev_append s EmptyString.

Definition TrimRight (s cutset : string) : string :=
  reverse (TrimLeft (reverse s) cutset).

(** [strings.Trim(s, cutset)] for a cutset of ASCII bytes: every leading
    and trailing byte of the cutset removed. *)
Definition Trim (s cutset : string) : string :=
  TrimRight (TrimLeft s cutset) cutset.

(** [strings.Contains(s, sub)] for a one-byte [sub]. *)
Fixpoint ContainsByte (s : string) (c : ascii) : bool :=
  match s with
  | EmptyString => false
  | String d r => Ascii.eqb d c || ContainsByte r c
  end.

(** The ASCII white space of [unicode.IsSpace]: tab, line feed, vertical
    tab, form feed, carriage return, space. *)
Definition is_space (c : ascii) : bool :=
  let n := nat_of_ascii c in
  ((9 <=? n)%nat && (n <=? 13)%nat) || (n =? 32)%nat.

Definition byte_is (c : ascii) (n : nat) : bool := (nat_of_ascii c =? n)%nat.

(** The third byte of the white space that starts with the bytes [E2 80]:
    U+2000 to U+200A, U+2028, U+2029 and U+202F. *)
Definition general_punctuation_space (e : ascii) : bool :=
  let n := nat_of_ascii e in
  ((128 <=? n)%nat && (n <=? 138)%nat) || (n =? 168)%nat || (n =? 169)%nat || (n =? 175)%nat.

(** The number of bytes of the white space [s] starts with, 0 when it
    starts with none.  [unicode.IsSpace] holds for the six ASCII bytes of
    [is_space] and for the runes U+0085, U+00A0, U+1680, U+2000 to U+200A,
    U+2028, U+2029, U+202F, U+205F and U+3000, read here in UTF-8. *)
Definition space_width (s : string) : nat :=
  match s with
  | EmptyString => 0
  | String c r =>
      if is_space c then 1
      else
        match r with
        | EmptyString => 0
        | String d r' =>
            if byte_is c 194 && (byte_is d 133 || byte_is d 160) then 2
            else
              match r' with
              | EmptyString => 0
              | String e _ =>
                  if byte_is c 225 && byte_is d 154 && byte_is e 128 then 3
                  else if byte_is c 226 && byte_is d 128 && general_punctuation_space e then 3
                  else if byte_is c 226 && byte_is d 129 && byte_is e 159 then 3
                  else if byte_is c 227 && byte_is d 128 && byte_is e 128 then 3
                  else 0
              end
        end
  end.

(** The scan of [strings.Fields(s)], which splits around the runs of white
    space.  [skip] counts the bytes still to pass of a white space already
    seen; [cur] is the field being read, reversed, and [None] between
    fields.  A byte that starts no white space belongs to a field: the
    first byte of an encoded white space is never a later byte of another
    rune, so the scan by bytes cuts where the scan by runes of
    [strings.FieldsFunc] does, and a byte that is not valid UTF-8 is no
    white space in either. *)
Fixpoint fields_aux (s : string) (skip : nat) (cur : option string) : list string :=
  match s with
  | EmptyString =>
      match cur with
      | None => []
      | Some w => [reverse w]
      end
  | String c r =>
      match skip with
      | S k => fields_aux r k cur
      | 0 =>
          match space_width s with
          | S k =>
              match cur with
              | None => fields_aux r k None
              | Some w => reverse w :: fields_aux r k None
              end
          | 0 =>
              match cur with
              | None => fields_aux r 0 (Some (String c EmptyString))
              | Some w => fields_aux r 0 (Some (String c w))
              end
          end
      end
  end.

(** [strings.Fields(s)] *)
Definition Fields (s : string) : list string := fields_aux s 0 None.

End strings.

(* ===================================================================== *)
(** * validation.go *)
(* ===================================================================== *)

Module validation.
Import strings.

(** [Validator] *)
Record Validator : Type := { cfg : Config.t }.

(** [ValidationResult]: [DKIMValid] is a [*bool], nil when not checked. *)
Record ValidationResult : Type := {
  DKIMValid : option bool;
  SPFResult : string;
  DMARCResult : string
}.

Definition NewValidator (c : Config.t) : Validator := {| cfg := c |}.

Section WithPlatform.
Context {P : Platform}.

(** [extractDomain] *)
Definition extractDomain (email : string) : string :=
  let email := Trim email "<>" in
  let parts := Split email "@" in
  if (length parts =? 2)%nat then ToLower (nth 1 parts "") else "".

(** The loop of [validateDKIM]: the first verification without error
    returns [true]. *)
Fixpoint some_signature_valid (verifications : list Verification.t) : bool :=
  match verifications with
  | [] => false
  | v :: rest =>
      match Verification.Err v with
      | None => true
      | Some _ => some_signature_valid rest
      end
  end.

(** [validateDKIM] *)
Definition validateDKIM (rawMessage : bytes) : bool :=
  match dkim_Verify rawMessage with
  | Err _ => false
  | Ok verifications =>
      if (length verifications =? 0)%nat then false
      else some_signature_valid verifications
  end.

(** The first record with the given prefix, as the range loops of
    [lookupSPFRecord] and [lookupDMARCRecord] find it. *)
Fixpoint first_with_prefix (prefix : string) (txtRecords : list string) : option string :=
  match txtRecords with
  | [] => None
  | record :: rest =>
      if HasPrefix record prefix then Some record
      else first_with_prefix prefix rest
  end.

(** [lookupSPFRecord] *)
Definition lookupSPFRecord (domain : string) : result string :=
  match net_LookupTXT domain with
  | Err err => Err (ErrorfW "DNS lookup failed: %w" [] err)
  | Ok txtRecords =>
      match first_with_prefix "v=spf1" txtRecords with
      | Some record => Ok record
      | None => Err (Errorf "no SPF record found" [])
      end
  end.

(** [lookupDMARCRecord] *)
Definition lookupDMARCRecord (domain : string) : result string :=
  let dmarcDomain := "_dmarc." +:+ domain in
  match net_LookupTXT dmarcDomain with
  | Err err => Err (ErrorfW "DNS lookup failed: %w" [] err)
  | Ok txtRecords =>
      match first_with_prefix "v=DMARC1" txtRecords with
      | Some record => Ok record
      | None => Err (Errorf "no DMARC record found" [])
      end
  end.

(** [matchIP] *)
Definition matchIP (ip : IP) (ipRange : string) : bool :=
  if ContainsByte ipRange "/" then
    match net_ParseCIDR ipRange with
    | Ok network => IPNet_Contains network ip
    | Err _ => false
    end
  else
    match net_ParseIP ipRange with
    | Some testIP => IP_Equal testIP ip
    | None => false
    end.

(** The test that opens the first branch of the loop of
    [evaluateBasicSPF]. *)
Definition is_ip_mechanism (mech : string) : bool :=
  HasPrefix mech "ip4:" || HasPrefix mech "ip6:".

(** The [ipRange] of that branch: [mech] with a leading ["ip4:"] removed,
    and then a leading ["ip6:"] removed from what is left. *)
Definition ipRange_of (mech : string) : string :=
  TrimPrefix (TrimPrefix mech "ip4:") "ip6:".

(** The loop of [evaluateBasicSPF] over the mechanisms after the version
    tag; the value after the loop is ["neutral"]. *)
Fixpoint scan_mechanisms (ip : IP) (mechanisms : list string) : string :=
  match mechanisms with
  | [] => "neutral"
  | mech :: rest =>
      if is_ip_mechanism mech then
        if matchIP ip (ipRange_of mech) then "pass" else scan_mechanisms ip rest
      else if String.eqb mech "a" || String.eqb mech "+a" then "neutral"
      else if String.eqb mech "-all" then "fail"
      else if String.eqb mech "~all" then "softfail"
      else if String.eqb mech "?all" then "neutral"
      else scan_mechanisms ip rest
  end.

(** [evaluateBasicSPF].  [mechanisms[1:]] panics on an empty slice, that
    is for a record without any field: the result is [None] there. *)
Definition evaluateBasicSPF (ip : IP) (spfRecord domain : string) : option string :=
  match Fields spfRecord with
  | [] => None
  | _ :: mechanisms => Some (scan_mechanisms ip mechanisms)
  end.

(** [validateSPF]; [None] is the panic of [evaluateBasicSPF]. *)
Definition validateSPF (v : Validator) (clientIP heloName from : string) : option string :=
  let domain := extractDomain from in
  if String.eqb domain "" then Some "none"
  else
    match net_ParseIP clientIP with
    | None => Some "none"
    | Some ip =>
        match lookupSPFRecord domain with
        | Err _ => Some "none"
        | Ok spfRecord => evaluateBasicSPF ip spfRecord domain
        end
    end.

(** [validateDMARC] *)
Definition validateDMARC (v : Validator) (domain spfResult : string)
    (dkimValid : option bool) : string :=
  if String.eqb domain "" then "none"
  else
    match lookupDMARCRecord domain with
    | Err _ => "none"
    | Ok dmarcRecord =>
        let spfPass := String.eqb spfResult "pass" in
        let dkimPass := match dkimValid with Some b => b | None => false end in
        if spfPass || dkimPass then "pass" else "fail"
    end.

(** [ValidateEmail]; [None] is the panic of [evaluateBasicSPF]. *)
Definition ValidateEmail (v : Validator) (rawMessage : bytes)
    (from clientIP heloName : string) : option ValidationResult :=
  let dkim :=
    if Config.CheckDKIM (Config.Validation (cfg v))
    then Some (validateDKIM rawMessage) else None in
  match (if Config.CheckSPF (Config.Validation (cfg v))
         then validateSPF v clientIP heloName from else Some "none") with
  | None => None
  | Some spf =>
      let dmarc :=
        if Config.CheckDMARC (Config.Validation (cfg v))
        then validateDMARC v (extractDomain from) spf dkim else "none" in
      Some {| DKIMValid := dkim; SPFResult := spf; DMARCResult := dmarc |}
  end.

End WithPlatform.
End validation.

(* ===================================================================== *)
(** * database.go *)
(* ===================================================================== *)

(** [EmailData] *)
Module EmailData.
Record t : Type := {
  MessageID : string;
  Subject : string;
  FromAddr : string;
  ToAddr : string;
  RawHeaders : string;
  BodyPlain : string;
  BodyHTML : string;
  RawMessage : bytes;
  SizeBytes : Z;
  DKIMValid : option bool;
  SPFResult : string;
  DMARCResult : string;
  HasAttachments : bool;
  ReceivedAt : GoTime
}.
End EmailData.

(** [AttachmentData] *)
Module AttachmentData.
Record t : Type := {
  Filename : string;
  ContentType : string;
  SizeBytes : Z;
  Data : bytes
}.
End AttachmentData.

Module database.
Import strings.

(** Row identifiers.  The schema generates them with [uuid_generate_v4()];
    the model draws them from a supply kept by the connection. *)
Definition UUID : Type := N.

(** The rows of the four tables of the schema.  An [emails] row holds the
    columns [StoreEmail] writes, which are the fields of [EmailData]. *)
Record address_row : Type := {
  addr_id : UUID;
  addr_email : string;
  addr_token : string;
  addr_created_at : GoTime;
  addr_expires_at : GoTime
}.

Record email_row : Type := {
  email_id : UUID;
  email_cols : EmailData.t
}.

Record recipient_row : Type := {
  er_id : UUID;
  er_email_id : UUID;
  er_address_id : UUID;
  er_is_read : bool
}.

Record attachment_row : Type := {
  att_id : UUID;
  att_email_id : UUID;
  att_cols : AttachmentData.t
}.

Record Tables : Type := {
  addresses : list address_row;
  emails : list email_row;
  email_recipients : list recipient_row;
  attachments : list attachment_row
}.

(** [DB]: the connection with the committed tables.  [faults n] is the
    error of the [n]-th call to the driver, if it fails; [calls] counts the
    calls made so far; [supply] is the next identifier. *)
Record DB : Type := {
  tables : Tables;
  calls : nat;
  faults : nat -> option error;
  supply : UUID
}.

(** [sql.Tx]: the tables as the open transaction sees them. *)
Record Tx : Type := { pending : Tables }.

(** Computations on the connection that return [(A, error)]. *)
Definition M (A : Type) : Type := DB -> DB * result A.

Definition ret {A : Type} (a : A) : M A := fun db => (db, Ok a).

Definition bind {A B : Type} (m : M A) (k : A -> M B) : M B :=
  fun db =>
    match m db with
    | (db', Ok a) => k a db'
    | (db', Err e) => (db', Err e)
    end.

Notation "'do' x <- m ; k" := (bind m (fun x => k))
  (at level 10, x pattern, m at level 100, k at level 200).

(** [if err != nil { return fmt.Errorf(format, err) }] with a [%w] format. *)
Definition wrap_err {A : Type} (format : string) (m : M A) : M A :=
  fun db =>
    match m db with
    | (db', Err err) => (db', Err (ErrorfW format [] err))
    | r => r
    end.

(** One call to the driver: it fails as the fault plan says. *)
Definition driver_call : M unit :=
  fun db =>
    let db' := {| tables := tables db; calls := S (calls db);
                  faults := faults db; supply := supply db |} in
    match faults db (calls db) with
    | Some err => (db', Err err)
    | None => (db', Ok tt)
    end.

(** A fresh row identifier. *)
Definition fresh_uuid : M UUID :=
  fun db =>
    ({| tables := tables db; calls := calls db;
        faults := faults db; supply := N.succ (supply db) |}, Ok (supply db)).

(** [db.conn.Begin()] *)
Definition Begin : M Tx :=
  do _ <- driver_call;
  fun db => (db, Ok {| pending := tables db |}).

(** [tx.Commit()]: the pending tables become the committed ones. *)
Definition Commit (tx : Tx) : M unit :=
  do _ <- driver_call;
  fun db =>
    ({| tables := pending tx; calls := calls db;
        faults := faults db; supply := supply db |}, Ok tt).

(** The deferred [tx.Rollback()] of a transaction that is still open: what
    is pending is dropped, the committed tables stay, and the error of the
    call is ignored. *)
Definition Rollback (tx : Tx) (db : DB) : DB := fst (driver_call db).

(** [INSERT INTO emails (...) VALUES (...) RETURNING id] on [tx] *)
Definition tx_insert_email (tx : Tx) (email : EmailData.t) : M (Tx * UUID) :=
  do _ <- driver_call;
  do id <- fresh_uuid;
  let t := pending tx in
  ret ({| pending := {| addresses := addresses t;
                        emails := emails t ++ [{| email_id := id; email_cols := email |}];
                        email_recipients := email_recipients t;
                        attachments := attachments t |} |}, id).

(** [SELECT id FROM addresses WHERE email = $1] on [tx], scanned into one
    value: [sql.ErrNoRows] when no row matches. *)
Definition tx_select_address_id (tx : Tx) (email : string) : M UUID :=
  do _ <- driver_call;
  match find (fun a => String.eqb (addr_email a) email) (addresses (pending tx)) with
  | Some a => ret (addr_id a)
  | None => fun db => (db, Err ErrNoRows)
  end.

(** [INSERT INTO email_recipients (email_id, address_id) VALUES ($1, $2)] *)
Definition tx_insert_recipient (tx : Tx) (emailID addressID : UUID) : M Tx :=
  do _ <- driver_call;
  do id <- fresh_uuid;
  let t := pending tx in
  ret {| pending := {| addresses := addresses t;
                       emails := emails t;
                       email_recipients := email_recipients t ++
                         [{| er_id := id; er_email_id := emailID;
                             er_address_id := addressID; er_is_read := false |}];
                       attachments := attachments t |} |}.

(** [INSERT INTO attachments (email_id, filename, content_type, size_bytes,
    data) VALUES (...)] *)
Definition tx_insert_attachment (tx : Tx) (emailID : UUID) (att : AttachmentData.t) : M Tx :=
  do _ <- driver_call;
  do id <- fresh_uuid;
  let t := pending tx in
  ret {| pending := {| addresses := addresses t;
                       emails := emails t;
                       email_recipients := email_recipients t;
                       attachments := attachments t ++
                         [{| att_id := id; att_email_id := emailID; att_cols := att |}] |} |}.

Section WithPlatform.
Context {P : Platform}.

(** [getAddress] *)
Definition getAddress (tx : Tx) (email : string) : M UUID :=
  let normalizedEmail := ToLower email in
  fun db =>
    match tx_select_address_id tx normalizedEmail db with
    | (db', Err ErrNoRows) =>
        (db', Err (Errorf "address does not exist: %s" [ArgS normalizedEmail]))
    | (db', Err err) => (db', Err (ErrorfW "failed to query address: %w" [] err))
    | (db', Ok addressID) => (db', Ok addressID)
    end.

(** The loop of [StoreEmail] over the attachments. *)
Fixpoint store_attachments (tx : Tx) (emailID : UUID)
    (attachments : list AttachmentData.t) : M Tx :=
  match attachments with
  | [] => ret tx
  | att :: rest =>
      do tx' <- wrap_err "failed to insert attachment: %w" (tx_insert_attachment tx emailID att);
      store_attachments tx' emailID rest
  end.

(** The statements of [StoreEmail] between [Begin] and [Commit]; the
    result is the transaction and the [addressID] of the recipient. *)
Definition StoreEmail_statements (tx : Tx) (email : EmailData.t)
    (attachments : list AttachmentData.t) : M (Tx * UUID) :=
  do (tx1, emailID) <- wrap_err "failed to insert email: %w" (tx_insert_email tx email);
  do addressID <- wrap_err "failed to get address: %w" (getAddress tx1 (EmailData.ToAddr email));
  do tx2 <- wrap_err "failed to link email to address: %w"
              (tx_insert_recipient tx1 emailID addressID);
  do tx3 <- store_attachments tx2 emailID attachments;
  ret (tx3, addressID).

(** What [StoreEmail] leaves behind: the connection, the returned error
    ([None] for nil) and the [addressID] of the [EnforceEmailLimit]
    goroutine it started, if any. *)
Record stored : Type := {
  db_after : DB;
  returned : option error;
  spawned : option UUID
}.

(** [StoreEmail].  The deferred [tx.Rollback()] runs on every return after
    [Begin]; once [Commit] was called the transaction is done and the
    deferred rollback does nothing. *)
Definition StoreEmail (db : DB) (email : EmailData.t)
    (attachments : list AttachmentData.t) : stored :=
  match wrap_err "failed to begin transaction: %w" Begin db with
  | (db1, Err err) => {| db_after := db1; returned := Some err; spawned := None |}
  | (db1, Ok tx) =>
      match StoreEmail_statements tx email attachments db1 with
      | (db2, Err err) =>
          {| db_after := Rollback tx db2; returned := Some err; spawned := None |}
      | (db2, Ok (tx3, addressID)) =>
          match wrap_err "failed to commit transaction: %w" (Commit tx3) db2 with
          | (db3, Err err) => {| db_after := db3; returned := Some err; spawned := None |}
          | (db3, Ok _) => {| db_after := db3; returned := None; spawned := Some addressID |}
          end
      end
  end.

(** [AddressExists]: [SELECT EXISTS(SELECT 1 FROM addresses WHERE email = $1)]
    on the connection itself. *)
Definition AddressExists (email : string) : M bool :=
  let normalizedEmail := ToLower email in
  wrap_err "failed to check address existence: %w"
    (do _ <- driver_call;
     fun db =>
       (db, Ok (existsb (fun a => String.eqb (addr_email a) normalizedEmail)
                  (addresses (tables db))))).

(** [CheckDomainAllowed] *)
Definition CheckDomainAllowed (domain : string) (allowedDomains : gmap string bool) : bool :=
  map_index allowedDomains (ToLower domain).

End WithPlatform.

(** The rows of [emails e JOIN email_recipients er ON er.email_id = e.id
    WHERE er.address_id = $1]: one per matching pair. *)
Definition joined (t : Tables) (addressID : UUID) : list email_row :=
  flat_map
    (fun e =>
       map (fun _ => e)
         (List.filter (fun er => (er_email_id er =? email_id e)%N && (er_address_id er =? addressID)%N)
            (email_recipients t)))
    (emails t).

(** The two statements that sort the join by [received_at]: the one of
    [EnforceEmailLimit] and the one of the function
    [enforce_max_emails_per_address] of the schema. *)
Inductive sorting_statement : Type :=
| of_EnforceEmailLimit
| of_enforce_max_emails_per_address.

(** What PostgreSQL decides.  An [emails] row of the model holds the
    instant [StoreEmail] sends; [TIMESTAMP] is the value the column
    [received_at TIMESTAMP] keeps of it (microseconds, without time zone).
    [ORDER_BY_received_at_DESC] is the order in which a statement gets the
    rows of its join under [ORDER BY e.received_at DESC]: some arrangement
    of the rows with the column values descending.  Rows with equal values
    come in an order the server chooses, which need not be the same for
    two statements. *)
Class Postgres : Type := {
  TIMESTAMP : GoTime -> Z;
  ORDER_BY_received_at_DESC : sorting_statement -> list email_row -> list email_row;
  ORDER_BY_rows : forall statement rows,
    Permutation (ORDER_BY_received_at_DESC statement rows) rows;
  ORDER_BY_descending : forall statement rows,
    StronglySorted
      (fun a b =>
         (TIMESTAMP (EmailData.ReceivedAt (email_cols b))
          <= TIMESTAMP (EmailData.ReceivedAt (email_cols a)))%Z)
      (ORDER_BY_received_at_DESC statement rows)
}.

Section WithPostgres.
Context {S : Postgres}.

(** The column [e.received_at]. *)
Definition received_at (e : email_row) : Z :=
  TIMESTAMP (EmailData.ReceivedAt (email_cols e)).

(** [ORDER BY e.received_at DESC] in the statement of [EnforceEmailLimit]. *)
Definition order_by_received_at_desc (rows : list email_row) : list email_row :=
  ORDER_BY_received_at_DESC of_EnforceEmailLimit rows.

(** The subquery of [EnforceEmailLimit]: [SELECT e.id ... ORDER BY
    e.received_at DESC OFFSET $2]. *)
Definition excess (t : Tables) (addressID : UUID) (offset : nat) : list email_row :=
  skipn offset (order_by_received_at_desc (joined t addressID)).

End WithPostgres.

Definition id_in (ids : list UUID) (id : UUID) : bool :=
  existsb (fun x => (x =? id)%N) ids.

(** [DELETE FROM emails WHERE id IN (...)], with the [ON DELETE CASCADE] of
    [email_recipients.email_id] and [attachments.email_id]. *)
Definition delete_emails (t : Tables) (ids : list UUID) : Tables :=
  {| addresses := addresses t;
     emails := List.filter (fun e => negb (id_in ids (email_id e))) (emails t);
     email_recipients :=
       List.filter (fun er => negb (id_in ids (er_email_id er))) (email_recipients t);
     attachments :=
       List.filter (fun a => negb (id_in ids (att_email_id a))) (attachments t) |}.

(** [maxEmails := 100] *)
Definition maxEmails : nat := 100.

(** [EnforceEmailLimit]: one statement on the connection itself. *)
Definition EnforceEmailLimit {S : Postgres} (db : DB) (addressID : UUID)
    : DB * option error :=
  match driver_call db with
  | (db1, Err err) => (db1, Some (ErrorfW "failed to enforce email limit: %w" [] err))
  | (db1, Ok _) =>
      let t := tables db1 in
      ({| tables := delete_emails t (map email_id (excess t addressID maxEmails));
          calls := calls db1; faults := faults db1; supply := supply db1 |}, None)
  end.

End database.

(* ===================================================================== *)
(** * session.go *)
(* ===================================================================== *)

(** An [io.Reader]: the bytes it yields, then [io.EOF] ([None]) or an
    error on the read that follows them. *)
Module Reader.
Record t : Type := { content : bytes; failure : option error }.
End Reader.

(** The two readings of [time.Now()] made by [extractEmailData]: the one
    that replaces a zero sent date, and the one stored as [ReceivedAt]. *)
Module Clock.
Record t : Type := { now_dateSent : GoTime; now_ReceivedAt : GoTime }.
End Clock.

(** [Session].  The field [db] is a pointer to the shared connection, which
    [Data] receives and returns as a [database.DB]. *)
Module Session.
Record t : Type := {
  from : string;
  to : list string;
  remoteAddr : string;
  hostname : string;
  cfg : Config.t;
  validator : option validation.Validator;
  domains : gmap string bool
}.
End Session.

Module session.
Import strings.

(** [NewSession] *)
Definition NewSession (remoteAddr hostname : string) (cfg : Config.t)
    (validator : option validation.Validator) (domains : gmap string bool) : Session.t :=
  {| Session.from := ""; Session.to := [];
     Session.remoteAddr := remoteAddr; Session.hostname := hostname;
     Session.cfg := cfg; Session.validator := validator;
     Session.domains := domains |}.

Definition with_envelope (s : Session.t) (from : string) (to : list string) : Session.t :=
  {| Session.from := from; Session.to := to;
     Session.remoteAddr := Session.remoteAddr s; Session.hostname := Session.hostname s;
     Session.cfg := Session.cfg s; Session.validator := Session.validator s;
     Session.domains := Session.domains s |}.

(** [Mail] *)
Definition Mail (s : Session.t) (from : string) : Session.t * option error :=
  (with_envelope s from [], None).

(** [Reset] *)
Definition Reset (s : Session.t) : Session.t := with_envelope s "" [].

(** The line feed of the [RawHeaders] format. *)
Definition LF : string := String (ascii_of_nat 10) EmptyString.

(** [buf.ReadFrom(io.LimitReader(r, n))]: the bytes read, their number and
    the error.  The limited reader stops after [n] bytes without reading
    further; below the limit it passes on how the reader ends. *)
Definition ReadFrom_LimitReader (r : Reader.t) (n : Z) : bytes * Z * option error :=
  let limit := Z.to_nat n in
  if (length (Reader.content r) <? limit)%nat
  then (Reader.content r, Z.of_nat (length (Reader.content r)), Reader.failure r)
  else (firstn limit (Reader.content r), Z.of_nat limit, None).

Section WithPlatform.
Context {P : Platform}.

(** [Rcpt] *)
Definition Rcpt (s : Session.t) (to : string) : Session.t * option error :=
  match mail_ParseAddress to with
  | Err _ => (s, Some (Errorf "invalid recipient address" []))
  | Ok addr =>
      let parts := Split (Address.Address addr) "@" in
      if negb (length parts =? 2)%nat then (s, Some (Errorf "invalid email format" []))
      else
        let domain := ToLower (nth 1 parts "") in
        if negb (map_index (Session.domains s) domain)
        then (s, Some (Errorf "relay access denied for domain %s" [ArgS domain]))
        else
          let normalizedEmail := ToLower (Address.Address addr) in
          (with_envelope s (Session.from s) (Session.to s ++ [normalizedEmail]), None)
  end.

(** The local [dateSent] of [extractEmailData]. *)
Definition dateSent_of (envelope : Envelope.t) (clock : Clock.t) : GoTime :=
  let dateStr := Envelope.GetHeader envelope "Date" in
  let dateSent :=
    if negb (String.eqb dateStr "") then
      match mail_ParseDate dateStr with
      | Ok t => t
      | Err _ => zero_time
      end
    else zero_time in
  if IsZero dateSent then Clock.now_dateSent clock else dateSent.

(** The header block written by the two nested range loops. *)
Definition rawHeaders_of (header : list (string * list string)) : string :=
  fold_left
    (fun acc kv =>
       fold_left (fun acc' val => acc' +:+ fst kv +:+ ": " +:+ val +:+ LF) (snd kv) acc)
    header "".

(** [extractEmailData] *)
Definition extractEmailData (s : Session.t) (envelope : Envelope.t)
    (rawMessage : bytes) (size : Z) (clock : Clock.t) : EmailData.t :=
  let messageID := Envelope.GetHeader envelope "Message-ID" in
  let subject := Envelope.GetHeader envelope "Subject" in
  let dateSent := dateSent_of envelope clock in
  let rawHeaders := rawHeaders_of (Envelope.RootHeader envelope) in
  let bodyPlain := Envelope.Text envelope in
  let bodyHTML := Envelope.HTML envelope in
  let bodyPlain :=
    if String.eqb bodyPlain "" && negb (String.eqb bodyHTML "")
    then "[HTML email - plain text not provided]" else bodyPlain in
  {| EmailData.MessageID := messageID;
     EmailData.Subject := subject;
     EmailData.FromAddr := Session.from s;
     EmailData.ToAddr := "";
     EmailData.RawHeaders := rawHeaders;
     EmailData.BodyPlain := bodyPlain;
     EmailData.BodyHTML := bodyHTML;
     EmailData.RawMessage := rawMessage;
     EmailData.SizeBytes := size;
     EmailData.DKIMValid := None;
     EmailData.SPFResult := "";
     EmailData.DMARCResult := "";
     EmailData.HasAttachments := false;
     EmailData.ReceivedAt := Clock.now_ReceivedAt clock |}.

Definition attachment_of (p : Part.t) : AttachmentData.t :=
  {| AttachmentData.Filename := Part.FileName p;
     AttachmentData.ContentType := Part.ContentType p;
     AttachmentData.SizeBytes := Z.of_nat (length (Part.Content p));
     AttachmentData.Data := Part.Content p |}.

(** [extractAttachments] *)
Definition extractAttachments (envelope : Envelope.t) : list AttachmentData.t :=
  map attachment_of (Envelope.Attachments envelope) ++
  map attachment_of (Envelope.Inlines envelope).

(** [getClientIP] *)
Definition getClientIP (s : Session.t) : string :=
  match net_SplitHostPort (Session.remoteAddr s) with
  | Err _ => Session.remoteAddr s
  | Ok (host, _) => host
  end.

(** The assignments of [Data] to the record after validation and after
    the attachments were extracted. *)
Definition with_validation (e : EmailData.t) (r : validation.ValidationResult) : EmailData.t :=
  {| EmailData.MessageID := EmailData.MessageID e;
     EmailData.Subject := EmailData.Subject e;
     EmailData.FromAddr := EmailData.FromAddr e;
     EmailData.ToAddr := EmailData.ToAddr e;
     EmailData.RawHeaders := EmailData.RawHeaders e;
     EmailData.BodyPlain := EmailData.BodyPlain e;
     EmailData.BodyHTML := EmailData.BodyHTML e;
     EmailData.RawMessage := EmailData.RawMessage e;
     EmailData.SizeBytes := EmailData.SizeBytes e;
     EmailData.DKIMValid := validation.DKIMValid r;
     EmailData.SPFResult := validation.SPFResult r;
     EmailData.DMARCResult := validation.DMARCResult r;
     EmailData.HasAttachments := EmailData.HasAttachments e;
     EmailData.ReceivedAt := EmailData.ReceivedAt e |}.

Definition with_HasAttachments (e : EmailData.t) (b : bool) : EmailData.t :=
  {| EmailData.MessageID := EmailData.MessageID e;
     EmailData.Subject := EmailData.Subject e;
     EmailData.FromAddr := EmailData.FromAddr e;
     EmailData.ToAddr := EmailData.ToAddr e;
     EmailData.RawHeaders := EmailData.RawHeaders e;
     EmailData.BodyPlain := EmailData.BodyPlain e;
     EmailData.BodyHTML := EmailData.BodyHTML e;
     EmailData.RawMessage := EmailData.RawMessage e;
     EmailData.SizeBytes := EmailData.SizeBytes e;
     EmailData.DKIMValid := EmailData.DKIMValid e;
     EmailData.SPFResult := EmailData.SPFResult e;
     EmailData.DMARCResult := EmailData.DMARCResult e;
     EmailData.HasAttachments := b;
     EmailData.ReceivedAt := EmailData.ReceivedAt e |}.

Definition with_ToAddr (e : EmailData.t) (recipient : string) : EmailData.t :=
  {| EmailData.MessageID := EmailData.MessageID e;
     EmailData.Subject := EmailData.Subject e;
     EmailData.FromAddr := EmailData.FromAddr e;
     EmailData.ToAddr := recipient;
     EmailData.RawHeaders := EmailData.RawHeaders e;
     EmailData.BodyPlain := EmailData.BodyPlain e;
     EmailData.BodyHTML := EmailData.BodyHTML e;
     EmailData.RawMessage := EmailData.RawMessage e;
     EmailData.SizeBytes := EmailData.SizeBytes e;
     EmailData.DKIMValid := EmailData.DKIMValid e;
     EmailData.SPFResult := EmailData.SPFResult e;
     EmailData.DMARCResult := EmailData.DMARCResult e;
     EmailData.HasAttachments := EmailData.HasAttachments e;
     EmailData.ReceivedAt := EmailData.ReceivedAt e |}.

(** What [Data] leaves behind: the connection, the returned error and the
    [EnforceEmailLimit] goroutines started by the stores, oldest first. *)
Record delivered : Type := {
  db_after : database.DB;
  returned : option error;
  spawned : list database.UUID
}.

(** The loop of [Data] over the accepted recipients. *)
Fixpoint store_for_each (db : database.DB) (emailData : EmailData.t)
    (attachments : list AttachmentData.t) (recipients : list string)
    (started : list database.UUID) : delivered :=
  match recipients with
  | [] => {| db_after := db; returned := None; spawned := started |}
  | recipient :: rest =>
      let emailData := with_ToAddr emailData recipient in
      let r := database.StoreEmail db emailData attachments in
      match database.returned r with
      | Some _ =>
          {| db_after := database.db_after r;
             returned := Some (Errorf "error storing message" []);
             spawned := started |}
      | None =>
          store_for_each (database.db_after r) emailData attachments rest
            (started ++ match database.spawned r with Some a => [a] | None => [] end)
      end
  end.

(** The part of [Data] between the parse and the loop: the record with
    the verdicts and the attachment flag, and the attachments.  [None] is
    the panic of [evaluateBasicSPF]. *)
Definition Data_record (s : Session.t) (envelope : Envelope.t) (rawMessage : bytes)
    (size : Z) (clock : Clock.t) : option (EmailData.t * list AttachmentData.t) :=
  let emailData := extractEmailData s envelope rawMessage size clock in
  let validated :=
    match Session.validator s with
    | Some v =>
        match validation.ValidateEmail v rawMessage (Session.from s)
                (getClientIP s) (Session.hostname s) with
        | Some validationResult => Some (with_validation emailData validationResult)
        | None => None
        end
    | None => Some emailData
    end in
  match validated with
  | None => None
  | Some emailData =>
      let attachments := extractAttachments envelope in
      Some (with_HasAttachments emailData (0 <? length attachments)%nat, attachments)
  end.

(** [Data].  [None] is the panic of [evaluateBasicSPF], which would leave
    the connection untouched. *)
Definition Data (s : Session.t) (db : database.DB) (clock : Clock.t)
    (r : Reader.t) : option delivered :=
  let stop err := Some {| db_after := db; returned := Some err; spawned := [] |} in
  let max := Config.GetMaxMessageSize (Session.cfg s) in
  match ReadFrom_LimitReader r max with
  | (_, _, Some _) => stop (Errorf "error reading message" [])
  | (rawMessage, size, None) =>
      if (size >=? max)%Z
      then stop (Errorf "message too large (max %d MB)"
                   [ArgD (Config.MaxMsgSizeMB (Config.Server (Session.cfg s)))])
      else
        match enmime_ReadEnvelope rawMessage with
        | Err _ => stop (Errorf "error processing message" [])
        | Ok envelope =>
            match Data_record s envelope rawMessage size clock with
            | None => None
            | Some (emailData, attachments) =>
                Some (store_for_each db emailData attachments (Session.to s) [])
            end
        end
  end.

End WithPlatform.
End session.

(* ===================================================================== *)
(** * server.go *)
(* ===================================================================== *)

Module server.

(** [Backend], without the pointer to the connection. *)
Record Backend : Type := {
  cfg : Config.t;
  validator : option validation.Validator;
  domains : gmap string bool
}.

(** [NewBackend] *)
Definition NewBackend (cfg : Config.t) (validator : option validation.Validator) : Backend :=
  {| cfg := cfg; validator := validator; domains := Config.GetDomainMap cfg |}.

(** [Backend.NewSession], from the remote address and the hostname of the
    connection. *)
Definition Backend_NewSession (bkd : Backend) (remoteAddr hostname : string) : Session.t :=
  session.NewSession remoteAddr hostname (cfg bkd) (validator bkd) (domains bkd).

(** The validator [NewSMTPServer] creates: one only when a check is on. *)
Definition new_validator (cfg : Config.t) : option validation.Validator :=
  if Config.CheckDKIM (Config.Validation cfg)
     || Config.CheckSPF (Config.Validation cfg)
     || Config.CheckDMARC (Config.Validation cfg)
  then Some (validation.NewValidator cfg)
  else None.

(** The backend [NewSMTPServer] hands to the SMTP library. *)
Definition NewSMTPServer_backend (cfg : Config.t) : Backend :=
  NewBackend cfg (new_validator cfg).

End server.

(* ===================================================================== *)
(** * A concrete platform for the scenarios *)
(* ===================================================================== *)

(** The scenarios of the specification and the tests of the repository
    are evaluated on one instance of [Platform].  Its [net] functions
    implement the IPv4 forms (dotted quads and [a.b.c.d/n]); every string
    of the scenarios is ASCII, so that [strings.ToLower] never calls
    [strings.Map] there and the field for it hands its argument back; its
    other functions are tables that hold what the library answers for the inputs
    the scenarios use, and an error for every other input. *)
Module demo.
Import strings.

(** A decimal number: digits only, at least one. *)
Fixpoint decimal_acc (s : string) (acc : N) : option N :=
  match s with
  | EmptyString => Some acc
  | String c r =>
      let n := N_of_ascii c in
      if ((48 <=? n) && (n <=? 57))%N
      then decimal_acc r (acc * 10 + (n - 48))%N
      else None
  end.

Definition decimal (s : string) : option N :=
  match s with
  | EmptyString => None
  | _ => decimal_acc s 0%N
  end.

(** One field of a dotted quad: no leading zero, at most 255. *)
Definition octet (s : string) : option N :=
  match s with
  | String "0" (String _ _) => None
  | _ =>
      match decimal s with
      | Some n => if (n <=? 255)%N then Some n else None
      | None => None
      end
  end.

(** An IPv4 address as a 32-bit number. *)
Definition parseIPv4 (s : string) : option N :=
  match Split s "." with
  | [a; b; c; d] =>
      match octet a, octet b, octet c, octet d with
      | Some a, Some b, Some c, Some d =>
          Some (((a * 256 + b) * 256 + c) * 256 + d)%N
      | _, _, _, _ => None
      end
  | _ => None
  end.

(** An IPv4 network: the address and the length of the prefix. *)
Definition parseCIDR (s : string) : result (N * N) :=
  match Split s "/" with
  | [addr; bits] =>
      match parseIPv4 addr, decimal bits with
      | Some ip, Some n =>
          if (n <=? 32)%N then Ok (ip, n)
          else Err (ErrLib "invalid CIDR address")
      | _, _ => Err (ErrLib "invalid CIDR address")
      end
  | _ => Err (ErrLib "invalid CIDR address")
  end.

(** The leading [n] bits of the two addresses agree. *)
Definition contains (network : N * N) (ip : N) : bool :=
  let shift := (32 - snd network)%N in
  (N.shiftr (fst network) shift =? N.shiftr ip shift)%N.

(** The TXT records of the zone used by the scenarios. *)
Definition zone : list (string * list string) :=
  [ ("example.org", ["google-site-verification=abc"; "v=spf1 ip4:192.0.2.10 -all"]);
    ("_dmarc.example.org", ["v=DMARC1; p=none"]);
    ("nospf.example.org", ["some text"]) ].

Definition lookupTXT (name : string) : result (list string) :=
  match find (fun kv => String.eqb (fst kv) name) zone with
  | Some kv => Ok (snd kv)
  | None => Err (ErrLib "no such host")
  end.

(** [host:port] with a host that holds no colon. *)
Definition splitHostPort (s : string) : result (string * string) :=
  match Split s ":" with
  | [host; port] => Ok (host, port)
  | _ => Err (ErrLib "missing port in address")
  end.

(** The bytes a bare addr-spec of the scenarios is made of. *)
Definition addr_byte (c : ascii) : bool :=
  let n := nat_of_ascii c in
  ((48 <=? n) && (n <=? 57) || (65 <=? n) && (n <=? 90) || (97 <=? n) && (n <=? 122)
   || (n =? 45) || (n =? 46) || (n =? 95) || (n =? 64))%nat.

Fixpoint all_addr_bytes (s : string) : bool :=
  match s with
  | EmptyString => true
  | String c r => addr_byte c && all_addr_bytes r
  end.

(** A bare addr-spec [local@domain] is its own [Address], with no name. *)
Definition parseAddress (s : string) : result Address.t :=
  match Split s "@" with
  | [String _ _; String _ _] =>
      if all_addr_bytes s then Ok {| Address.Name := ""; Address.Address := s |}
      else Err (ErrLib "mail: unsupported form")
  | _ => Err (ErrLib "mail: missing '@' or angle-addr")
  end.

(** The date of the scenarios: noon UTC on January 1, 2024. *)
Definition noon : GoTime := (1704110400 * 10 ^ 9)%Z.

Definition parseDate (s : string) : result GoTime :=
  if String.eqb s "Mon, 01 Jan 2024 12:00:00 +0000" then Ok noon
  else Err (ErrLib "mail: header could not be parsed").

(** The raw message of the scenarios and the envelope enmime reads from
    it: one header, a plain body, no HTML part and no attachment. *)
Definition raw_hello : bytes :=
  list_byte_of_string ("Subject: hi" +:+ session.LF +:+ session.LF +:+ "hello").

Definition envelope_hello : Envelope.t :=
  {| Envelope.GetHeader := fun key => if String.eqb key "Subject" then "hi" else "";
     Envelope.RootHeader := [("Subject", ["hi"])];
     Envelope.Text := "hello";
     Envelope.HTML := "";
     Envelope.Attachments := [];
     Envelope.Inlines := [] |}.

(** A message with a header block and an empty body, and one with a
    [Date:] header. *)
Definition raw_empty : bytes :=
  list_byte_of_string ("Subject: hi" +:+ session.LF +:+ session.LF).

Definition envelope_empty : Envelope.t :=
  {| Envelope.GetHeader := fun key => if String.eqb key "Subject" then "hi" else "";
     Envelope.RootHeader := [("Subject", ["hi"])];
     Envelope.Text := "";
     Envelope.HTML := "";
     Envelope.Attachments := [];
     Envelope.Inlines := [] |}.

Definition raw_dated : bytes :=
  list_byte_of_string
    ("Date: Mon, 01 Jan 2024 12:00:00 +0000" +:+ session.LF +:+ session.LF +:+ "hello").

Definition envelope_dated : Envelope.t :=
  {| Envelope.GetHeader :=
       fun key => if String.eqb key "Date" then "Mon, 01 Jan 2024 12:00:00 +0000" else "";
     Envelope.RootHeader := [("Date", ["Mon, 01 Jan 2024 12:00:00 +0000"])];
     Envelope.Text := "hello";
     Envelope.HTML := "";
     Envelope.Attachments := [];
     Envelope.Inlines := [] |}.

Fixpoint bytes_eqb (a b : bytes) : bool :=
  match a, b with
  | [], [] => true
  | x :: a', y :: b' => Byte.eqb x y && bytes_eqb a' b'
  | _, _ => false
  end.

Definition readEnvelope (raw : bytes) : result Envelope.t :=
  if bytes_eqb raw raw_hello then Ok envelope_hello
  else if bytes_eqb raw raw_empty then Ok envelope_empty
  else if bytes_eqb raw raw_dated then Ok envelope_dated
  else Err (ErrLib "enmime: not a message of the scenarios").

#[export] Instance platform : Platform := {|
  IP := N;
  IPNet := N * N;
  net_ParseIP := parseIPv4;
  net_ParseCIDR := parseCIDR;
  IPNet_Contains := contains;
  IP_Equal := N.eqb;
  net_LookupTXT := lookupTXT;
  net_SplitHostPort := splitHostPort;
  mail_ParseAddress := parseAddress;
  mail_ParseDate := parseDate;
  dkim_Verify := fun _ => Ok [];
  enmime_ReadEnvelope := readEnvelope;
  strings_Map_unicode_ToLower := fun s => s
|}.

(** A platform on which the same header parses to the day after: it
    stands for any other sent date. *)
Definition platform_next_day : Platform := {|
  IP := N;
  IPNet := N * N;
  net_ParseIP := parseIPv4;
  net_ParseCIDR := parseCIDR;
  IPNet_Contains := contains;
  IP_Equal := N.eqb;
  net_LookupTXT := lookupTXT;
  net_SplitHostPort := splitHostPort;
  mail_ParseAddress := parseAddress;
  mail_ParseDate := fun s =>
    match parseDate s with
    | Ok t => Ok (t + 86400 * 10 ^ 9)%Z
    | Err e => Err e
    end;
  dkim_Verify := fun _ => Ok [];
  enmime_ReadEnvelope := readEnvelope;
  strings_Map_unicode_ToLower := fun s => s
|}.

(** The readings of the clock while a message is received on October 30,
    2025: the second one a microsecond after the first. *)
Definition clock : Clock.t :=
  {| Clock.now_dateSent := (1761782460 * 10 ^ 9)%Z;
     Clock.now_ReceivedAt := (1761782460 * 10 ^ 9 + 1000)%Z |}.

(** A configuration with the given domains and the three checks all on
    or all off; the limit is 1 MB and the quota 3, as in scenario S6. *)
Definition config (domains : list string) (checks : bool) : Config.t :=
  {| Config.Domains := domains;
     Config.Server := {| Config.APIPort := 8000; Config.MXPort := 25;
                         Config.MaxMsgSizeMB := 1;
                         Config.Hostname := "mail.tempmail.local" |};
     Config.Tempmail := {| Config.AddressLifetimeHours := 24;
                           Config.MaxEmailsPerAddress := 3;
                           Config.CleanupIntervalHours := 1;
                           Config.AddressFormat := "random" |};
     Config.Validation := {| Config.CheckDKIM := checks; Config.CheckSPF := checks;
                             Config.CheckDMARC := checks; Config.StoreResults := checks |} |}.

(** A session of the backend [NewSMTPServer] builds from a configuration,
    after [MAIL FROM:<a@b.com>]. *)
Definition session_of (c : Config.t) : Session.t :=
  fst (session.Mail
         (server.Backend_NewSession (server.NewSMTPServer_backend c)
            "192.0.2.10:40000" "foo")
         "a@b.com").

(** The configuration of scenarios S1 and S2, with validation off. *)
Definition cfg : Config.t := config ["tempmail.example.com"] false.

Definition sess : Session.t := session_of cfg.

(** The session after [RCPT TO:<alive@tempmail.example.com>], with
    validation off and with the three checks on. *)
Definition sess_alive : Session.t :=
  session.with_envelope sess "a@b.com" ["alive@tempmail.example.com"].

Definition sess_checked : Session.t :=
  session.with_envelope (session_of (config ["tempmail.example.com"] true))
    "sender@example.org" ["alive@tempmail.example.com"].

(** A reader that yields the given bytes and then ends. *)
Definition reader (content : bytes) : Reader.t :=
  {| Reader.content := content; Reader.failure := None |}.

(** A domain written with a capital, alone and beside its lower-case
    spelling. *)
Definition cfg_capital : Config.t := config ["Example.com"] false.

(** Two characters that are not ASCII, in UTF-8: the no-break space
    U+00A0, which is white space, and the Kelvin sign U+212A, whose lower
    case is the letter [k]. *)
Definition NBSP : string :=
  String (ascii_of_nat 194) (String (ascii_of_nat 160) EmptyString).

Definition KELVIN : string :=
  String (ascii_of_nat 226) (String (ascii_of_nat 132) (String (ascii_of_nat 170) EmptyString)).

(** The letter E with acute accent, capital (U+00C9) and small (U+00E9). *)
Definition E_ACUTE : string :=
  String (ascii_of_nat 195) (String (ascii_of_nat 137) EmptyString).

Definition e_acute : string :=
  String (ascii_of_nat 195) (String (ascii_of_nat 169) EmptyString).

Definition cfg_twin : Config.t := config ["Example.com"; "example.com"] false.

(** A store with the mailbox [alive@tempmail.example.com] and no message,
    on a driver that never fails. *)
Definition alive : database.address_row :=
  {| database.addr_id := 1%N;
     database.addr_email := "alive@tempmail.example.com";
     database.addr_token := "token-1";
     database.addr_created_at := (1761782400 * 10 ^ 9)%Z;
     database.addr_expires_at := (1761868800 * 10 ^ 9)%Z |}.

Definition db : database.DB :=
  {| database.tables := {| database.addresses := [alive]; database.emails := [];
                           database.email_recipients := []; database.attachments := [] |};
     database.calls := 0;
     database.faults := fun _ => None;
     database.supply := 100%N |}.

(** The same store on a driver whose [n]-th call fails with [e]. *)
Definition db_failing (n : nat) (e : error) : database.DB :=
  {| database.tables := database.tables db;
     database.calls := 0;
     database.faults := fun k => if (k =? n)%nat then Some e else None;
     database.supply := 100%N |}.

(** A parsed message for the given recipient. *)
Definition email_to (recipient : string) : EmailData.t :=
  {| EmailData.MessageID := "<1@b.com>";
     EmailData.Subject := "hi";
     EmailData.FromAddr := "a@b.com";
     EmailData.ToAddr := recipient;
     EmailData.RawHeaders := "Subject: hi" +:+ session.LF;
     EmailData.BodyPlain := "hello";
     EmailData.BodyHTML := "";
     EmailData.RawMessage := raw_hello;
     EmailData.SizeBytes := 18;
     EmailData.DKIMValid := None;
     EmailData.SPFResult := "none";
     EmailData.DMARCResult := "none";
     EmailData.HasAttachments := false;
     EmailData.ReceivedAt := (1761782460 * 10 ^ 9)%Z |}.

(** The [i]-th message of a mailbox that receives one message a second,
    and its link to the mailbox [alive]. *)
Definition message (i : nat) : database.email_row :=
  {| database.email_id := N.of_nat (1000 + i);
     database.email_cols :=
       {| EmailData.MessageID := "";
          EmailData.Subject := "hi";
          EmailData.FromAddr := "a@b.com";
          EmailData.ToAddr := "alive@tempmail.example.com";
          EmailData.RawHeaders := "Subject: hi" +:+ session.LF;
          EmailData.BodyPlain := "hello";
          EmailData.BodyHTML := "";
          EmailData.RawMessage := raw_hello;
          EmailData.SizeBytes := 18;
          EmailData.DKIMValid := None;
          EmailData.SPFResult := "none";
          EmailData.DMARCResult := "none";
          EmailData.HasAttachments := false;
          EmailData.ReceivedAt := ((1761782400 + Z.of_nat i) * 10 ^ 9)%Z |} |}.

Definition link (i : nat) : database.recipient_row :=
  {| database.er_id := N.of_nat (5000 + i);
     database.er_email_id := N.of_nat (1000 + i);
     database.er_address_id := 1%N;
     database.er_is_read := false |}.

(** The store after the mailbox received the messages 1 to [n]. *)
Definition db_with_messages (n : nat) : database.DB :=
  {| database.tables := {| database.addresses := [alive];
                           database.emails := map message (seq 1 n);
                           database.email_recipients := map link (seq 1 n);
                           database.attachments := [] |};
     database.calls := 0;
     database.faults := fun _ => None;
     database.supply := 9000%N |}.

(** The server of the scenarios runs in UTC, and the instants of the
    scenarios are whole microseconds: the column keeps the microseconds
    since the epoch. *)
Definition microseconds (t : GoTime) : Z := (t / 1000)%Z.

Definition sort_key (e : database.email_row) : Z :=
  microseconds (EmailData.ReceivedAt (database.email_cols e)).

(** The server of the scenarios sorts by insertion, which meets [ORDER BY
    ... DESC] for any sort key and leaves rows with equal keys in the
    reverse of the order it reads them in. *)
Fixpoint insert_desc (key : database.email_row -> Z) (e : database.email_row)
    (sorted : list database.email_row) : list database.email_row :=
  match sorted with
  | [] => [e]
  | x :: rest =>
      if (key x <? key e)%Z then e :: x :: rest
      else x :: insert_desc key e rest
  end.

Fixpoint insertion_sort_desc (key : database.email_row -> Z)
    (rows : list database.email_row) : list database.email_row :=
  match rows with
  | [] => []
  | e :: rest => insert_desc key e (insertion_sort_desc key rest)
  end.

Lemma insert_desc_perm (key : database.email_row -> Z) (e : database.email_row)
    (l : list database.email_row) :
  Permutation (insert_desc key e l) (e :: l).
Proof.
  induction l as [|x rest IH]; simpl; [reflexivity|].
  destruct (key x <? key e)%Z; [reflexivity|].
  rewrite IH. apply perm_swap.
Qed.

Lemma insertion_sort_desc_perm (key : database.email_row -> Z)
    (l : list database.email_row) :
  Permutation (insertion_sort_desc key l) l.
Proof.
  induction l as [|e rest IH]; simpl; [reflexivity|].
  rewrite insert_desc_perm. now constructor.
Qed.

Lemma insert_desc_sorted (key : database.email_row -> Z) (e : database.email_row)
    (l : list database.email_row) :
  StronglySorted (fun a b => (key b <= key a)%Z) l ->
  StronglySorted (fun a b => (key b <= key a)%Z) (insert_desc key e l).
Proof.
  induction 1 as [|x rest Hs IH Hx]; simpl.
  - constructor; constructor.
  - destruct (key x <? key e)%Z eqn:E.
    + apply Z.ltb_lt in E. constructor; [now constructor|].
      constructor; [lia|].
      eapply Forall_impl; [exact Hx|]. cbv beta. intros y Hy. lia.
    + apply Z.ltb_ge in E. constructor; [exact IH|].
      eapply Permutation_Forall; [symmetry; apply insert_desc_perm|].
      constructor; [exact E | exact Hx].
Qed.

Lemma insertion_sort_desc_sorted (key : database.email_row -> Z)
    (l : list database.email_row) :
  StronglySorted (fun a b => (key b <= key a)%Z) (insertion_sort_desc key l).
Proof.
  induction l as [|e rest IH]; simpl; [constructor | now apply insert_desc_sorted].
Qed.

#[export] Instance postgres : database.Postgres := {|
  database.TIMESTAMP := microseconds;
  database.ORDER_BY_received_at_DESC := fun _ => insertion_sort_desc sort_key;
  database.ORDER_BY_rows := fun _ => insertion_sort_desc_perm sort_key;
  database.ORDER_BY_descending := fun _ => insertion_sort_desc_sorted sort_key
|}.

End demo.

(* ===================================================================== *)
(** * The value sets and the SPF rules of the specification *)
(* ===================================================================== *)

Module spec.

(** The values the specification allows for the two verdict columns. *)
Definition spf_values : list string :=
  ["pass"; "fail"; "softfail"; "neutral"; "none"; "temperror"; "permerror"].

Definition dmarc_values : list string := ["pass"; "fail"; "none"].




(** The committed tables and the fault plan of [db'] are those of [db]. *)
Definition untouched (db db' : database.DB) : Prop :=
  database.tables db' = database.tables db /\ database.faults db' = database.faults db.

(** [e] is the error of some call to the driver. *)
Definition from_driver (db : database.DB) (e : error) : Prop :=
  exists n, database.faults db n = Some e.

(** The rows of [attachments] for one message. *)
Fixpoint attachment_rows (emailID : database.UUID) (ids : list database.UUID)
    (attachments : list AttachmentData.t) : list database.attachment_row :=
  match ids, attachments with
  | id :: ids', att :: rest =>
      {| database.att_id := id; database.att_email_id := emailID; database.att_cols := att |}
      :: attachment_rows emailID ids' rest
  | _, _ => []
  end.

(** The tables after one message with its link and its attachments was
    added to [t]. *)
Definition with_message (t : database.Tables) (emailID linkID addressID : database.UUID)
    (email : EmailData.t) (ids : list database.UUID)
    (attachments : list AttachmentData.t) : database.Tables :=
  {| database.addresses := database.addresses t;
     database.emails :=
       database.emails t ++ [{| database.email_id := emailID; database.email_cols := email |}];
     database.email_recipients :=
       database.email_recipients t ++
       [{| database.er_id := linkID; database.er_email_id := emailID;
           database.er_address_id := addressID; database.er_is_read := false |}];
     database.attachments :=
       database.attachments t ++ attachment_rows emailID ids attachments |}.

(** [a] was received no earlier than [b], by the column [received_at]. *)
Definition not_older {S : database.Postgres} (a b : database.email_row) : Prop :=
  (database.received_at b <= database.received_at a)%Z.

(** The error [StoreEmail] returns for a recipient without a mailbox. *)
Definition no_mailbox {P : Platform} (email : EmailData.t) : error :=
  ErrorfW "failed to get address: %w" []
    (Errorf "address does not exist: %s" [ArgS (strings.ToLower (EmailData.ToAddr email))]).

End spec.

(* ===================================================================== *)
(** * config.go: LoadConfig *)
(* ===================================================================== *)

Module config_file.

Record DatabaseT : Type := { URL : string; PoolSize : Z }.

Record TLST : Type := { Enabled : bool; CertFile : string; KeyFile : string }.

Record LoggingT : Type := { Level : string; Format : string }.

(** [Config] as [LoadConfig] fills it: the groups of [Config.t] in [base],
    and the Database, TLS and Logging groups. *)
Record t : Type := {
  base : Config.t;
  Database : DatabaseT;
  TLS : TLST;
  Logging : LoggingT
}.

(** The assignments under [// Set defaults] and [// Set TLS defaults]:
    each one replaces the zero value of one field. *)
Definition set_defaults (cfg : t) : t :=
  let server := Config.Server (base cfg) in
  let tempmail := Config.Tempmail (base cfg) in
  {| base :=
       {| Config.Domains := Config.Domains (base cfg);
          Config.Server :=
            {| Config.APIPort := Config.APIPort server;
               Config.MXPort :=
                 if (Config.MXPort server =? 0)%Z then 25%Z else Config.MXPort server;
               Config.MaxMsgSizeMB :=
                 if (Config.MaxMsgSizeMB server =? 0)%Z then 10%Z
                 else Config.MaxMsgSizeMB server;
               Config.Hostname :=
                 if String.eqb (Config.Hostname server) "" then "mail.tempmail.local"
                 else Config.Hostname server |};
          Config.Tempmail :=
            {| Config.AddressLifetimeHours := Config.AddressLifetimeHours tempmail;
               Config.MaxEmailsPerAddress :=
                 if (Config.MaxEmailsPerAddress tempmail =? 0)%Z then 100%Z
                 else Config.MaxEmailsPerAddress tempmail;
               Config.CleanupIntervalHours := Config.CleanupIntervalHours tempmail;
               Config.AddressFormat := Config.AddressFormat tempmail |};
          Config.Validation := Config.Validation (base cfg) |};
     Database :=
       {| URL := URL (Database cfg);
          PoolSize :=
            if (PoolSize (Database cfg) =? 0)%Z then 10%Z else PoolSize (Database cfg) |};
     TLS :=
       {| Enabled := Enabled (TLS cfg);
          CertFile :=
            if String.eqb (CertFile (TLS cfg)) "" then "/config/certs/cert.pem"
            else CertFile (TLS cfg);
          KeyFile :=
            if String.eqb (KeyFile (TLS cfg)) "" then "/config/certs/key.pem"
            else KeyFile (TLS cfg) |};
     Logging := Logging cfg |}.

(** The zero [Config], which [yaml.Unmarshal] fills. *)
Definition zero : t :=
  {| base :=
       {| Config.Domains := [];
          Config.Server := {| Config.APIPort := 0; Config.MXPort := 0;
                              Config.MaxMsgSizeMB := 0; Config.Hostname := "" |};
          Config.Tempmail := {| Config.AddressLifetimeHours := 0;
                                Config.MaxEmailsPerAddress := 0;
                                Config.CleanupIntervalHours := 0;
                                Config.AddressFormat := "" |};
          Config.Validation := {| Config.CheckDKIM := false; Config.CheckSPF := false;
                                  Config.CheckDMARC := false;
                                  Config.StoreResults := false |} |};
     Database := {| URL := ""; PoolSize := 0 |};
     TLS := {| Enabled := false; CertFile := ""; KeyFile := "" |};
     Logging := {| Level := ""; Format := "" |} |}.

(** A field with a default: the loaded value is the default when the
    parsed value is the zero value, the parsed value otherwise, and so
    never the zero value. *)
Definition or_default {A : Type} (zero parsed default loaded : A) : Prop :=
  (parsed = zero -> loaded = default) /\
  (parsed <> zero -> loaded = parsed) /\
  loaded <> zero.

Section WithFiles.

(** [os.ReadFile], and [yaml.Unmarshal] into a zero [Config]: a key the
    file does not hold leaves the zero value of its field. *)
Variable os_ReadFile : string -> result bytes.
Variable yaml_Unmarshal : bytes -> result t.

(** [LoadConfig] *)
Definition LoadConfig (configPath : string) : result t :=
  match os_ReadFile configPath with
  | Err err => Err (ErrorfW "failed to read config file: %w" [] err)
  | Ok data =>
      match yaml_Unmarshal data with
      | Err err => Err (ErrorfW "failed to parse config file: %w" [] err)
      | Ok cfg =>
          if String.eqb (URL (Database cfg)) ""
          then Err (Errorf "database.url is required" [])
          else if (length (Config.Domains (base cfg)) =? 0)%nat
          then Err (Errorf "at least one domain is required" [])
          else Ok (set_defaults cfg)
      end
  end.

End WithFiles.

End config_file.

(* ===================================================================== *)
(** * session.go: the other methods of the SMTP session *)
(* ===================================================================== *)

Module transaction.
Import strings.

(** [Logout] *)
Definition Logout (s : Session.t) : option error := None.

(** [AuthPlain] *)
Definition AuthPlain (s : Session.t) (username password : string) : option error :=
  Some (Errorf "authentication not supported on MX server" []).

(** [formatBoolPtr] *)
Definition formatBoolPtr (b : option bool) : string :=
  match b with
  | None => "null"
  | Some true => "true"
  | Some false => "false"
  end.

(** The calls the SMTP library makes on a session between two messages. *)
Inductive command : Type :=
| MAIL (from : string)
| RCPT (to : string)
| RSET
| AUTH (username password : string).

Section WithPlatform.
Context {P : Platform}.

Definition call (s : Session.t) (c : command) : Session.t * option error :=
  match c with
  | MAIL from => session.Mail s from
  | RCPT to => session.Rcpt s to
  | RSET => (session.Reset s, None)
  | AUTH username password => (s, AuthPlain s username password)
  end.

(** The session after a sequence of calls, whatever each call returned. *)
Definition run (s : Session.t) (commands : list command) : Session.t :=
  fold_left (fun s c => fst (call s c)) commands s.

(** The address [mail.ParseAddress] reads from a [RCPT] command is
    written in ASCII; a command of another kind, or one that does not
    parse, passes the test. *)
Definition ascii_rcpt (c : command) : bool :=
  match c with
  | RCPT to =>
      match mail_ParseAddress to with
      | Ok addr => isASCII (Address.Address addr)
      | Err _ => true
      end
  | _ => true
  end.

End WithPlatform.

(** A recipient as [Rcpt] stores it: [local@domain] with a single [@], in
    lower case, and with the domain in the domain set. *)
Definition accepted (domains : gmap string bool) (recipient : string) : Prop :=
  exists local domain,
    recipient = local +:+ "@" +:+ domain /\
    ContainsByte local "@" = false /\ ContainsByte domain "@" = false /\
    has_upper recipient = false /\
    map_index domains domain = true.

End transaction.

(* ===================================================================== *)
(** * What a delivery adds to the tables *)
(* ===================================================================== *)

Module delivery.
Import database.

(** The identifiers of the rows one [StoreEmail] adds for a recipient. *)
Record receipt : Type := {
  recipient : string;
  emailID : UUID;
  linkID : UUID;
  addressID : UUID;
  attachmentIDs : list UUID
}.

Definition email_of (e : EmailData.t) (r : receipt) : email_row :=
  {| email_id := emailID r; email_cols := session.with_ToAddr e (recipient r) |}.

Definition link_of (r : receipt) : recipient_row :=
  {| er_id := linkID r; er_email_id := emailID r;
     er_address_id := addressID r; er_is_read := false |}.

Definition attachments_of (attachments : list AttachmentData.t) (r : receipt)
    : list attachment_row :=
  spec.attachment_rows (emailID r) (attachmentIDs r) attachments.

(** The tables after the messages of the receipts were added, oldest
    first. *)
Definition with_receipts (t : Tables) (e : EmailData.t)
    (attachments : list AttachmentData.t) (rs : list receipt) : Tables :=
  {| addresses := addresses t;
     emails := emails t ++ map (email_of e) rs;
     email_recipients := email_recipients t ++ map link_of rs;
     database.attachments :=
       database.attachments t ++ flat_map (attachments_of attachments) rs |}.

(** No call to the driver fails. *)
Definition healthy (db : DB) : Prop := forall n, faults db n = None.

(** Every link and every attachment belongs to a message of [emails], and
    every link to a mailbox of [addresses]: the foreign keys of the
    schema. *)
Definition referential (t : Tables) : Prop :=
  (forall er, In er (email_recipients t) ->
     In (er_email_id er) (map email_id (emails t)) /\
     In (er_address_id er) (map addr_id (addresses t))) /\
  (forall a, In a (database.attachments t) ->
     In (att_email_id a) (map email_id (emails t))).

(** No message is linked to two mailboxes. *)
Definition one_mailbox_each (t : Tables) : Prop :=
  forall er er', In er (email_recipients t) -> In er' (email_recipients t) ->
    er_email_id er = er_email_id er' -> er_address_id er = er_address_id er'.

(** The two properties as tests, for the stores of the scenarios. *)
Definition referential_b (t : Tables) : bool :=
  let emailIDs := map email_id (emails t) in
  let addressIDs := map addr_id (addresses t) in
  forallb (fun er => id_in emailIDs (er_email_id er) && id_in addressIDs (er_address_id er))
    (email_recipients t)
  && forallb (fun a => id_in emailIDs (att_email_id a)) (database.attachments t).

Definition one_mailbox_each_b (t : Tables) : bool :=
  let links := email_recipients t in
  forallb
    (fun er =>
       forallb
         (fun er' =>
            negb (er_email_id er =? er_email_id er')%N
            || (er_address_id er =? er_address_id er')%N)
         links)
    links.

End delivery.

(* ===================================================================== *)
(** * A store with two mailboxes *)
(* ===================================================================== *)

Module demo2.
Import database.

(** A second mailbox, [bob@tempmail.example.com], with one message. *)
Definition bob : address_row :=
  {| addr_id := 2%N;
     addr_email := "bob@tempmail.example.com";
     addr_token := "token-2";
     addr_created_at := (1761782400 * 10 ^ 9)%Z;
     addr_expires_at := (1761868800 * 10 ^ 9)%Z |}.

Definition message_of_bob : email_row :=
  {| email_id := 2000%N;
     email_cols := demo.email_to "bob@tempmail.example.com" |}.

Definition link_of_bob : recipient_row :=
  {| er_id := 6000%N; er_email_id := 2000%N; er_address_id := 2%N; er_is_read := false |}.

(** The store of [demo.db_with_messages n] with the mailbox of bob beside
    the mailbox [alive]. *)
Definition db_with_bob (n : nat) : DB :=
  {| tables :=
       {| addresses := [demo.alive; bob];
          emails := message_of_bob :: emails (tables (demo.db_with_messages n));
          email_recipients :=
            link_of_bob :: email_recipients (tables (demo.db_with_messages n));
          attachments := [] |};
     calls := 0;
     faults := fun _ => None;
     supply := 9000%N |}.

End demo2.

(* ===================================================================== *)
(** * database.go, first version: mailboxes created on delivery *)
(* ===================================================================== *)

(** The file holds an earlier [StoreEmail], which finds the mailbox of the
    recipient or creates it.  It shares the transaction, the statements on
    [emails], [email_recipients] and [attachments] and the record [stored]
    with the later version. *)
Module database_v1.
Import strings database.

(** The verb [%d] for an [int64]. *)
Definition format_d (n : Z) : string := NilZero.string_of_int (Z.to_int n).

(** [t.UnixNano()]: the nanoseconds since the epoch as an [int64]. *)
Definition UnixNano (t : GoTime) : Z := Config.wrap64 t.

(** [generateSimpleToken], for the reading [now] of the clock. *)
Definition generateSimpleToken (now : GoTime) : string :=
  "auto_" +:+ format_d (UnixNano now).

(** [24 * time.Hour] *)
Definition day : Z := (24 * 3600 * 10 ^ 9)%Z.

(** The readings of the clocks behind [getOrCreateAddress]: the two
    [time.Now()] of the server and the [NOW()] of the database that is the
    default of [created_at]. *)
Record Clocks : Type := {
  now_expiresAt : GoTime;
  now_token : GoTime;
  now_created_at : GoTime
}.

(** [INSERT INTO addresses (email, token, expires_at) VALUES ($1, $2, $3)
    RETURNING id] on [tx] *)
Definition tx_insert_address (tx : Tx) (email token : string)
    (expiresAt created_at : GoTime) : M (Tx * UUID) :=
  do _ <- driver_call;
  do id <- fresh_uuid;
  let t := pending tx in
  ret ({| pending :=
            {| addresses :=
                 addresses t ++
                 [{| addr_id := id; addr_email := email; addr_token := token;
                     addr_created_at := created_at; addr_expires_at := expiresAt |}];
               emails := emails t;
               email_recipients := email_recipients t;
               attachments := attachments t |} |}, id).

(** [getOrCreateAddress]; the transaction is returned with the
    identifier, since the insert changes what is pending. *)
Definition getOrCreateAddress (clocks : Clocks) (tx : Tx) (email : string)
    : M (Tx * UUID) :=
  fun db =>
    match tx_select_address_id tx email db with
    | (db', Ok addressID) => (db', Ok (tx, addressID))
    | (db', Err ErrNoRows) =>
        let expiresAt := (now_expiresAt clocks + day)%Z in
        let token := generateSimpleToken (now_token clocks) in
        wrap_err "failed to create address: %w"
          (tx_insert_address tx email token expiresAt (now_created_at clocks)) db'
    | (db', Err err) => (db', Err (ErrorfW "failed to query address: %w" [] err))
    end.

(** The statements of the first [StoreEmail] between [Begin] and
    [Commit]. *)
Definition StoreEmail_statements (clocks : Clocks) (tx : Tx) (email : EmailData.t)
    (attachments : list AttachmentData.t) : M (Tx * UUID) :=
  do (tx1, emailID) <- wrap_err "failed to insert email: %w" (tx_insert_email tx email);
  do (tx1', addressID) <- wrap_err "failed to get/create address: %w"
                            (getOrCreateAddress clocks tx1 (EmailData.ToAddr email));
  do tx2 <- wrap_err "failed to link email to address: %w"
              (tx_insert_recipient tx1' emailID addressID);
  do tx3 <- store_attachments tx2 emailID attachments;
  ret (tx3, addressID).

(** The first [StoreEmail]. *)
Definition StoreEmail (clocks : Clocks) (db : DB) (email : EmailData.t)
    (attachments : list AttachmentData.t) : stored :=
  match wrap_err "failed to begin transaction: %w" Begin db with
  | (db1, Err err) => {| db_after := db1; returned := Some err; spawned := None |}
  | (db1, Ok tx) =>
      match StoreEmail_statements clocks tx email attachments db1 with
      | (db2, Err err) =>
          {| db_after := Rollback tx db2; returned := Some err; spawned := None |}
      | (db2, Ok (tx3, addressID)) =>
          match wrap_err "failed to commit transaction: %w" (Commit tx3) db2 with
          | (db3, Err err) => {| db_after := db3; returned := Some err; spawned := None |}
          | (db3, Ok _) => {| db_after := db3; returned := None; spawned := Some addressID |}
          end
      end
  end.

(** The readings of the clocks in the scenarios. *)
Definition clocks : Clocks :=
  {| now_expiresAt := (1761782460 * 10 ^ 9)%Z;
     now_token := (1761782460 * 10 ^ 9 + 2000)%Z;
     now_created_at := (1761782460 * 10 ^ 9 + 3000)%Z |}.

End database_v1.

(* ===================================================================== *)
(** * The functions and the trigger of the schema *)
(* ===================================================================== *)

Module schema.
Import database.

(** [expires_at < NOW()] *)
Definition expired (now : GoTime) (a : address_row) : bool :=
  (addr_expires_at a <? now)%Z.

Definition has_link (t : Tables) (emailID : UUID) : bool :=
  existsb (fun er => (er_email_id er =? emailID)%N) (email_recipients t).

(** The trigger function [delete_orphaned_emails] of the migration, for
    the deleted link [OLD]: [DELETE FROM emails WHERE id = OLD.email_id AND
    NOT EXISTS (SELECT 1 FROM email_recipients WHERE email_id =
    OLD.email_id)], with the cascade to [attachments]. *)
Definition delete_orphaned_emails (t : Tables) (OLD : recipient_row) : Tables :=
  if has_link t (er_email_id OLD) then t
  else delete_emails t [er_email_id OLD].

(** The [ON DELETE CASCADE] of [email_recipients.address_id] for one
    deleted mailbox: its links are deleted and then, once the migration
    installed [trigger_delete_orphaned_emails], the trigger function runs
    for each deleted link. *)
Definition cascade_address (migrated : bool) (t : Tables) (addressID : UUID) : Tables :=
  let OLDs :=
    List.filter (fun er => (er_address_id er =? addressID)%N) (email_recipients t) in
  let t' :=
    {| addresses := addresses t;
       emails := emails t;
       email_recipients :=
         List.filter (fun er => negb (er_address_id er =? addressID)%N) (email_recipients t);
       attachments := attachments t |} in
  if migrated then fold_left delete_orphaned_emails OLDs t' else t'.

(** [cleanup_expired_addresses()] run at the instant [now]: [DELETE FROM
    addresses WHERE expires_at < NOW()] with its cascades, and the number
    of mailboxes deleted. *)
Definition cleanup_expired_addresses (migrated : bool) (now : GoTime) (t : Tables)
    : Tables * Z :=
  let gone := List.filter (expired now) (addresses t) in
  let t0 :=
    {| addresses := List.filter (fun a => negb (expired now a)) (addresses t);
       emails := emails t;
       email_recipients := email_recipients t;
       attachments := attachments t |} in
  (fold_left (cascade_address migrated) (map addr_id gone) t0, Z.of_nat (length gone)).

(** The last statement of the migration: [DELETE FROM emails WHERE id NOT
    IN (SELECT DISTINCT email_id FROM email_recipients)]. *)
Definition delete_existing_orphans (t : Tables) : Tables :=
  delete_emails t
    (map email_id (List.filter (fun e => negb (has_link t (email_id e))) (emails t))).

(** The subquery [emails_to_delete] of [enforce_max_emails_per_address]:
    the pairs of [email_recipients er JOIN emails e ON er.email_id = e.id
    WHERE er.address_id = p_address_id], which are the pairs of
    [database.joined], in the order this statement gets them under [ORDER
    BY e.received_at DESC], after the [OFFSET]. *)
Definition emails_to_delete {S : Postgres} (t : Tables) (p_address_id : UUID)
    (offset : nat) : list email_row :=
  skipn offset
    (ORDER_BY_received_at_DESC of_enforce_max_emails_per_address (joined t p_address_id)).

(** [enforce_max_emails_per_address(p_address_id, p_max_emails)]: the
    statement of [EnforceEmailLimit] with the cap as a parameter, and the
    number of messages deleted.  A negative [OFFSET] is an error of the
    database: [None]. *)
Definition enforce_max_emails_per_address {S : Postgres} (t : Tables)
    (p_address_id : UUID) (p_max_emails : Z) : option (Tables * Z) :=
  if (p_max_emails <? 0)%Z then None
  else
    let ids := map email_id (emails_to_delete t p_address_id (Z.to_nat p_max_emails)) in
    Some (delete_emails t ids,
          Z.of_nat (length (List.filter (fun e => id_in ids (email_id e)) (emails t)))).

(** Every message has a recipient link. *)
Definition no_orphans (t : Tables) : Prop :=
  forall e, In e (emails t) -> has_link t (email_id e) = true.

(** A store in which the mailbox [alive] has expired and the mailbox of
    bob has not, at the instant [demo.clock] reads. *)
Definition expired_alive : address_row :=
  {| addr_id := 1%N;
     addr_email := "alive@tempmail.example.com";
     addr_token := "token-1";
     addr_created_at := (1761696000 * 10 ^ 9)%Z;
     addr_expires_at := (1761782400 * 10 ^ 9)%Z |}.

Definition tables_with_expired : Tables :=
  {| addresses := [expired_alive; demo2.bob];
     emails := demo2.message_of_bob :: map demo.message (seq 1 3);
     email_recipients := demo2.link_of_bob :: map demo.link (seq 1 3);
     attachments := [] |}.

End schema.

(* ===================================================================== *)
(** * Properties of the string functions *)
(* ===================================================================== *)

Module strings_facts.
Import strings.

Lemma lower_byte_not_upper (c : ascii) : is_upper (lower_byte c) = false.
Proof.
  unfold lower_byte. destruct (is_upper c) eqn:E; [|exact E].
  unfold is_upper in *.
  apply andb_true_iff in E as [E1 E2].
  apply Nat.leb_le in E1. apply Nat.leb_le in E2.
  rewrite nat_ascii_embedding by lia.
  apply andb_false_iff. right. apply Nat.leb_gt. lia.
Qed.

Lemma lower_ascii_no_upper (s : string) : has_upper (lower_ascii s) = false.
Proof.
  induction s as [|c r IH]; simpl; [reflexivity|].
  now rewrite lower_byte_not_upper, IH.
Qed.

Lemma lower_byte_idem (c : ascii) : lower_byte (lower_byte c) = lower_byte c.
Proof.
  unfold lower_byte at 1. now rewrite lower_byte_not_upper.
Qed.

Lemma lower_ascii_idem (s : string) : lower_ascii (lower_ascii s) = lower_ascii s.
Proof.
  induction s as [|c r IH]; simpl; [reflexivity|].
  now rewrite lower_byte_idem, IH.
Qed.

Lemma lower_byte_below_128 (c : ascii) :
  (nat_of_ascii c <? 128)%nat = true -> (nat_of_ascii (lower_byte c) <? 128)%nat = true.
Proof.
  intros H. unfold lower_byte. destruct (is_upper c) eqn:E; [|exact H].
  unfold is_upper in E. apply andb_true_iff in E as [E1 E2].
  apply Nat.leb_le in E1. apply Nat.leb_le in E2.
  rewrite nat_ascii_embedding by lia. apply Nat.ltb_lt. lia.
Qed.

(** Lower-casing an ASCII string gives an ASCII string. *)
Lemma lower_ascii_isASCII (s : string) :
  isASCII s = true -> isASCII (lower_ascii s) = true.
Proof.
  induction s as [|c r IH]; simpl; [reflexivity|].
  intros H. apply andb_true_iff in H as [Hc Hr].
  now rewrite lower_byte_below_128, IH.
Qed.

(** A string without capital is its own lower case. *)
Lemma lower_ascii_fixed (s : string) : has_upper s = false -> lower_ascii s = s.
Proof.
  induction s as [|c r IH]; simpl; [reflexivity|].
  intros H. apply orb_false_iff in H as [Hc Hr].
  unfold lower_byte. now rewrite Hc, IH.
Qed.

Lemma isASCII_TrimLeft (s cutset : string) :
  isASCII s = true -> isASCII (TrimLeft s cutset) = true.
Proof.
  induction s as [|c r IH]; [reflexivity|]. intros H. cbn [TrimLeft].
  destruct (in_cutset c cutset); [|exact H].
  apply IH. simpl in H. now apply andb_true_iff in H as [_ H].
Qed.

Lemma isASCII_rev_append (s acc : string) :
  isASCII (rev_append s acc) = isASCII s && isASCII acc.
Proof.
  revert acc. induction s as [|c r IH]; intros acc; simpl; [reflexivity|].
  rewrite IH. simpl. now destruct (nat_of_ascii c <? 128)%nat, (isASCII r).
Qed.

Lemma isASCII_reverse (s : string) : isASCII (reverse s) = isASCII s.
Proof. unfold reverse. rewrite isASCII_rev_append. simpl. apply andb_true_r. Qed.

Lemma isASCII_Trim (s cutset : string) :
  isASCII s = true -> isASCII (Trim s cutset) = true.
Proof.
  intros H. unfold Trim, TrimRight. rewrite isASCII_reverse.
  apply isASCII_TrimLeft. rewrite isASCII_reverse. now apply isASCII_TrimLeft.
Qed.

(** The pieces of an ASCII string are ASCII. *)
Lemma isASCII_Split (s : string) (sep : ascii) (p : string) :
  isASCII s = true -> In p (Split s sep) -> isASCII p = true.
Proof.
  revert p. induction s as [|c r IH]; intros p H; simpl.
  - intros [<-|[]]. reflexivity.
  - simpl in H. apply andb_true_iff in H as [Hc Hr].
    destruct (Ascii.eqb c sep).
    + intros [<-|Hin]; [reflexivity | now apply IH].
    + destruct (Split r sep) as [|q qs] eqn:S.
      * intros [<-|[]]. simpl. now rewrite Hc.
      * intros [<-|Hin].
        -- simpl. rewrite Hc. apply IH; [exact Hr | now left].
        -- apply IH; [exact Hr | now right].
Qed.


Section ToLower.
Context {P : Platform}.

(** On an ASCII string [strings.ToLower] works on the bytes. *)
Lemma ToLower_ascii (s : string) : isASCII s = true -> ToLower s = lower_ascii s.
Proof. intros H. unfold ToLower. now rewrite H. Qed.

Lemma ToLower_isASCII (s : string) : isASCII s = true -> isASCII (ToLower s) = true.
Proof. intros H. rewrite ToLower_ascii by exact H. now apply lower_ascii_isASCII. Qed.

Lemma ToLower_no_upper (s : string) : isASCII s = true -> has_upper (ToLower s) = false.
Proof. intros H. rewrite ToLower_ascii by exact H. apply lower_ascii_no_upper. Qed.

Lemma ToLower_neq_upper (s d : string) :
  isASCII s = true -> has_upper d = true -> ToLower s <> d.
Proof.
  intros Hs Hd Heq. rewrite <- Heq, ToLower_no_upper in Hd by exact Hs. discriminate.
Qed.

Lemma ToLower_idem (s : string) : isASCII s = true -> ToLower (ToLower s) = ToLower s.
Proof.
  intros H. rewrite (ToLower_ascii (ToLower s)) by now apply ToLower_isASCII.
  rewrite ToLower_ascii by exact H. apply lower_ascii_idem.
Qed.

End ToLower.

Lemma Split_not_nil (s : string) (sep : ascii) : Split s sep <> [].
Proof.
  destruct s as [|c r]; simpl; [discriminate|].
  destruct (Ascii.eqb c sep); [discriminate|].
  destruct (Split r sep); discriminate.
Qed.

Lemma Split_one (s : string) (sep : ascii) (a : string) :
  Split s sep = [a] <-> s = a /\ ContainsByte s sep = false.
Proof.
  revert a. induction s as [|c r IH]; intros a; simpl.
  - split; [intros [= <-]; auto | intros [<- _]; reflexivity].
  - destruct (Ascii.eqb c sep) eqn:E; simpl.
    + split; [intros [= _ H]; now apply Split_not_nil in H | intros [_ [=]]].
    + destruct (Split r sep) as [|p ps] eqn:S.
      * now apply Split_not_nil in S.
      * split.
        -- intros [= <- ->]. destruct (IH p) as [H _].
           destruct (H eq_refl) as [-> ->]. auto.
        -- intros [<- Hc]. destruct (IH r) as [_ H].
           specialize (H (conj eq_refl Hc)). now inversion H.
Qed.

(** Two pieces: exactly one separator, between them. *)
Lemma Split_two (s : string) (sep : ascii) (a b : string) :
  Split s sep = [a; b] <->
  s = a +:+ String sep b /\ ContainsByte a sep = false /\ ContainsByte b sep = false.
Proof.
  revert a. induction s as [|c r IH]; intros a; simpl.
  - split; [discriminate|]. intros [H _]. destruct a; discriminate.
  - destruct (Ascii.eqb c sep) eqn:E.
    + apply Ascii.eqb_eq in E. subst c. split.
      * intros [= <- H]. apply Split_one in H as [-> H]. auto.
      * intros (H & Ha & Hb). destruct a as [|c' a']; simpl in *.
        -- injection H as ->. f_equal. apply Split_one. auto.
        -- injection H as <- _. rewrite Ascii.eqb_refl in Ha. discriminate.
    + destruct (Split r sep) as [|p ps] eqn:S.
      * now apply Split_not_nil in S.
      * split.
        -- intros [= <- ->]. destruct (IH p) as [H _].
           destruct (H eq_refl) as (-> & Hp & Hb). simpl. rewrite E. auto.
        -- intros (H & Ha & Hb). destruct a as [|c' a']; simpl in *.
           ++ injection H as -> _. rewrite Ascii.eqb_refl in E. discriminate.
           ++ injection H as <- ->. rewrite E in Ha. simpl in Ha.
              destruct (IH a') as [_ H']. specialize (H' (conj eq_refl (conj Ha Hb))).
              now inversion H'.
Qed.

End strings_facts.

(* ===================================================================== *)
(** * config.go: the domain map *)
(* ===================================================================== *)

Lemma fold_insert_lookup (l : list string) (m : gmap string bool) (k : string) :
  fold_left (fun domains domain => <[domain := true]> domains) l m !! k =
  if bool_decide (k ∈ l) then Some true else m !! k.
Proof.
  revert m. induction l as [|d l IH]; intros m; cbn [fold_left].
  - rewrite bool_decide_eq_false_2; [reflexivity | apply not_elem_of_nil].
  - rewrite IH. destruct (decide (k ∈ l)) as [Hin|Hnin].
    + rewrite !bool_decide_eq_true_2; [reflexivity | now right | assumption].
    + rewrite (bool_decide_eq_false_2 _ Hnin).
      destruct (decide (k = d)) as [->|Hne].
      * rewrite lookup_insert_eq, bool_decide_eq_true_2; [reflexivity | now left].
      * rewrite lookup_insert_ne by congruence.
        rewrite bool_decide_eq_false_2; [reflexivity|].
        intros H. apply elem_of_cons in H as [?|?]; contradiction.
Qed.

(** The map answers [true] exactly for the strings of the configuration,
    as they are written there. *)
Lemma GetDomainMap_index (c : Config.t) (k : string) :
  map_index (Config.GetDomainMap c) k = true <-> In k (Config.Domains c).
Proof.
  unfold map_index, Config.GetDomainMap. rewrite fold_insert_lookup, lookup_empty.
  rewrite <- list_elem_of_In.
  destruct (decide (k ∈ Config.Domains c)) as [H|H].
  - rewrite bool_decide_eq_true_2 by assumption. simpl. tauto.
  - rewrite bool_decide_eq_false_2 by assumption. simpl. split; [discriminate | contradiction].
Qed.

(* ===================================================================== *)
(** * session.go: RCPT TO *)
(* ===================================================================== *)

Section Rcpt.
Import strings strings_facts.
Context {P : Platform}.

(** The three tests of [Rcpt], as one equation. *)
Lemma Rcpt_unfold (s : Session.t) (to : string) :
  session.Rcpt s to =
  match mail_ParseAddress to with
  | Err _ => (s, Some (Errorf "invalid recipient address" []))
  | Ok addr =>
      match Split (Address.Address addr) "@" with
      | [_; domain] =>
          if map_index (Session.domains s) (ToLower domain)
          then (session.with_envelope s (Session.from s)
                  (Session.to s ++ [ToLower (Address.Address addr)]), None)
          else (s, Some (Errorf "relay access denied for domain %s" [ArgS (ToLower domain)]))
      | _ => (s, Some (Errorf "invalid email format" []))
      end
  end.
Proof.
  unfold session.Rcpt. destruct (mail_ParseAddress to) as [addr|e]; [|reflexivity].
  destruct (Split (Address.Address addr) "@") as [|a [|b [|c l]]]; try reflexivity.
  cbn [length Nat.eqb negb nth]. now destruct (map_index _ _).
Qed.

(** C1 (amended).  [Rcpt] accepts a recipient exactly when the address
    parses, the parsed address is [local@domain] with a single [@], and the
    lower-cased domain is in the domain set of the session.  The mail store
    takes no part: [Rcpt] does not receive the connection.  An accepted
    recipient is appended in lower case; a refused one leaves the session
    as it was. *)
Theorem Rcpt_accepts_iff (s : Session.t) (to : string) :
  (snd (session.Rcpt s to) = None <->
   exists addr local domain,
     mail_ParseAddress to = Ok addr /\
     Address.Address addr = local +:+ "@" +:+ domain /\
     ContainsByte local "@" = false /\ ContainsByte domain "@" = false /\
     map_index (Session.domains s) (ToLower domain) = true) /\
  (forall addr, mail_ParseAddress to = Ok addr -> snd (session.Rcpt s to) = None ->
     Session.to (fst (session.Rcpt s to)) =
     (Session.to s ++ [ToLower (Address.Address addr)])%list) /\
  (forall e, snd (session.Rcpt s to) = Some e -> fst (session.Rcpt s to) = s).
Proof.
  rewrite Rcpt_unfold. split; [split|split].
  - destruct (mail_ParseAddress to) as [addr|e]; [|discriminate].
    destruct (Split (Address.Address addr) "@") as [|a [|b [|c l]]] eqn:S;
      try discriminate.
    destruct (map_index _ _) eqn:M; [|discriminate]. intros _.
    apply Split_two in S as (H & Ha & Hb). now exists addr, a, b.
  - intros (addr & a & b & -> & H & Ha & Hb & M).
    assert (S : Split (Address.Address addr) "@" = [a; b]) by (apply Split_two; auto).
    now rewrite S, M.
  - intros addr ->.
    destruct (Split (Address.Address addr) "@") as [|a [|b [|c l]]]; try discriminate.
    now destruct (map_index _ _).
  - intros e. destruct (mail_ParseAddress to) as [addr|e']; [|reflexivity].
    destruct (Split (Address.Address addr) "@") as [|a [|b [|c l]]]; try reflexivity.
    now destruct (map_index _ _).
Qed.

(** C10 (amended).  The domain map holds the configured strings as they
    are written, while [Rcpt] looks up the lower-cased domain.  So for a
    configured domain [d] written in ASCII with a capital letter, the key
    looked up for a recipient at [d], in any spelling that lower-cases to
    the same string, is never the entry [d]; the recipient is accepted
    exactly when the lower-case spelling of [d] is configured as well, and
    refused otherwise. *)
Theorem capital_domain_needs_lowercase_twin (c : Config.t) (s : Session.t)
    (d to : string) (addr : Address.t) (local domain : string) :
  Session.domains s = Config.GetDomainMap c ->
  In d (Config.Domains c) ->
  isASCII d = true ->
  has_upper d = true ->
  mail_ParseAddress to = Ok addr ->
  Address.Address addr = local +:+ "@" +:+ domain ->
  ContainsByte local "@" = false ->
  ContainsByte domain "@" = false ->
  ToLower domain = ToLower d ->
  (forall k, map_index (Config.GetDomainMap c) k = true <-> In k (Config.Domains c)) /\
  ToLower domain <> d /\
  (snd (session.Rcpt s to) = None <-> In (ToLower d) (Config.Domains c)).
Proof.
  intros Hs Hd Hascii Hup Hp Ha Hl Hdm Hcase. split; [|split].
  - intros k. apply GetDomainMap_index.
  - rewrite Hcase. now apply ToLower_neq_upper.
  - assert (S : Split (Address.Address addr) "@" = [local; domain])
      by (apply Split_two; auto).
    rewrite Rcpt_unfold, Hp, S, Hs, Hcase.
    rewrite <- GetDomainMap_index.
    destruct (map_index _ _); simpl; split; congruence.
Qed.

(** A recipient whose domain is written with the Kelvin sign is not ASCII:
    [Rcpt] looks up and stores what [strings.Map(unicode.ToLower, s)]
    answers, which in Go is the domain and the address with [k]. *)
Example Rcpt_kelvin_sign (s : Session.t) (to : string) :
  mail_ParseAddress to
  = Ok {| Address.Name := "";
          Address.Address := "x@tempmail.example." +:+ demo.KELVIN +:+ "om" |} ->
  strings_Map_unicode_ToLower ("tempmail.example." +:+ demo.KELVIN +:+ "om")
  = "tempmail.example.kom" ->
  strings_Map_unicode_ToLower ("x@tempmail.example." +:+ demo.KELVIN +:+ "om")
  = "x@tempmail.example.kom" ->
  map_index (Session.domains s) "tempmail.example.kom" = true ->
  session.Rcpt s to
  = (session.with_envelope s (Session.from s)
       (Session.to s ++ ["x@tempmail.example.kom"]), None).
Proof.
  intros Hp Hd Ha Hm. rewrite Rcpt_unfold, Hp. cbn [Address.Address].
  set (domain := "tempmail.example." +:+ demo.KELVIN +:+ "om") in *.
  set (address := "x@tempmail.example." +:+ demo.KELVIN +:+ "om") in *.
  assert (S : Split address "@" = ["x"; domain]) by reflexivity.
  assert (Td : ToLower domain = strings_Map_unicode_ToLower domain) by reflexivity.
  assert (Ta : ToLower address = strings_Map_unicode_ToLower address) by reflexivity.
  now rewrite S, Td, Ta, Hd, Ha, Hm.
Qed.

End Rcpt.

(** C1, refuted as stated: with the domain configured and only
    [alive@tempmail.example.com] in the store (scenario S2), the recipient
    [ghost@tempmail.example.com] is accepted although [AddressExists]
    answers [false] for it. *)
Lemma Rcpt_accepts_missing_mailbox :
  snd (session.Rcpt (P := demo.platform) demo.sess "ghost@tempmail.example.com") = None /\
  Session.to (fst (session.Rcpt (P := demo.platform) demo.sess "ghost@tempmail.example.com"))
    = ["ghost@tempmail.example.com"] /\
  snd (database.AddressExists (P := demo.platform) "ghost@tempmail.example.com" demo.db)
    = Ok false.
Proof. vm_compute. repeat split. Qed.

(** [Rcpt_accepts_iff] at the recipient of scenario S2. *)
Lemma Rcpt_accepts_iff_witness :
  exists addr local domain,
    mail_ParseAddress (Platform := demo.platform) "ghost@tempmail.example.com" = Ok addr /\
    Address.Address addr = local +:+ "@" +:+ domain /\
    strings.ContainsByte local "@" = false /\ strings.ContainsByte domain "@" = false /\
    map_index (Session.domains demo.sess) (strings.ToLower (P := demo.platform) domain)
      = true.
Proof.
  apply (proj1 (Rcpt_accepts_iff (P := demo.platform) demo.sess "ghost@tempmail.example.com")).
  vm_compute. reflexivity.
Defined.

(** C10, refuted as stated: with ["Example.com"] and ["example.com"] both
    configured, a recipient at [Example.com] is accepted. *)
Lemma capital_domain_accepted_beside_twin :
  In "Example.com" (Config.Domains demo.cfg_twin) /\
  strings.has_upper "Example.com" = true /\
  snd (session.Rcpt (P := demo.platform) (demo.session_of demo.cfg_twin) "x@Example.com")
    = None.
Proof. vm_compute. auto. Qed.

(** [capital_domain_needs_lowercase_twin] where ["Example.com"] is the only
    configured domain: the recipient [x@EXAMPLE.com] is not accepted. *)
Lemma capital_domain_needs_lowercase_twin_witness :
  (forall k, map_index (Config.GetDomainMap demo.cfg_capital) k = true <->
             In k (Config.Domains demo.cfg_capital)) /\
  strings.ToLower (P := demo.platform) "EXAMPLE.com" <> "Example.com" /\
  (snd (session.Rcpt (P := demo.platform) (demo.session_of demo.cfg_capital) "x@EXAMPLE.com")
     = None <->
   In (strings.ToLower (P := demo.platform) "Example.com") (Config.Domains demo.cfg_capital)).
Proof.
  apply (capital_domain_needs_lowercase_twin (P := demo.platform)
           demo.cfg_capital (demo.session_of demo.cfg_capital) "Example.com" "x@EXAMPLE.com"
           {| Address.Name := ""; Address.Address := "x@EXAMPLE.com" |} "x" "EXAMPLE.com");
    try reflexivity.
  simpl. auto.
Defined.

(** Scenario S1: with the domain set [{tempmail.example.com}], the
    recipient [x@other.com] is refused and the session keeps no recipient. *)
Example S1_unknown_domain :
  session.Rcpt (P := demo.platform) demo.sess "x@other.com"
  = (demo.sess, Some (Errorf "relay access denied for domain %s" [ArgS "other.com"])).
Proof. vm_compute. reflexivity. Qed.

(** The cases of TestSessionRcpt whose recipient is a bare address:
    accepted for the two configured domains, refused for another domain,
    for a string without [@] and for an empty domain. *)
Example TestSessionRcpt :
  map (fun recipient =>
         snd (session.Rcpt (P := demo.platform)
                (demo.session_of (demo.config ["tempmail.example.com"; "temp.test"] false))
                recipient))
    ["test@tempmail.example.com"; "user@temp.test"; "user@notaccepted.com";
     "invalid-email"; "nodomain@"]
  = [None; None;
     Some (Errorf "relay access denied for domain %s" [ArgS "notaccepted.com"]);
     Some (Errorf "invalid recipient address" []);
     Some (Errorf "invalid recipient address" [])].
Proof. vm_compute. reflexivity. Qed.

(* ===================================================================== *)
(** * validation.go *)
(* ===================================================================== *)

Module validation_facts.
Import strings strings_facts validation.

Lemma fields_aux_open (s w : string) : fields_aux s 0 (Some w) <> [].
Proof.
  revert w. induction s as [|c r IH]; intros w; cbn [fields_aux]; [discriminate|].
  destruct (space_width (String c r)); [apply IH | discriminate].
Qed.

(** A byte below 128 starts a white space only when it is one itself. *)
Lemma space_width_ascii (c : ascii) (r : string) :
  (nat_of_ascii c <? 128)%nat = true ->
  space_width (String c r) = if is_space c then 1 else 0.
Proof.
  intros H. apply Nat.ltb_lt in H. unfold space_width.
  destruct (is_space c); [reflexivity|].
  assert (B : forall n, 128 <= n -> byte_is c n = false).
  { intros n Hn. unfold byte_is. apply Nat.eqb_neq. lia. }
  destruct r as [|d [|e r']]; [reflexivity| |]; rewrite ?(B 194), ?(B 225), ?(B 226), ?(B 227) by lia;
    reflexivity.
Qed.

(** A record that starts with a version tag has a first field, so the
    slice expression of [evaluateBasicSPF] is in range. *)
Lemma Fields_of_tagged (record : string) :
  HasPrefix record "v=spf1" = true ->
  exists tag mechanisms, Fields record = tag :: mechanisms.
Proof.
  destruct record as [|c r]; [discriminate|]. simpl.
  destruct (Ascii.eqb c "v") eqn:E; [|discriminate]. intros _.
  apply Ascii.eqb_eq in E. subst c. unfold Fields. cbn [fields_aux].
  rewrite space_width_ascii by reflexivity. cbn [is_space].
  destruct (fields_aux r 0 (Some "v")) as [|f l] eqn:F.
  - now apply fields_aux_open in F.
  - eauto.
Qed.

Lemma first_with_prefix_None (prefix : string) (txts : list string) :
  first_with_prefix prefix txts = None <->
  Forall (fun r => HasPrefix r prefix = false) txts.
Proof.
  induction txts as [|r l IH]; simpl.
  - split; auto.
  - destruct (HasPrefix r prefix) eqn:E.
    + split; [discriminate|]. intros H. inversion H; congruence.
    + rewrite IH. split; [now constructor|]. intros H. now inversion H.
Qed.

Lemma first_with_prefix_Some (prefix : string) (txts : list string) (record : string) :
  first_with_prefix prefix txts = Some record ->
  HasPrefix record prefix = true /\ In record txts.
Proof.
  induction txts as [|r l IH]; simpl; [discriminate|].
  destruct (HasPrefix r prefix) eqn:E.
  - intros [= <-]. auto.
  - intros H. destruct (IH H). auto.
Qed.

Lemma first_with_prefix_Exists (prefix : string) (txts : list string) :
  Exists (fun r => HasPrefix r prefix = true) txts ->
  exists record, first_with_prefix prefix txts = Some record.
Proof.
  intros H. destruct (first_with_prefix prefix txts) as [r|] eqn:E; [eauto|].
  apply first_with_prefix_None in E. apply Exists_exists in H as (r & Hin & Hr).
  rewrite Forall_forall in E. specialize (E r Hin). congruence.
Qed.

Lemma HasPrefix_empty (s : string) : HasPrefix s "" = true.
Proof. now destruct s. Qed.




Section WithPlatform.
Context {P : Platform}.







Lemma scan_in_values (ip : IP) (mechanisms : list string) :
  In (scan_mechanisms ip mechanisms) ["pass"; "neutral"; "fail"; "softfail"].
Proof.
  induction mechanisms as [|mech rest IH]; simpl; [auto|].
  destruct (is_ip_mechanism mech).
  - destruct (matchIP ip (ipRange_of mech)); [auto | exact IH].
  - destruct (String.eqb mech "a" || String.eqb mech "+a"); [auto|].
    destruct (String.eqb mech "-all"); [auto|].
    destruct (String.eqb mech "~all"); [auto|].
    destruct (String.eqb mech "?all"); [auto | exact IH].
Qed.

Lemma evaluateBasicSPF_of_tagged (ip : IP) (record domain : string) :
  HasPrefix record "v=spf1" = true ->
  exists tag mechanisms,
    Fields record = tag :: mechanisms /\
    evaluateBasicSPF ip record domain = Some (scan_mechanisms ip mechanisms).
Proof.
  intros H. destruct (Fields_of_tagged record H) as (tag & mechanisms & F).
  exists tag, mechanisms. unfold evaluateBasicSPF. now rewrite F.
Qed.

(** [validateSPF] always returns: the panic of [evaluateBasicSPF] is out
    of reach, since the record it receives starts with the version tag. *)
Lemma validateSPF_returns (v : Validator) (clientIP heloName from : string) :
  exists verdict,
    validateSPF v clientIP heloName from = Some verdict /\
    In verdict ["none"; "pass"; "neutral"; "fail"; "softfail"].
Proof.
  unfold validateSPF.
  destruct (String.eqb (extractDomain from) ""); [exists "none"; simpl; auto|].
  destruct (net_ParseIP clientIP) as [ip|]; [|exists "none"; simpl; auto].
  unfold lookupSPFRecord.
  destruct (net_LookupTXT (extractDomain from)) as [txts|e]; [|exists "none"; simpl; auto].
  destruct (first_with_prefix "v=spf1" txts) as [record|] eqn:F; [|exists "none"; simpl; auto].
  apply first_with_prefix_Some in F as [F _].
  destruct (evaluateBasicSPF_of_tagged ip record (extractDomain from) F)
    as (tag & mechanisms & _ & ->).
  eexists. split; [reflexivity|].
  pose proof (scan_in_values ip mechanisms) as H. simpl in *. tauto.
Qed.

Lemma validateDMARC_values (v : Validator) (domain spfResult : string)
    (dkimValid : option bool) :
  In (validateDMARC v domain spfResult dkimValid) spec.dmarc_values.
Proof.
  unfold validateDMARC, spec.dmarc_values.
  destruct (String.eqb domain ""); [simpl; auto|].
  destruct (lookupDMARCRecord domain); [|simpl; auto].
  destruct (_ || _); simpl; auto.
Qed.

(** [ValidateEmail] always returns, and its verdicts lie in the value sets
    of the specification. *)
Lemma ValidateEmail_values (v : Validator) (rawMessage : bytes)
    (from clientIP heloName : string) :
  exists r,
    ValidateEmail v rawMessage from clientIP heloName = Some r /\
    In (SPFResult r) spec.spf_values /\ In (DMARCResult r) spec.dmarc_values.
Proof.
  unfold ValidateEmail.
  destruct (Config.CheckSPF _).
  - destruct (validateSPF_returns v clientIP heloName from) as (verdict & -> & Hv).
    eexists. split; [reflexivity|]. cbn [SPFResult DMARCResult]. split.
    + unfold spec.spf_values. simpl in *. intuition.
    + destruct (Config.CheckDMARC _); [apply validateDMARC_values | simpl; auto].
  - eexists. split; [reflexivity|]. cbn [SPFResult DMARCResult]. split.
    + simpl. auto 6.
    + destruct (Config.CheckDMARC _); [apply validateDMARC_values | simpl; auto].
Qed.

End WithPlatform.


(** C4.  The DMARC verdict is ["none"] when the sender domain is empty and
    when no TXT record at [_dmarc.<domain>] starts with [v=DMARC1] (a
    failed lookup included).  When such a record is present, the verdict is
    ["pass"] exactly when the SPF result is ["pass"] or the DKIM result is
    true, and ["fail"] otherwise. *)
Theorem validateDMARC_verdict {P : Platform} (v : Validator)
    (domain spfResult : string) (dkimValid : option bool) :
  (domain = "" -> validateDMARC v domain spfResult dkimValid = "none") /\
  ((forall txts, net_LookupTXT ("_dmarc." +:+ domain) = Ok txts ->
      Forall (fun r => HasPrefix r "v=DMARC1" = false) txts) ->
   validateDMARC v domain spfResult dkimValid = "none") /\
  (forall txts,
     domain <> "" ->
     net_LookupTXT ("_dmarc." +:+ domain) = Ok txts ->
     Exists (fun r => HasPrefix r "v=DMARC1" = true) txts ->
     (validateDMARC v domain spfResult dkimValid = "pass" <->
      spfResult = "pass" \/ dkimValid = Some true) /\
     (validateDMARC v domain spfResult dkimValid = "fail" <->
      ~ (spfResult = "pass" \/ dkimValid = Some true))).
Proof.
  split; [|split].
  - intros ->. reflexivity.
  - intros H. unfold validateDMARC, lookupDMARCRecord.
    destruct (String.eqb domain ""); [reflexivity|].
    destruct (net_LookupTXT ("_dmarc." +:+ domain)) as [txts|e]; [|reflexivity].
    specialize (H txts eq_refl). apply first_with_prefix_None in H. now rewrite H.
  - intros txts Hd Hl Hex.
    destruct (first_with_prefix_Exists _ _ Hex) as (record & F).
    unfold validateDMARC, lookupDMARCRecord. apply String.eqb_neq in Hd.
    rewrite Hd, Hl, F.
    assert (R : String.eqb spfResult "pass"
                || match dkimValid with Some b => b | None => false end = true <->
                spfResult = "pass" \/ dkimValid = Some true).
    { rewrite orb_true_iff, String.eqb_eq.
      destruct dkimValid as [[|]|]; intuition congruence. }
    destruct (_ || _).
    + split; [tauto|]. split; [discriminate|]. intros H. exfalso. apply H, R. reflexivity.
    + split.
      * split; [discriminate|]. intros H. apply R in H. discriminate.
      * split; [|reflexivity]. intros _ H. apply R in H. discriminate.
Qed.

(** [validateDMARC_verdict] in the zone of the scenarios, where
    [_dmarc.example.org] publishes a policy: SPF ["fail"] with a valid DKIM
    signature gives ["pass"]. *)
Lemma validateDMARC_verdict_witness :
  validateDMARC (P := demo.platform) (NewValidator demo.cfg) "example.org" "fail" (Some true)
    = "pass" <->
  "fail" = "pass" \/ Some true = Some true.
Proof.
  refine (proj1 (proj2 (proj2 (validateDMARC_verdict (P := demo.platform)
            (NewValidator demo.cfg) "example.org" "fail" (Some true)))
            ["v=DMARC1; p=none"] _ _ _)).
  - discriminate.
  - reflexivity.
  - constructor. reflexivity.
Defined.


(** The cases of TestExtractDomain, TestMatchIP and TestEvaluateBasicSPF
    that use IPv4 addresses, on the platform of the scenarios. *)
Example TestExtractDomain :
  map (extractDomain (P := demo.platform))
    ["user@example.com"; "<user@example.com>"; "user@mail.example.com"; "invalid"; "";
     "user@test@example.com"; "user@EXAMPLE.COM"]
  = ["example.com"; "example.com"; "mail.example.com"; ""; ""; ""; "example.com"].
Proof. reflexivity. Qed.

(** [strings.Fields] splits around the white space of Unicode: a record
    whose fields are separated by a no-break space is read like one with a
    space. *)
Example Fields_no_break_space :
  Fields ("v=spf1" +:+ demo.NBSP +:+ "-all") = ["v=spf1"; "-all"] /\
  Fields ("v=spf1  ip4:192.0.2.10" +:+ demo.NBSP +:+ demo.NBSP +:+ "~all ")
  = ["v=spf1"; "ip4:192.0.2.10"; "~all"] /\
  Fields ("a" +:+ String (ascii_of_nat 194) "b") = ["a" +:+ String (ascii_of_nat 194) "b"] /\
  map (fun t : string * string =>
         match net_ParseIP (Platform := demo.platform) (fst t) with
         | Some ip => evaluateBasicSPF (P := demo.platform) ip (snd t) "example.org"
         | None => None
         end)
    [("203.0.113.5", "v=spf1" +:+ demo.NBSP +:+ "-all");
     ("192.0.2.10", "v=spf1" +:+ demo.NBSP +:+ "ip4:192.0.2.10")]
  = [Some "fail"; Some "pass"].
Proof. vm_compute. auto. Qed.

Example TestMatchIP :
  map (fun t : string * string =>
         option_map (fun ip => matchIP (P := demo.platform) ip (snd t))
           (net_ParseIP (Platform := demo.platform) (fst t)))
    [("192.168.1.100", "192.168.1.100"); ("192.168.1.100", "192.168.1.0/24");
     ("192.168.2.100", "192.168.1.0/24"); ("192.168.1.100", "192.168.1.101")]
  = [Some true; Some true; Some false; Some false].
Proof. vm_compute. reflexivity. Qed.

Example TestEvaluateBasicSPF :
  map (fun t : string * string =>
         match net_ParseIP (Platform := demo.platform) (fst t) with
         | Some ip => evaluateBasicSPF (P := demo.platform) ip (snd t) "example.com"
         | None => None
         end)
    [("192.168.1.100", "v=spf1 ip4:192.168.1.100 -all");
     ("192.168.1.50", "v=spf1 ip4:192.168.1.0/24 -all");
     ("10.0.0.1", "v=spf1 -all"); ("10.0.0.1", "v=spf1 ~all");
     ("10.0.0.1", "v=spf1 ?all"); ("10.0.0.1", "v=spf1 a -all")]
  = [Some "pass"; Some "pass"; Some "fail"; Some "softfail"; Some "neutral"; Some "neutral"].
Proof. vm_compute. reflexivity. Qed.

End validation_facts.

(* ===================================================================== *)
(** * database.go: StoreEmail *)
(* ===================================================================== *)

Lemma wraps_refl (e : error) : wraps e e.
Proof. destruct e; now left. Qed.

Lemma wraps_wrapped (format : string) (args : list fmt_arg) (e target : error) :
  wraps e target -> wraps (ErrorfW format args e) target.
Proof. intros H. now right. Qed.

Module database_facts.
Import strings database spec.

#[local] Hint Resolve wraps_refl wraps_wrapped : core.

Lemma untouched_refl (db : DB) : untouched db db.
Proof. split; reflexivity. Qed.

Lemma untouched_trans (a b c : DB) : untouched a b -> untouched b c -> untouched a c.
Proof. intros [H1 H2] [H3 H4]. split; congruence. Qed.

Lemma from_driver_untouched (a b : DB) (e : error) :
  untouched a b -> from_driver b e -> from_driver a e.
Proof. intros [_ H] [n Hn]. exists n. congruence. Qed.

(** A call to the driver leaves the committed tables alone, and its error
    is the one the fault plan holds. *)
Lemma driver_call_spec (db : DB) :
  untouched db (fst (driver_call db)) /\
  forall e, snd (driver_call db) = Err e -> from_driver db e.
Proof.
  unfold driver_call. destruct (faults db (calls db)) as [e|] eqn:F; simpl.
  - split; [split; reflexivity|]. intros e' [= <-]. now exists (calls db).
  - split; [split; reflexivity | discriminate].
Qed.

(** The shape of a statement on a transaction: one call to the driver,
    then a pure change of what is pending. *)
Lemma statement_spec {A : Type} (format : string) (k : UUID -> A) (db : DB) :
  match wrap_err format (do _ <- driver_call; do id <- fresh_uuid; ret (k id)) db with
  | (db', Ok a) => untouched db db' /\ exists id, a = k id
  | (db', Err e) =>
      untouched db db' /\ exists cause, from_driver db cause /\ e = ErrorfW format [] cause
  end.
Proof.
  unfold wrap_err, bind, fresh_uuid, ret.
  pose proof (driver_call_spec db) as [Hu He].
  destruct (driver_call db) as [db1 [[]|e]]; simpl in *.
  - split; [exact Hu | eauto].
  - split; [exact Hu|]. exists e. split; [apply He|]; reflexivity.
Qed.

Lemma store_attachments_spec (attachments : list AttachmentData.t) (tx : Tx)
    (emailID : UUID) (db : DB) :
  match store_attachments tx emailID attachments db with
  | (db', Ok tx') =>
      untouched db db' /\
      exists ids,
        length ids = length attachments /\
        pending tx' =
        {| addresses := addresses (pending tx);
           emails := emails (pending tx);
           email_recipients := email_recipients (pending tx);
           attachments :=
             database.attachments (pending tx) ++
             attachment_rows emailID ids attachments |}
  | (db', Err e) =>
      untouched db db' /\
      exists cause,
        from_driver db cause /\ e = ErrorfW "failed to insert attachment: %w" [] cause
  end.
Proof.
  revert tx db. induction attachments as [|att rest IH]; intros tx db.
  - simpl. split; [apply untouched_refl|]. exists []. split; [reflexivity|].
    simpl. rewrite app_nil_r. now destruct tx as [[]].
  - cbn [store_attachments]. unfold bind at 1. unfold tx_insert_attachment.
    pose proof (statement_spec "failed to insert attachment: %w"
      (fun id =>
         {| pending :=
              {| addresses := addresses (pending tx);
                 emails := emails (pending tx);
                 email_recipients := email_recipients (pending tx);
                 attachments :=
                   database.attachments (pending tx) ++
                   [{| att_id := id; att_email_id := emailID; att_cols := att |}] |} |})
      db) as H.
    destruct (wrap_err _ _ db) as [db1 [tx1|e]].
    + destruct H as [Hu [id ->]].
      match goal with
      | |- context [store_attachments ?t emailID rest db1] => specialize (IH t db1)
      end.
      destruct (store_attachments _ emailID rest db1) as [db2 [tx2|e]].
      * destruct IH as [Hu' (ids & Hl & Hp)]. split; [eapply untouched_trans; eauto|].
        exists (id :: ids). split; [simpl; now rewrite Hl|].
        rewrite Hp. simpl. now rewrite <- app_assoc.
      * destruct IH as [Hu' (cause & Hc & ->)]. split; [eapply untouched_trans; eauto|].
        exists cause. split; [eapply from_driver_untouched; eauto | reflexivity].
    + destruct H as [Hu (cause & Hc & ->)]. split; [exact Hu | eauto].
Qed.

Lemma getAddress_spec {P : Platform} (tx : Tx) (email : string) (db : DB) :
  match wrap_err "failed to get address: %w" (getAddress tx email) db with
  | (db', Ok addressID) =>
      untouched db db' /\
      exists address,
        find (fun a => String.eqb (addr_email a) (ToLower email)) (addresses (pending tx))
          = Some address /\
        addressID = addr_id address
  | (db', Err e) =>
      untouched db db' /\
      ((exists cause,
          from_driver db cause /\
          e = ErrorfW "failed to get address: %w" []
                (ErrorfW "failed to query address: %w" [] cause)) \/
       e = ErrorfW "failed to get address: %w" []
             (Errorf "address does not exist: %s" [ArgS (ToLower email)]))
  end.
Proof.
  unfold wrap_err, getAddress, tx_select_address_id, bind, ret.
  pose proof (driver_call_spec db) as [Hu He].
  destruct (driver_call db) as [db1 [[]|e]]; simpl in *.
  - destruct (find _ _) as [address|]; simpl.
    + split; [exact Hu | eauto].
    + split; [exact Hu | now right].
  - specialize (He e eq_refl).
    destruct e; simpl; (split; [exact Hu|]); try (left; eexists; split; [exact He|reflexivity]).
    now right.
Qed.

(** The statements between [Begin] and [Commit] change only what is
    pending; when one fails, the error is the wrapped error of that step. *)
Lemma StoreEmail_statements_spec {P : Platform} (tx : Tx) (email : EmailData.t)
    (attachments : list AttachmentData.t) (db : DB) :
  match StoreEmail_statements tx email attachments db with
  | (db', Ok (tx', addressID)) =>
      untouched db db' /\
      exists emailID linkID ids address,
        find (fun a => String.eqb (addr_email a) (ToLower (EmailData.ToAddr email)))
          (addresses (pending tx)) = Some address /\
        addressID = addr_id address /\
        length ids = length attachments /\
        pending tx' = with_message (pending tx) emailID linkID addressID email ids attachments
  | (db', Err e) =>
      untouched db db' /\
      (exists format cause, e = ErrorfW format [] cause) /\
      ((exists cause, from_driver db cause /\ wraps e cause) \/ e = no_mailbox email)
  end.
Proof.
  unfold StoreEmail_statements. unfold bind at 1. unfold tx_insert_email.
  pose proof (statement_spec "failed to insert email: %w"
    (fun id =>
       ({| pending :=
             {| addresses := addresses (pending tx);
                emails := emails (pending tx) ++ [{| email_id := id; email_cols := email |}];
                email_recipients := email_recipients (pending tx);
                attachments := database.attachments (pending tx) |} |}, id))
    db) as H1.
  destruct (wrap_err _ _ db) as [db1 [[tx1 emailID]|e]].
  2:{ destruct H1 as [Hu (cause & Hc & ->)]. split; [exact Hu|]. split; [eauto|].
      left. exists cause. split; [exact Hc | auto]. }
  destruct H1 as [Hu1 [id [= -> ->]]].
  unfold bind at 1.
  pose proof (getAddress_spec
    {| pending :=
         {| addresses := addresses (pending tx);
            emails := emails (pending tx) ++ [{| email_id := id; email_cols := email |}];
            email_recipients := email_recipients (pending tx);
            attachments := database.attachments (pending tx) |} |}
    (EmailData.ToAddr email) db1) as H2.
  destruct (wrap_err _ (getAddress _ _) db1) as [db2 [addressID|e]].
  2:{ destruct H2 as [Hu2 [(cause & Hc & ->)| ->]];
        (split; [eapply untouched_trans; eauto|]); (split; [eauto|]).
      - left. exists cause. split; [eapply from_driver_untouched; eauto | auto].
      - now right. }
  destruct H2 as [Hu2 (address & Hfind & ->)]. cbn [pending addresses] in Hfind.
  unfold bind at 1. unfold tx_insert_recipient.
  match goal with
  | |- context [wrap_err ?f (do _ <- driver_call; do i <- fresh_uuid; ret (@?k i)) db2] =>
      pose proof (statement_spec f k db2) as H3
  end.
  cbv beta in H3.
  destruct (wrap_err _ _ db2) as [db3 [tx2|e]].
  2:{ destruct H3 as [Hu3 (cause & Hc & ->)].
      split; [eauto using untouched_trans|]. split; [eauto|].
      left. exists cause. split; [|auto].
      eapply from_driver_untouched; [|exact Hc]. eauto using untouched_trans. }
  destruct H3 as [Hu3 [linkID ->]].
  unfold bind at 1.
  match goal with
  | |- context [store_attachments ?t ?i ?a ?d] =>
      pose proof (store_attachments_spec a t i d) as H4
  end.
  destruct (store_attachments _ _ _ db3) as [db4 [tx3|e]].
  2:{ destruct H4 as [Hu4 (cause & Hc & ->)].
      split; [eauto using untouched_trans|]. split; [eauto|].
      left. exists cause. split; [|auto].
      eapply from_driver_untouched; [|exact Hc]. eauto using untouched_trans. }
  destruct H4 as [Hu4 (ids & Hl & Hp)]. unfold ret.
  split; [eauto using untouched_trans|].
  exists id, linkID, ids, address. repeat split; try assumption.
Qed.

Lemma Begin_spec (db : DB) :
  match wrap_err "failed to begin transaction: %w" Begin db with
  | (db', Ok tx) => untouched db db' /\ pending tx = tables db
  | (db', Err e) =>
      untouched db db' /\
      exists cause,
        from_driver db cause /\ e = ErrorfW "failed to begin transaction: %w" [] cause
  end.
Proof.
  unfold wrap_err, Begin, bind.
  pose proof (driver_call_spec db) as [Hu He].
  destruct (driver_call db) as [db1 [[]|e]]; simpl in *.
  - split; [exact Hu | apply Hu].
  - split; [exact Hu | eauto].
Qed.

Lemma Commit_spec (tx : Tx) (db : DB) :
  match wrap_err "failed to commit transaction: %w" (Commit tx) db with
  | (db', Ok _) => tables db' = pending tx /\ faults db' = faults db
  | (db', Err e) =>
      untouched db db' /\
      exists cause,
        from_driver db cause /\ e = ErrorfW "failed to commit transaction: %w" [] cause
  end.
Proof.
  unfold wrap_err, Commit, bind.
  pose proof (driver_call_spec db) as [Hu He].
  destruct (driver_call db) as [db1 [[]|e]]; simpl in *.
  - split; [reflexivity | apply Hu].
  - split; [exact Hu | eauto].
Qed.

Lemma Rollback_untouched (tx : Tx) (db : DB) : untouched db (Rollback tx db).
Proof. unfold Rollback. apply driver_call_spec. Qed.

(** The two ways [StoreEmail] ends. *)
Lemma StoreEmail_outcome {P : Platform} (db : DB) (email : EmailData.t)
    (attachments : list AttachmentData.t) :
  faults (db_after (StoreEmail db email attachments)) = faults db /\
  match returned (StoreEmail db email attachments) with
  | Some err =>
      tables (db_after (StoreEmail db email attachments)) = tables db /\
      spawned (StoreEmail db email attachments) = None /\
      (exists format cause, err = ErrorfW format [] cause) /\
      ((exists cause, from_driver db cause /\ wraps err cause) \/ err = no_mailbox email)
  | None =>
      exists emailID linkID ids address,
        find (fun a => String.eqb (addr_email a) (ToLower (EmailData.ToAddr email)))
          (addresses (tables db)) = Some address /\
        length ids = length attachments /\
        spawned (StoreEmail db email attachments) = Some (addr_id address) /\
        tables (db_after (StoreEmail db email attachments)) =
        with_message (tables db) emailID linkID (addr_id address) email ids attachments
  end.
Proof.
  unfold StoreEmail.
  pose proof (Begin_spec db) as HB.
  destruct (wrap_err _ Begin db) as [db1 [tx|e]].
  2:{ destruct HB as [[Ht Hf] (cause & Hc & ->)]. cbn [db_after returned spawned].
      split; [exact Hf|]. split; [exact Ht|]. split; [reflexivity|]. split; [eauto|].
      left. exists cause. split; [exact Hc | auto]. }
  destruct HB as [Hu1 Hp].
  pose proof (StoreEmail_statements_spec tx email attachments db1) as HS.
  destruct (StoreEmail_statements tx email attachments db1) as [db2 [[tx3 addressID]|e]].
  2:{ destruct HS as [Hu2 [Hw Hc]]. cbn [db_after returned spawned].
      assert (Hu : untouched db (Rollback tx db2))
        by eauto using untouched_trans, Rollback_untouched.
      split; [apply Hu|]. split; [apply Hu|]. split; [reflexivity|]. split; [exact Hw|].
      destruct Hc as [(cause & Hc & Hwr)|Hc]; [left|now right].
      exists cause. split; [exact (from_driver_untouched _ _ _ Hu1 Hc) | exact Hwr]. }
  destruct HS as [Hu2 (emailID & linkID & ids & address & Hfind & -> & Hl & Hp3)].
  assert (Hu : untouched db db2) by eauto using untouched_trans.
  pose proof (Commit_spec tx3 db2) as HC.
  destruct (wrap_err _ (Commit tx3) db2) as [db3 [[]|e]]; cbn [db_after returned spawned].
  - destruct HC as [Ht Hf]. split; [rewrite Hf; apply Hu|].
    exists emailID, linkID, ids, address. rewrite <- Hp.
    repeat split; try assumption. now rewrite Ht, Hp3.
  - destruct HC as [Hu3 (cause & Hc & ->)].
    assert (Hu' : untouched db db3) by eauto using untouched_trans.
    split; [apply Hu'|]. split; [apply Hu'|]. split; [reflexivity|]. split; [eauto|].
    left. exists cause. split; [exact (from_driver_untouched _ _ _ Hu Hc) | auto].
Qed.

(** C2 (amended).  [StoreEmail] is atomic.  When it returns an error, the
    committed tables are what they were, no goroutine was started, and the
    error is not the error of the failed step itself but a new error that
    names the step: it wraps the error of the driver, except for a
    recipient without a mailbox, which is reported by a new error that
    wraps nothing of the driver.  When it returns nil, the tables hold
    exactly one more message, one more link from it to the mailbox of the
    lower-cased recipient, and one more attachment row per attachment, and
    the goroutine of that mailbox was started. *)
Theorem StoreEmail_atomic {P : Platform} (db : DB) (email : EmailData.t)
    (attachments : list AttachmentData.t) :
  faults (db_after (StoreEmail db email attachments)) = faults db /\
  match returned (StoreEmail db email attachments) with
  | Some err =>
      tables (db_after (StoreEmail db email attachments)) = tables db /\
      spawned (StoreEmail db email attachments) = None /\
      (exists format cause, err = ErrorfW format [] cause) /\
      ((exists cause, from_driver db cause /\ wraps err cause) \/ err = no_mailbox email)
  | None =>
      exists emailID linkID ids address,
        find (fun a => String.eqb (addr_email a) (ToLower (EmailData.ToAddr email)))
          (addresses (tables db)) = Some address /\
        length ids = length attachments /\
        spawned (StoreEmail db email attachments) = Some (addr_id address) /\
        tables (db_after (StoreEmail db email attachments)) =
        with_message (tables db) emailID linkID (addr_id address) email ids attachments
  end.
Proof. apply StoreEmail_outcome. Qed.

(** C2, refuted as stated: the caller does not receive the error of the
    failed step.  When the insert of the message fails in the driver, the
    returned error is a new one around it; when the recipient has no
    mailbox, the step fails with [sql.ErrNoRows] and the returned error
    does not even wrap it. *)
Lemma StoreEmail_changes_the_error :
  returned (StoreEmail (P := demo.platform)
              (demo.db_failing 1 (ErrDriver "connection reset"))
              (demo.email_to "alive@tempmail.example.com") [])
    = Some (ErrorfW "failed to insert email: %w" [] (ErrDriver "connection reset")) /\
  ErrorfW "failed to insert email: %w" [] (ErrDriver "connection reset")
    <> ErrDriver "connection reset" /\
  snd (tx_select_address_id {| pending := tables demo.db |} "ghost@tempmail.example.com"
         demo.db) = Err ErrNoRows /\
  returned (StoreEmail (P := demo.platform) demo.db
              (demo.email_to "ghost@tempmail.example.com") [])
    = Some (no_mailbox (P := demo.platform) (demo.email_to "ghost@tempmail.example.com")) /\
  ~ wraps (no_mailbox (P := demo.platform) (demo.email_to "ghost@tempmail.example.com"))
      ErrNoRows.
Proof.
  repeat split; try (vm_compute; reflexivity); try discriminate.
  unfold no_mailbox. simpl. intros [H|[H|[]]]; discriminate.
Qed.

(** Scenario S3 without the attachment: the message for
    [alive@tempmail.example.com] is stored with one link. *)
Example StoreEmail_alive :
  returned (StoreEmail (P := demo.platform) demo.db
              (demo.email_to "alive@tempmail.example.com") []) = None /\
  tables (db_after (StoreEmail (P := demo.platform) demo.db
                      (demo.email_to "alive@tempmail.example.com") [])) =
  with_message (tables demo.db) 100%N 101%N 1%N
    (demo.email_to "alive@tempmail.example.com") [] [].
Proof. vm_compute. auto. Qed.

End database_facts.

(* ===================================================================== *)
(** * database.go: EnforceEmailLimit *)
(* ===================================================================== *)

Module quota_facts.
Import database spec.

(** What the statement of [EnforceEmailLimit] gets from the server: the
    rows of the join, newest first by the column. *)
Lemma order_perm {S : Postgres} (l : list email_row) :
  Permutation (order_by_received_at_desc l) l.
Proof. apply ORDER_BY_rows. Qed.

Lemma order_sorted {S : Postgres} (l : list email_row) :
  StronglySorted not_older (order_by_received_at_desc l).
Proof. exact (ORDER_BY_descending of_EnforceEmailLimit l). Qed.

(** In a sorted list every row before a cut is not older than any row
    after it. *)
Lemma sorted_cut {S : Postgres} (n : nat) (l : list email_row) (k d : email_row) :
  StronglySorted not_older l ->
  In k (firstn n l) -> In d (skipn n l) -> not_older k d.
Proof.
  intros Hs. revert n. induction Hs as [|x rest Hs IH Hx]; intros n Hk Hd.
  - destruct n; contradiction.
  - destruct n as [|n]; [contradiction|]. simpl in Hk, Hd.
    destruct Hk as [<-|Hk]; [|eauto].
    rewrite List.Forall_forall in Hx. apply Hx.
    rewrite <- (firstn_skipn n rest). apply in_or_app. now right.
Qed.

Lemma id_in_spec (ids : list UUID) (id : UUID) : id_in ids id = true <-> In id ids.
Proof.
  unfold id_in. rewrite existsb_exists. split.
  - intros (x & Hx & E). apply N.eqb_eq in E. now subst.
  - intros H. exists id. split; [exact H | apply N.eqb_refl].
Qed.

Lemma filter_all_out {A : Type} (f : A -> bool) (l : list A) :
  (forall x, In x l -> f x = false) -> List.filter f l = [].
Proof.
  induction l as [|x l IH]; intros H; [reflexivity|]. simpl.
  rewrite (H x) by now left. apply IH. intros y Hy. apply H. now right.
Qed.

Lemma filter_all_in {A : Type} (f : A -> bool) (l : list A) :
  (forall x, In x l -> f x = true) -> List.filter f l = l.
Proof.
  induction l as [|x l IH]; intros H; [reflexivity|]. simpl.
  rewrite (H x) by now left. f_equal. apply IH. intros y Hy. apply H. now right.
Qed.

Lemma filter_length_le {A : Type} (f : A -> bool) (l : list A) :
  length (List.filter f l) <= length l.
Proof.
  induction l as [|x l IH]; simpl; [lia|]. destruct (f x); simpl; lia.
Qed.

Lemma filter_perm {A : Type} (f : A -> bool) (l l' : list A) :
  Permutation l l' -> Permutation (List.filter f l) (List.filter f l').
Proof.
  induction 1 as [|x l l' _ IH|x y l|l l' l'' _ IH1 _ IH2]; simpl.
  - reflexivity.
  - destruct (f x); [now constructor | exact IH].
  - destruct (f x), (f y); try reflexivity. apply perm_swap.
  - now transitivity (List.filter f l').
Qed.

(** The links of a message that stays all stay. *)
Lemma links_of_kept (ids : list UUID) (addressID : UUID) (e : email_row)
    (rs : list recipient_row) :
  id_in ids (email_id e) = false ->
  List.filter (fun er => (er_email_id er =? email_id e)%N && (er_address_id er =? addressID)%N)
    (List.filter (fun er => negb (id_in ids (er_email_id er))) rs) =
  List.filter (fun er => (er_email_id er =? email_id e)%N && (er_address_id er =? addressID)%N)
    rs.
Proof.
  intros E. induction rs as [|er l IH]; [reflexivity|]. cbn [List.filter].
  destruct ((er_email_id er =? email_id e)%N && (er_address_id er =? addressID)%N) eqn:M.
  - assert (K : negb (id_in ids (er_email_id er)) = true).
    { apply andb_true_iff in M as [M1 _]. apply N.eqb_eq in M1. now rewrite M1, E. }
    rewrite K. cbn [List.filter]. rewrite M. now f_equal.
  - destruct (negb (id_in ids (er_email_id er))); cbn [List.filter]; [rewrite M|]; exact IH.
Qed.

Lemma join_filter (ids : list UUID) (addressID : UUID) (es : list email_row)
    (rs : list recipient_row) :
  flat_map
    (fun e =>
       map (fun _ => e)
         (List.filter
            (fun er => (er_email_id er =? email_id e)%N && (er_address_id er =? addressID)%N)
            (List.filter (fun er => negb (id_in ids (er_email_id er))) rs)))
    (List.filter (fun e => negb (id_in ids (email_id e))) es) =
  List.filter (fun e => negb (id_in ids (email_id e)))
    (flat_map
       (fun e =>
          map (fun _ => e)
            (List.filter
               (fun er => (er_email_id er =? email_id e)%N && (er_address_id er =? addressID)%N)
               rs))
       es).
Proof.
  induction es as [|e rest IH]; [reflexivity|].
  cbn [List.filter flat_map]. rewrite List.filter_app, <- IH.
  destruct (id_in ids (email_id e)) eqn:E; cbn [negb flat_map].
  - rewrite (filter_all_out _ (map (fun _ => e) _)); [reflexivity|].
    intros x Hx. apply in_map_iff in Hx as (_ & <- & _). now rewrite E.
  - rewrite links_of_kept by exact E. f_equal. symmetry. apply filter_all_in.
    intros x Hx. apply in_map_iff in Hx as (_ & <- & _). now rewrite E.
Qed.

(** Deleting messages by identifier, with the cascade, filters the join. *)
Lemma joined_delete (t : Tables) (ids : list UUID) (addressID : UUID) :
  joined (delete_emails t ids) addressID =
  List.filter (fun e => negb (id_in ids (email_id e))) (joined t addressID).
Proof. unfold joined, delete_emails. cbn [emails email_recipients]. apply join_filter. Qed.

(** Rows with pairwise different [received_at] can be sorted in one way
    only. *)
Lemma sorted_unique {S : Postgres} (l1 l2 : list email_row) :
  Permutation l1 l2 ->
  StronglySorted not_older l1 -> StronglySorted not_older l2 ->
  NoDup (map received_at l1) ->
  l1 = l2.
Proof.
  revert l2. induction l1 as [|x r1 IH]; intros l2 Hp H1 H2 Hn.
  - apply Permutation_nil in Hp. now subst.
  - destruct l2 as [|y r2]; [now apply Permutation_sym, Permutation_nil in Hp|].
    inversion H1 as [|? ? S1 F1]; subst. inversion H2 as [|? ? S2 F2]; subst.
    cbn [map] in Hn. apply NoDup_cons in Hn as [Hx Hn'].
    assert (E : x = y).
    { assert (Hx2 : In x (y :: r2)) by (apply (Permutation_in _ Hp); now left).
      assert (Hy1 : In y (x :: r1))
        by (apply (Permutation_in _ (Permutation_sym Hp)); now left).
      destruct Hx2 as [->|Hx2]; [reflexivity|].
      destruct Hy1 as [->|Hy1]; [reflexivity|]. exfalso.
      rewrite List.Forall_forall in F1, F2.
      pose proof (F1 y Hy1) as A. pose proof (F2 x Hx2) as B. unfold not_older in A, B.
      apply Hx. apply list_elem_of_In.
      replace (received_at x) with (received_at y) by lia. now apply in_map. }
    subst y. f_equal. apply IH; try assumption.
    now apply Permutation_cons_inv in Hp.
Qed.

(** A statement that deletes the messages after the first [offset] rows
    of the join, for any order [sorted] in which it gets the rows. *)
Section Trimmed.
Context {S : Postgres}.
Variables (t : Tables) (addressID : UUID) (offset : nat) (sorted : list email_row).
Hypothesis sorted_rows : Permutation sorted (joined t addressID).
Hypothesis sorted_descending : StronglySorted not_older sorted.

Let ids : list UUID := map email_id (skipn offset sorted).
Let keep (e : email_row) : bool := negb (id_in ids (email_id e)).

(** What is left of the join is what is left of its first [offset] rows. *)
Lemma trimmed_perm :
  Permutation (joined (delete_emails t ids) addressID)
    (List.filter keep (firstn offset sorted)).
Proof.
  rewrite joined_delete. fold keep.
  transitivity (List.filter keep sorted).
  { apply filter_perm. symmetry. exact sorted_rows. }
  rewrite <- (firstn_skipn offset sorted) at 1. rewrite List.filter_app.
  rewrite (filter_all_out keep (skipn offset sorted)); [now rewrite app_nil_r|].
  intros x Hx. unfold keep. apply negb_false_iff, id_in_spec.
  unfold ids. now apply in_map.
Qed.

Lemma trimmed_length : length (joined (delete_emails t ids) addressID) <= offset.
Proof.
  rewrite (Permutation_length trimmed_perm).
  etransitivity; [apply filter_length_le|]. apply firstn_le_length.
Qed.

Lemma trimmed_in_first (k : email_row) :
  In k (joined (delete_emails t ids) addressID) -> In k (firstn offset sorted).
Proof.
  intros H. apply (Permutation_in _ trimmed_perm) in H. now apply filter_In in H.
Qed.

Lemma trimmed_not_older (k d : email_row) :
  In k (joined (delete_emails t ids) addressID) ->
  In d (skipn offset sorted) ->
  not_older k d.
Proof.
  intros Hk Hd. apply (sorted_cut offset sorted); [exact sorted_descending | | exact Hd].
  now apply trimmed_in_first.
Qed.

(** With one row per message in the join, the first [offset] rows all
    stay. *)
Lemma trimmed_exactly :
  NoDup (map email_id (joined t addressID)) ->
  Permutation (joined (delete_emails t ids) addressID) (firstn offset sorted).
Proof.
  intros Hnd. rewrite trimmed_perm. rewrite filter_all_in; [reflexivity|].
  intros x Hx. unfold keep. apply negb_true_iff.
  destruct (id_in ids (email_id x)) eqn:E; [|reflexivity]. exfalso.
  apply id_in_spec in E.
  assert (Hs : NoDup (map email_id sorted)).
  { apply (NoDup_Permutation_proper _ _ (Permutation_map email_id sorted_rows)).
    exact Hnd. }
  rewrite <- (firstn_skipn offset sorted), map_app in Hs.
  apply NoDup_app in Hs as (_ & Hdisj & _).
  apply (Hdisj (email_id x)); apply list_elem_of_In; [now apply in_map | exact E].
Qed.

End Trimmed.

(** The statement of [EnforceEmailLimit]. *)
Section Kept.
Context {S : Postgres}.
Variables (t : Tables) (addressID : UUID) (offset : nat).

Lemma kept_length :
  length (joined (delete_emails t (map email_id (excess t addressID offset))) addressID)
  <= offset.
Proof. apply trimmed_length, order_perm. Qed.

Lemma kept_in_first (k : email_row) :
  In k (joined (delete_emails t (map email_id (excess t addressID offset))) addressID) ->
  In k (firstn offset (order_by_received_at_desc (joined t addressID))).
Proof. apply trimmed_in_first, order_perm. Qed.

Lemma kept_not_older (k d : email_row) :
  In k (joined (delete_emails t (map email_id (excess t addressID offset))) addressID) ->
  In d (excess t addressID offset) ->
  not_older k d.
Proof. apply trimmed_not_older; [apply order_perm | apply order_sorted]. Qed.

Lemma kept_exactly :
  NoDup (map email_id (joined t addressID)) ->
  Permutation
    (joined (delete_emails t (map email_id (excess t addressID offset))) addressID)
    (firstn offset (order_by_received_at_desc (joined t addressID))).
Proof. apply trimmed_exactly, order_perm. Qed.

End Kept.

(** C6 (amended).  [EnforceEmailLimit] takes no cap: it trims the mailbox
    to [maxEmails], which is always 100.  The server hands the statement
    the rows of the join sorted by the column [received_at], newest first,
    with rows of equal [received_at] in an order of its choosing
    ([Postgres]); the theorem holds for every such order.  When the
    statement succeeds, at most 100 messages remain linked to the mailbox;
    every remaining message is among the first 100 rows of that order, and
    its [received_at] is not below that of any message of the deleted
    excess, which is the rest of that order; when each message has one link
    to the mailbox, the remaining messages are exactly those first 100.
    The messages of the excess are deleted with their links and
    attachments and nothing else is.  When the statement fails, the tables
    are unchanged and the error wraps the error of the driver. *)
Theorem EnforceEmailLimit_keeps_newest_100 {S : Postgres} (db : DB) (addressID : UUID) :
  maxEmails = 100 /\
  match snd (EnforceEmailLimit db addressID) with
  | Some err =>
      tables (fst (EnforceEmailLimit db addressID)) = tables db /\
      exists cause,
        from_driver db cause /\
        err = ErrorfW "failed to enforce email limit: %w" [] cause
  | None =>
      tables (fst (EnforceEmailLimit db addressID)) =
        delete_emails (tables db) (map email_id (excess (tables db) addressID 100)) /\
      length (joined (tables (fst (EnforceEmailLimit db addressID))) addressID) <= 100 /\
      (forall k,
         In k (joined (tables (fst (EnforceEmailLimit db addressID))) addressID) ->
         In k (firstn 100 (order_by_received_at_desc (joined (tables db) addressID))) /\
         forall d, In d (excess (tables db) addressID 100) ->
                   (received_at d <= received_at k)%Z) /\
      (NoDup (map email_id (joined (tables db) addressID)) ->
       Permutation (joined (tables (fst (EnforceEmailLimit db addressID))) addressID)
         (firstn 100 (order_by_received_at_desc (joined (tables db) addressID))))
  end.
Proof.
  split; [reflexivity|]. unfold EnforceEmailLimit.
  destruct (database_facts.driver_call_spec db) as [[Ht _] He].
  destruct (driver_call db) as [db1 [[]|e]]; cbn [fst snd tables] in *.
  - rewrite Ht. unfold maxEmails. split; [reflexivity|]. split; [apply kept_length|].
    split; [|apply kept_exactly].
    intros k Hk. split; [now apply kept_in_first|].
    intros d Hd. now apply (kept_not_older (tables db) addressID 100 k d).
  - split; [exact Ht|]. exists e. split; [now apply He | reflexivity].
Qed.

(** C6, refuted as stated: the cap is not a parameter.  In scenario S6 the
    configured quota is 3 and the mailbox holds the messages M1 to M5;
    [EnforceEmailLimit] succeeds and all five stay linked. *)
Lemma EnforceEmailLimit_ignores_configured_cap :
  Config.MaxEmailsPerAddress (Config.Tempmail demo.cfg) = 3%Z /\
  length (joined (tables (demo.db_with_messages 5)) 1%N) = 5 /\
  snd (EnforceEmailLimit (S := demo.postgres) (demo.db_with_messages 5) 1%N) = None /\
  length (joined (tables (fst (EnforceEmailLimit (S := demo.postgres)
                                 (demo.db_with_messages 5) 1%N))) 1%N) = 5.
Proof. vm_compute. auto. Qed.

(** [EnforceEmailLimit_keeps_newest_100] for a mailbox with the messages
    1 to 102: the 100 that remain are the messages 102 down to 3. *)
Lemma EnforceEmailLimit_keeps_newest_100_witness :
  Permutation
    (joined (tables (fst (EnforceEmailLimit (S := demo.postgres)
                            (demo.db_with_messages 102) 1%N))) 1%N)
    (firstn 100
       (order_by_received_at_desc (S := demo.postgres)
          (joined (tables (demo.db_with_messages 102)) 1%N))).
Proof.
  refine (proj2 (proj2 (proj2
    (proj2 (EnforceEmailLimit_keeps_newest_100 (S := demo.postgres)
              (demo.db_with_messages 102) 1%N)))) _).
  apply (@bool_decide_unpack _ (@NoDup_dec N _ _)). vm_compute. exact I.
Defined.

Example quota_102 :
  map email_id
    (joined (tables (fst (EnforceEmailLimit (S := demo.postgres)
                            (demo.db_with_messages 102) 1%N))) 1%N)
  = map (fun i => N.of_nat (1000 + i)) (seq 3 100).
Proof. vm_compute. reflexivity. Qed.

End quota_facts.

(* ===================================================================== *)
(** * session.go: DATA *)
(* ===================================================================== *)

Module session_facts.
Import strings database session spec.

Lemma with_ToAddr_again (e : EmailData.t) (a b : string) :
  with_ToAddr (with_ToAddr e a) b = with_ToAddr e b.
Proof. reflexivity. Qed.

(** The rows the loop of [Data] adds to [emails] are copies of the record,
    each with one of the recipients as [ToAddr]; the loop returns nil or
    the error ["error storing message"]. *)
Lemma store_for_each_rows {P : Platform} (recipients : list string) (db : DB) (e : EmailData.t)
    (attachments : list AttachmentData.t) (started : list UUID) :
  exists new,
    emails (tables (session.db_after (store_for_each db e attachments recipients started)))
      = (emails (tables db) ++ new)%list /\
    Forall (fun row => exists recipient,
              In recipient recipients /\ email_cols row = with_ToAddr e recipient) new /\
    (session.returned (store_for_each db e attachments recipients started) = None \/
     session.returned (store_for_each db e attachments recipients started)
       = Some (Errorf "error storing message" [])).
Proof.
  revert db e started. induction recipients as [|recipient rest IH]; intros db e started.
  - exists []. simpl. rewrite app_nil_r. auto.
  - cbn [store_for_each].
    pose proof (database_facts.StoreEmail_outcome db (with_ToAddr e recipient) attachments)
      as [_ H].
    destruct (database.returned (StoreEmail db (with_ToAddr e recipient) attachments))
      as [err|].
    + destruct H as (Ht & _). exists []. cbn [session.db_after session.returned].
      rewrite Ht, app_nil_r. auto.
    + destruct H as (emailID & linkID & ids & address & _ & _ & _ & Ht).
      destruct (IH (database.db_after (StoreEmail db (with_ToAddr e recipient) attachments))
                  (with_ToAddr e recipient)
                  (started ++ match database.spawned
                                      (StoreEmail db (with_ToAddr e recipient) attachments)
                              with Some a => [a] | None => [] end)%list)
        as (new & Hnew & Hall & Hret).
      exists ({| email_id := emailID; email_cols := with_ToAddr e recipient |} :: new).
      split; [|split; [|exact Hret]].
      * rewrite Hnew, Ht. unfold with_message. cbn [emails]. now rewrite <- app_assoc.
      * constructor.
        -- exists recipient. split; [now left | reflexivity].
        -- eapply Forall_impl; [exact Hall|]. intros row (r & Hr & ->).
           exists r. split; [now right | reflexivity].
Qed.

Section WithPlatform.
Context {P : Platform}.

(** The ways [Data] ends: before the loop, with an error and the tables
    as they were; or in the loop, on the record built from the envelope. *)
Lemma Data_cases (s : Session.t) (db : DB) (clock : Clock.t) (r : Reader.t)
    (d : delivered) :
  Data s db clock r = Some d ->
  (d = {| session.db_after := db; session.returned := session.returned d;
          session.spawned := [] |} /\
   In (session.returned d)
     [Some (Errorf "error reading message" []);
      Some (Errorf "message too large (max %d MB)"
              [ArgD (Config.MaxMsgSizeMB (Config.Server (Session.cfg s)))]);
      Some (Errorf "error processing message" [])]) \/
  (exists rawMessage size envelope e attachments,
     ReadFrom_LimitReader r (Config.GetMaxMessageSize (Session.cfg s))
       = (rawMessage, size, None) /\
     (size < Config.GetMaxMessageSize (Session.cfg s))%Z /\
     enmime_ReadEnvelope rawMessage = Ok envelope /\
     Data_record s envelope rawMessage size clock = Some (e, attachments) /\
     d = store_for_each db e attachments (Session.to s) []).
Proof.
  unfold Data.
  destruct (ReadFrom_LimitReader r _) as [[rawMessage size] [err|]] eqn:R.
  { intros [= <-]. left. simpl. auto. }
  destruct (size >=? _)%Z eqn:E.
  { intros [= <-]. left. simpl. auto. }
  destruct (enmime_ReadEnvelope rawMessage) as [envelope|err] eqn:Env.
  2:{ intros [= <-]. left. simpl. auto. }
  destruct (Data_record s envelope rawMessage size clock) as [[e attachments]|] eqn:D;
    [|discriminate].
  intros [= <-]. right. exists rawMessage, size, envelope, e, attachments.
  repeat split; try assumption. rewrite Z.geb_leb in E. apply Z.leb_gt in E. exact E.
Qed.

(** The verdicts and the bodies of the record [Data] builds. *)
Lemma Data_record_fields (s : Session.t) (envelope : Envelope.t) (rawMessage : bytes)
    (size : Z) (clock : Clock.t) (e : EmailData.t) (attachments : list AttachmentData.t) :
  Data_record s envelope rawMessage size clock = Some (e, attachments) ->
  EmailData.BodyPlain e
    = EmailData.BodyPlain (extractEmailData s envelope rawMessage size clock) /\
  EmailData.BodyHTML e = Envelope.HTML envelope /\
  EmailData.ReceivedAt e = Clock.now_ReceivedAt clock /\
  match Session.validator s with
  | None =>
      EmailData.DKIMValid e = None /\ EmailData.SPFResult e = "" /\
      EmailData.DMARCResult e = ""
  | Some v =>
      In (EmailData.SPFResult e) spf_values /\ In (EmailData.DMARCResult e) dmarc_values
  end.
Proof.
  unfold Data_record. destruct (Session.validator s) as [v|].
  - destruct (validation_facts.ValidateEmail_values v rawMessage (Session.from s)
                (getClientIP s) (Session.hostname s)) as (res & -> & Hs & Hd).
    intros [= <- _]. repeat split; try reflexivity; assumption.
  - intros [= <- _]. repeat split; reflexivity.
Qed.

(** What [buf.ReadFrom] reports through the limited reader. *)
Lemma ReadFrom_LimitReader_size (r : Reader.t) (n : Z) :
  let '(rawMessage, size, err) := ReadFrom_LimitReader r n in
  size = Z.of_nat (length rawMessage) /\
  (size <= Z.max 0 n)%Z /\
  ((n <= Z.of_nat (length (Reader.content r)))%Z ->
   size = Z.max 0 n /\ err = None) /\
  ((Z.of_nat (length (Reader.content r)) < n)%Z ->
   rawMessage = Reader.content r /\ err = Reader.failure r).
Proof.
  unfold ReadFrom_LimitReader.
  destruct (length (Reader.content r) <? Z.to_nat n)%nat eqn:E.
  - apply Nat.ltb_lt in E. repeat split; try lia.
  - apply Nat.ltb_ge in E. rewrite length_firstn.
    repeat split; try lia.
Qed.

(** X1.  The size test of [Data]: the message is refused as too large exactly
    when it has [GetMaxMessageSize()] bytes or more. *)
Lemma Data_too_large (s : Session.t) (db : DB) (clock : Clock.t) (r : Reader.t) :
  (session.Data s db clock r =
   Some {| session.db_after := db;
           session.returned :=
             Some (Errorf "message too large (max %d MB)"
                     [ArgD (Config.MaxMsgSizeMB (Config.Server (Session.cfg s)))]);
           session.spawned := [] |})
  <->
  (Config.GetMaxMessageSize (Session.cfg s) <= Z.of_nat (length (Reader.content r)))%Z.
Proof.
  pose proof (ReadFrom_LimitReader_size r (Config.GetMaxMessageSize (Session.cfg s))) as H.
  unfold Data.
  destruct (ReadFrom_LimitReader r _) as [[rawMessage size] err].
  destruct H as (Hsize & Hle & Hbig & Hsmall).
  destruct (Z_le_gt_dec (Config.GetMaxMessageSize (Session.cfg s))
              (Z.of_nat (length (Reader.content r)))) as [L|G].
  - destruct (Hbig L) as [-> ->].
    replace (Z.max 0 _ >=? _)%Z with true by (symmetry; apply Z.geb_le; lia).
    tauto.
  - split; [|lia]. intros H. exfalso.
    destruct (Hsmall ltac:(lia)) as [-> ->]. subst size.
    destruct (Reader.failure r); [discriminate|].
    replace (_ >=? _)%Z with false in H by (symmetry; rewrite Z.geb_leb; apply Z.leb_gt; lia).
    destruct (enmime_ReadEnvelope _); [|discriminate].
    destruct (Data_record _ _ _ _ _) as [[e attachments]|]; [|discriminate].
    injection H as H.
    destruct (store_for_each_rows (Session.to s) db e attachments [])
      as (_ & _ & _ & [Hr|Hr]); rewrite H in Hr; discriminate.
Qed.

(** C8 (amended).  [extractEmailData] substitutes the placeholder only for
    an empty plain body beside a non-empty HTML body; when both bodies are
    empty the plain body stays the empty string, and a non-empty plain body
    is kept.  Every message [Data] stores carries this plain body in its
    [body_plain] column. *)
Theorem stored_BodyPlain (s : Session.t) (db : DB) (clock : Clock.t) (r : Reader.t)
    (d : delivered) :
  session.Data s db clock r = Some d ->
  exists new,
    emails (tables (session.db_after d)) = (emails (tables db) ++ new)%list /\
    (new = [] \/
     exists envelope,
       enmime_ReadEnvelope
         (fst (fst (ReadFrom_LimitReader r (Config.GetMaxMessageSize (Session.cfg s)))))
         = Ok envelope /\
       Forall
         (fun row =>
            (Envelope.Text envelope <> "" ->
             EmailData.BodyPlain (email_cols row) = Envelope.Text envelope) /\
            (Envelope.Text envelope = "" -> Envelope.HTML envelope <> "" ->
             EmailData.BodyPlain (email_cols row)
               = "[HTML email - plain text not provided]") /\
            (Envelope.Text envelope = "" -> Envelope.HTML envelope = "" ->
             EmailData.BodyPlain (email_cols row) = ""))
         new).
Proof.
  intros H. apply Data_cases in H as [[-> _]|H].
  - exists []. cbn [session.db_after]. rewrite app_nil_r. auto.
  - destruct H as (rawMessage & size & envelope & e & attachments & HR & _ & HE & HD & ->).
    destruct (store_for_each_rows (Session.to s) db e attachments [])
      as (new & Hnew & Hall & _).
    exists new. split; [exact Hnew|]. right. exists envelope. rewrite HR. split; [exact HE|].
    apply Data_record_fields in HD as (Hb & _).
    eapply Forall_impl; [exact Hall|]. intros row (recipient & _ & ->).
    change (EmailData.BodyPlain (with_ToAddr e recipient)) with (EmailData.BodyPlain e).
    rewrite Hb. cbn [extractEmailData EmailData.BodyPlain].
    destruct (String.eqb (Envelope.Text envelope) "") eqn:T.
    + apply String.eqb_eq in T.
      destruct (String.eqb (Envelope.HTML envelope) "") eqn:Hh.
      * apply String.eqb_eq in Hh. cbn [negb andb]. repeat split; congruence.
      * apply String.eqb_neq in Hh. cbn [negb andb]. repeat split; congruence.
    + apply String.eqb_neq in T. cbn [andb]. repeat split; congruence.
Qed.

(** C9 (amended).  [extractEmailData] computes a sent date, the parsed
    [Date:] header or the reading of the clock when the header is absent,
    does not parse or parses to the zero time, and then drops it: the
    record it returns has no field for it.  The record is the same whatever
    the header parses to and whatever the substituted reading is; its only
    instant is [ReceivedAt], the reading of the clock taken for it. *)
Theorem extractEmailData_drops_dateSent (s : Session.t) (envelope : Envelope.t)
    (rawMessage : bytes) (size : Z) (clock : Clock.t) :
  (Envelope.GetHeader envelope "Date" = "" ->
   dateSent_of envelope clock = Clock.now_dateSent clock) /\
  (forall err, mail_ParseDate (Envelope.GetHeader envelope "Date") = Err err ->
   dateSent_of envelope clock = Clock.now_dateSent clock) /\
  (forall t, Envelope.GetHeader envelope "Date" <> "" ->
   mail_ParseDate (Envelope.GetHeader envelope "Date") = Ok t -> t <> zero_time ->
   dateSent_of envelope clock = t) /\
  (forall (P' : Platform) (reading : GoTime),
     extractEmailData (P := P') s envelope rawMessage size
       {| Clock.now_dateSent := reading;
          Clock.now_ReceivedAt := Clock.now_ReceivedAt clock |}
     = extractEmailData s envelope rawMessage size clock) /\
  EmailData.ReceivedAt (extractEmailData s envelope rawMessage size clock)
    = Clock.now_ReceivedAt clock.
Proof.
  unfold dateSent_of. repeat split.
  - intros ->. reflexivity.
  - intros err ->. now destruct (negb _).
  - intros t Hd -> Hz. apply String.eqb_neq in Hd. rewrite Hd. cbn [negb].
    unfold IsZero. apply Z.eqb_neq in Hz. now rewrite Hz.
Qed.

(** X2.  [Data] always returns, and the verdicts of the messages it stores
    depend on the validator alone: with a validator they lie in the value
    sets of the specification; without one the DKIM verdict is null and
    the SPF and DMARC verdicts are the empty string. *)
Theorem stored_verdicts (s : Session.t) (db : DB) (clock : Clock.t) (r : Reader.t) :
  exists d new,
    session.Data s db clock r = Some d /\
    emails (tables (session.db_after d)) = (emails (tables db) ++ new)%list /\
    Forall
      (fun row =>
         match Session.validator s with
         | Some _ =>
             In (EmailData.SPFResult (email_cols row)) spf_values /\
             In (EmailData.DMARCResult (email_cols row)) dmarc_values
         | None =>
             EmailData.DKIMValid (email_cols row) = None /\
             EmailData.SPFResult (email_cols row) = "" /\
             EmailData.DMARCResult (email_cols row) = ""
         end)
      new.
Proof.
  assert (Hd : exists d, session.Data s db clock r = Some d).
  { unfold Data. destruct (ReadFrom_LimitReader r _) as [[rawMessage size] [err|]]; [eauto|].
    destruct (size >=? _)%Z; [eauto|].
    destruct (enmime_ReadEnvelope rawMessage) as [envelope|err]; [|eauto].
    unfold Data_record. destruct (Session.validator s) as [v|]; [|eauto].
    destruct (validation_facts.ValidateEmail_values v rawMessage (Session.from s)
                (getClientIP s) (Session.hostname s)) as (res & -> & _). eauto. }
  destruct Hd as [d Hd]. exists d.
  destruct (Data_cases s db clock r d Hd) as [[Hdb _]|H].
  - exists []. split; [exact Hd|]. rewrite Hdb. cbn [session.db_after].
    rewrite app_nil_r. auto.
  - destruct H as (rawMessage & size & envelope & e & attachments & _ & _ & _ & HD & ->).
    destruct (store_for_each_rows (Session.to s) db e attachments [])
      as (new & Hnew & Hall & _).
    exists new. split; [exact Hd|]. split; [exact Hnew|].
    apply Data_record_fields in HD as (_ & _ & _ & Hv).
    eapply Forall_impl; [exact Hall|]. intros row (recipient & _ & ->).
    exact Hv.
Qed.

End WithPlatform.

(** C5, at the failing input: with the three checks off [NewSMTPServer]
    creates no validator, and the message [Data] stores for
    [alive@tempmail.example.com] has the empty string in [spf_result] and
    in [dmarc_result], which is in neither value set. *)
Theorem Data_without_validator_stores_empty_verdicts :
  server.new_validator demo.cfg = None /\
  option_map
    (fun d =>
       (session.returned d,
        map (fun row =>
               (EmailData.DKIMValid (email_cols row),
                EmailData.SPFResult (email_cols row),
                EmailData.DMARCResult (email_cols row)))
          (emails (tables (session.db_after d)))))
    (session.Data (P := demo.platform) demo.sess_alive demo.db demo.clock
       (demo.reader demo.raw_hello))
  = Some (None, [(None, "", "")]) /\
  ~ In "" spf_values /\ ~ In "" dmarc_values.
Proof.
  split; [reflexivity|]. split; [vm_compute; reflexivity|].
  unfold spf_values, dmarc_values. simpl. split; intuition discriminate.
Qed.

(** The same message with the three checks on: the stored verdicts are in
    the value sets. *)
Example Data_with_validator :
  option_map
    (fun d =>
       map (fun row =>
              (EmailData.DKIMValid (email_cols row),
               EmailData.SPFResult (email_cols row),
               EmailData.DMARCResult (email_cols row)))
         (emails (tables (session.db_after d))))
    (session.Data (P := demo.platform) demo.sess_checked demo.db demo.clock
       (demo.reader demo.raw_hello))
  = Some [(Some false, "pass", "pass")].
Proof. vm_compute. reflexivity. Qed.

(** C7, at the failing input: with [max_message_size_mb = 1] a message of
    exactly 1048576 bytes, which does not exceed the limit, is refused as
    too large; a message of 1048575 bytes passes the size test. *)
Theorem Data_rejects_message_of_max_size :
  Config.GetMaxMessageSize (Session.cfg demo.sess_alive) = 1048576%Z /\
  Z.of_nat (length (repeat Byte.x78 (Z.to_nat 1048576))) = 1048576%Z /\
  session.Data (P := demo.platform) demo.sess_alive demo.db demo.clock
    (demo.reader (repeat Byte.x78 (Z.to_nat 1048576)))
  = Some {| session.db_after := demo.db;
            session.returned := Some (Errorf "message too large (max %d MB)" [ArgD 1]);
            session.spawned := [] |} /\
  option_map session.returned
    (session.Data (P := demo.platform) demo.sess_alive demo.db demo.clock
       (demo.reader (repeat Byte.x78 (Z.to_nat 1048575))))
  = Some (Some (Errorf "error processing message" [])).
Proof.
  split; [reflexivity|]. split; [vm_compute; reflexivity|].
  split; vm_compute; reflexivity.
Qed.

(** C8, refuted as stated: a message whose plain and HTML bodies are both
    empty is stored with the empty string as [body_plain]. *)
Lemma empty_bodies_stay_empty :
  Envelope.Text demo.envelope_empty = "" /\ Envelope.HTML demo.envelope_empty = "" /\
  enmime_ReadEnvelope (Platform := demo.platform) demo.raw_empty = Ok demo.envelope_empty /\
  option_map
    (fun d =>
       (session.returned d,
        map (fun row => EmailData.BodyPlain (email_cols row))
          (emails (tables (session.db_after d)))))
    (session.Data (P := demo.platform) demo.sess_alive demo.db demo.clock
       (demo.reader demo.raw_empty))
  = Some (None, [""]).
Proof. repeat split; vm_compute; reflexivity. Qed.

(** [stored_BodyPlain] for the message with two empty bodies. *)
Lemma stored_BodyPlain_witness :
  exists new,
    emails (tables (session.db_after
                      (store_for_each (P := demo.platform) demo.db
                         (with_ToAddr
                            (extractEmailData (P := demo.platform) demo.sess_alive
                               demo.envelope_empty demo.raw_empty 13 demo.clock)
                            "alive@tempmail.example.com")
                         [] ["alive@tempmail.example.com"] [])))
      = (emails (tables demo.db) ++ new)%list /\
    (new = [] \/
     exists envelope,
       enmime_ReadEnvelope (Platform := demo.platform)
         (fst (fst (ReadFrom_LimitReader (demo.reader demo.raw_empty)
                      (Config.GetMaxMessageSize (Session.cfg demo.sess_alive)))))
         = Ok envelope /\
       Forall
         (fun row =>
            (Envelope.Text envelope <> "" ->
             EmailData.BodyPlain (email_cols row) = Envelope.Text envelope) /\
            (Envelope.Text envelope = "" -> Envelope.HTML envelope <> "" ->
             EmailData.BodyPlain (email_cols row)
               = "[HTML email - plain text not provided]") /\
            (Envelope.Text envelope = "" -> Envelope.HTML envelope = "" ->
             EmailData.BodyPlain (email_cols row) = ""))
         new).
Proof.
  apply (stored_BodyPlain (P := demo.platform) demo.sess_alive demo.db demo.clock
           (demo.reader demo.raw_empty)).
  vm_compute. reflexivity.
Defined.

(** C9, refuted as stated: for a message dated noon on January 1, 2024 and
    received in October 2025, the sent date is computed but the record
    holds only the receive instant; and the record is the same on a
    platform where the header parses to another date, so no field of it
    can be the sent date. *)
Lemma record_has_no_sent_date :
  dateSent_of (P := demo.platform) demo.envelope_dated demo.clock = demo.noon /\
  EmailData.ReceivedAt
    (extractEmailData (P := demo.platform) demo.sess_alive demo.envelope_dated
       demo.raw_dated 44 demo.clock)
    = Clock.now_ReceivedAt demo.clock /\
  demo.noon <> Clock.now_ReceivedAt demo.clock /\
  dateSent_of (P := demo.platform_next_day) demo.envelope_dated demo.clock
    <> dateSent_of (P := demo.platform) demo.envelope_dated demo.clock /\
  extractEmailData (P := demo.platform_next_day) demo.sess_alive demo.envelope_dated
    demo.raw_dated 44 demo.clock
  = extractEmailData (P := demo.platform) demo.sess_alive demo.envelope_dated
      demo.raw_dated 44 demo.clock.
Proof.
  repeat split; try (vm_compute; reflexivity); vm_compute; discriminate.
Qed.

(** [extractEmailData_drops_dateSent] for the dated message. *)
Lemma extractEmailData_drops_dateSent_witness :
  dateSent_of (P := demo.platform) demo.envelope_dated demo.clock = demo.noon.
Proof.
  refine (proj1 (proj2 (proj2
    (extractEmailData_drops_dateSent (P := demo.platform) demo.sess_alive
       demo.envelope_dated demo.raw_dated 44 demo.clock))) demo.noon _ _ _).
  - discriminate.
  - reflexivity.
  - discriminate.
Defined.

End session_facts.

(* ===================================================================== *)
(** * More on the string functions *)
(* ===================================================================== *)

Module trim_facts.
Import strings strings_facts.

Lemma lower_byte_at (c : ascii) : Ascii.eqb (lower_byte c) "@" = Ascii.eqb c "@".
Proof. destruct c as [[] [] [] [] [] [] [] []]; reflexivity. Qed.

Lemma ContainsByte_lower_ascii_at (s : string) :
  ContainsByte (lower_ascii s) "@" = ContainsByte s "@".
Proof.
  induction s as [|c r IH]; simpl; [reflexivity|]. now rewrite lower_byte_at, IH.
Qed.

Lemma append_cons (c : ascii) (r b : string) : String c r +:+ b = String c (r +:+ b).
Proof. reflexivity. Qed.

Lemma append_nil_l (b : string) : "" +:+ b = b.
Proof. reflexivity. Qed.

Ltac unfold_append := rewrite ?append_cons, ?append_nil_l.

Lemma lower_ascii_app (a b : string) :
  lower_ascii (a +:+ b) = lower_ascii a +:+ lower_ascii b.
Proof.
  induction a as [|c r IH]; unfold_append; simpl; unfold_append; [reflexivity | now rewrite IH].
Qed.

Lemma isASCII_app (a b : string) : isASCII (a +:+ b) = isASCII a && isASCII b.
Proof.
  induction a as [|c r IH]; unfold_append; simpl; [reflexivity|].
  now rewrite IH, andb_assoc.
Qed.

Lemma has_upper_app (a b : string) : has_upper (a +:+ b) = has_upper a || has_upper b.
Proof.
  induction a as [|c r IH]; unfold_append; simpl; [reflexivity|]. now rewrite IH, orb_assoc.
Qed.

Lemma ContainsByte_app (a b : string) (c : ascii) :
  ContainsByte (a +:+ b) c = ContainsByte a c || ContainsByte b c.
Proof.
  induction a as [|d r IH]; unfold_append; simpl; [reflexivity|]. now rewrite IH, orb_assoc.
Qed.

(** The pieces of a split hold no separator. *)
Lemma Split_pieces (s : string) (sep : ascii) (p : string) :
  In p (Split s sep) -> ContainsByte p sep = false.
Proof.
  revert p. induction s as [|c r IH]; intros p; simpl.
  - intros [<-|[]]. reflexivity.
  - destruct (Ascii.eqb c sep) eqn:E.
    + intros [<-|H]; [reflexivity | now apply IH].
    + destruct (Split r sep) as [|q qs] eqn:S.
      * intros [<-|[]]. simpl. now rewrite E.
      * intros [<-|H].
        -- simpl. rewrite E. apply IH. now left.
        -- apply IH. now right.
Qed.

Lemma append_nil_r (s : string) : s +:+ "" = s.
Proof. induction s as [|c r IH]; unfold_append; [reflexivity | now rewrite IH]. Qed.

Lemma append_assoc (a b c : string) : (a +:+ b) +:+ c = a +:+ (b +:+ c).
Proof. induction a as [|d r IH]; unfold_append; [reflexivity | now rewrite IH]. Qed.

Lemma rev_append_spec (s acc : string) : rev_append s acc = reverse s +:+ acc.
Proof.
  unfold reverse. revert acc. induction s as [|c r IH]; intros acc; simpl; [reflexivity|].
  rewrite IH, (IH (String c "")), append_assoc. reflexivity.
Qed.

Lemma reverse_cons (c : ascii) (s : string) : reverse (String c s) = reverse s +:+ String c "".
Proof. unfold reverse at 1. simpl. apply rev_append_spec. Qed.

Lemma reverse_app (a b : string) : reverse (a +:+ b) = reverse b +:+ reverse a.
Proof.
  induction a as [|c r IH]; unfold_append.
  - now rewrite append_nil_r.
  - now rewrite !reverse_cons, IH, append_assoc.
Qed.

Lemma reverse_involutive (s : string) : reverse (reverse s) = s.
Proof.
  induction s as [|c r IH]; [reflexivity|].
  now rewrite reverse_cons, reverse_app, IH.
Qed.

Lemma ContainsByte_reverse (s : string) (c : ascii) :
  ContainsByte (reverse s) c = ContainsByte s c.
Proof.
  induction s as [|d r IH]; [reflexivity|].
  rewrite reverse_cons, ContainsByte_app, IH. simpl.
  now rewrite orb_false_r, orb_comm.
Qed.

(** A string without angle brackets is its own trimmed form. *)
Lemma TrimLeft_free (s : string) :
  ContainsByte s "<" = false -> ContainsByte s ">" = false -> TrimLeft s "<>" = s.
Proof.
  destruct s as [|c r]; [reflexivity|]. simpl.
  intros H1 H2. apply orb_false_iff in H1 as [-> _], H2 as [-> _]. reflexivity.
Qed.

Lemma Trim_free (s : string) :
  ContainsByte s "<" = false -> ContainsByte s ">" = false -> Trim s "<>" = s.
Proof.
  intros H1 H2. unfold Trim, TrimRight. rewrite (TrimLeft_free s H1 H2).
  rewrite TrimLeft_free by now rewrite ContainsByte_reverse.
  apply reverse_involutive.
Qed.

(** One pair of angle brackets around a non-empty string without brackets
    is trimmed away. *)
Lemma Trim_bracketed (s : string) :
  s <> "" -> ContainsByte s "<" = false -> ContainsByte s ">" = false ->
  Trim ("<" +:+ s +:+ ">") "<>" = s.
Proof.
  intros Hs H1 H2. unfold Trim, TrimRight.
  assert (L : TrimLeft ("<" +:+ s +:+ ">") "<>" = s +:+ ">").
  { destruct s as [|c r]; [contradiction|]. unfold_append. simpl in *.
    apply orb_false_iff in H1 as [-> _], H2 as [-> _]. reflexivity. }
  rewrite L, reverse_app. change (reverse ">") with ">". unfold_append.
  change (TrimLeft (String ">" (reverse s)) "<>") with (TrimLeft (reverse s) "<>").
  rewrite TrimLeft_free by now rewrite ContainsByte_reverse.
  apply reverse_involutive.
Qed.

End trim_facts.

(* ===================================================================== *)
(** * validation.go: the sender domain and the composition of the checks *)
(* ===================================================================== *)

Module sender_facts.
Import strings strings_facts trim_facts validation.

(** X3.  For an address written in ASCII, [extractDomain] returns an ASCII
    string in lower case without [@]: the empty string, or the lower-cased
    second piece of the address.  Lower-casing it again changes nothing. *)
Theorem extractDomain_lowercase {P : Platform} (email : string) :
  isASCII email = true ->
  has_upper (extractDomain email) = false /\
  ContainsByte (extractDomain email) "@" = false /\
  isASCII (extractDomain email) = true /\
  ToLower (extractDomain email) = extractDomain email.
Proof.
  intros Hascii. unfold extractDomain.
  destruct (Split (Trim email "<>") "@") as [|a [|b [|c l]]] eqn:S;
    cbn [length Nat.eqb nth]; try (repeat split; reflexivity).
  assert (Hb : isASCII b = true).
  { apply (isASCII_Split (Trim email "<>") "@"); [now apply isASCII_Trim|].
    rewrite S. simpl. auto. }
  split; [now apply ToLower_no_upper|].
  split; [|split; [now apply ToLower_isASCII | now apply ToLower_idem]].
  rewrite (ToLower_ascii b Hb), ContainsByte_lower_ascii_at.
  apply (Split_pieces (Trim email "<>")). rewrite S. simpl. auto.
Qed.

(** [extractDomain_lowercase] for an address in angle brackets. *)
Lemma extractDomain_lowercase_witness :
  has_upper (extractDomain (P := demo.platform) "<Bob@Example.ORG>") = false /\
  ContainsByte (extractDomain (P := demo.platform) "<Bob@Example.ORG>") "@" = false /\
  isASCII (extractDomain (P := demo.platform) "<Bob@Example.ORG>") = true /\
  ToLower (P := demo.platform) (extractDomain (P := demo.platform) "<Bob@Example.ORG>")
  = extractDomain (P := demo.platform) "<Bob@Example.ORG>".
Proof.
  apply (extractDomain_lowercase (P := demo.platform) "<Bob@Example.ORG>"). reflexivity.
Defined.

(** X4.  The domain of [local@domain] and of [<local@domain>] is [domain] in
    lower case, when neither part holds an [@] or an angle bracket. *)
Theorem extractDomain_of_address {P : Platform} (local domain : string) :
  ContainsByte local "@" = false -> ContainsByte domain "@" = false ->
  ContainsByte local "<" = false -> ContainsByte domain "<" = false ->
  ContainsByte local ">" = false -> ContainsByte domain ">" = false ->
  extractDomain (local +:+ "@" +:+ domain) = ToLower domain /\
  extractDomain ("<" +:+ local +:+ "@" +:+ domain +:+ ">") = ToLower domain.
Proof.
  intros La Da Ll Dl Lg Dg.
  assert (S : Split (local +:+ "@" +:+ domain) "@" = [local; domain])
    by (apply Split_two; auto).
  assert (F1 : ContainsByte (local +:+ "@" +:+ domain) "<" = false).
  { rewrite ContainsByte_app, Ll. unfold_append. simpl. exact Dl. }
  assert (F2 : ContainsByte (local +:+ "@" +:+ domain) ">" = false).
  { rewrite ContainsByte_app, Lg. unfold_append. simpl. exact Dg. }
  split.
  - unfold extractDomain. now rewrite Trim_free, S by assumption.
  - unfold extractDomain.
    replace ("<" +:+ local +:+ "@" +:+ domain +:+ ">")
      with ("<" +:+ (local +:+ "@" +:+ domain) +:+ ">").
    2:{ unfold_append. f_equal. rewrite append_assoc. reflexivity. }
    rewrite Trim_bracketed, S; try assumption; [reflexivity|].
    destruct local; unfold_append; discriminate.
Qed.

Lemma extractDomain_of_address_witness :
  extractDomain (P := demo.platform) ("Bob" +:+ "@" +:+ "Example.ORG")
  = ToLower (P := demo.platform) "Example.ORG" /\
  extractDomain (P := demo.platform) ("<" +:+ "Bob" +:+ "@" +:+ "Example.ORG" +:+ ">")
  = ToLower (P := demo.platform) "Example.ORG".
Proof.
  apply (extractDomain_of_address (P := demo.platform) "Bob" "Example.ORG"); reflexivity.
Defined.

Section WithPlatform.
Context {P : Platform}.


End WithPlatform.



(** X6.  The scan stops at the first [a], [+a], [-all], [~all] or [?all] that
    no matching address precedes: the mechanisms after it are never
    read. *)
Theorem scan_stops_at_terminal {P : Platform} (ip : IP) (before after : list string) :
  Forall
    (fun terminal =>
       scan_mechanisms ip (before ++ terminal :: after)
       = scan_mechanisms ip (before ++ [terminal]))
    ["a"; "+a"; "-all"; "~all"; "?all"].
Proof.
  repeat constructor;
    (induction before as [|mech rest IH]; [reflexivity|]; cbn [app scan_mechanisms];
     rewrite IH; reflexivity).
Qed.

(** X7.  [ValidateEmail] always returns.  A DMARC verdict ["pass"] needs the
    DMARC check switched on and, from the same call, an SPF verdict
    ["pass"] or a valid DKIM signature; a check that is switched off
    contributes its default (no DKIM verdict, SPF ["none"], DMARC
    ["none"]), so with the SPF and DKIM checks off DMARC never passes. *)
Theorem ValidateEmail_dmarc_pass_needs_spf_or_dkim {P : Platform} (v : Validator)
    (rawMessage : bytes) (from clientIP heloName : string) :
  exists r,
    ValidateEmail v rawMessage from clientIP heloName = Some r /\
    (DMARCResult r = "pass" ->
     Config.CheckDMARC (Config.Validation (cfg v)) = true /\
     (Config.CheckSPF (Config.Validation (cfg v)) = true /\ SPFResult r = "pass" \/
      Config.CheckDKIM (Config.Validation (cfg v)) = true /\ DKIMValid r = Some true)) /\
    (Config.CheckDKIM (Config.Validation (cfg v)) = false -> DKIMValid r = None) /\
    (Config.CheckSPF (Config.Validation (cfg v)) = false -> SPFResult r = "none") /\
    (Config.CheckDMARC (Config.Validation (cfg v)) = false -> DMARCResult r = "none") /\
    (Config.CheckSPF (Config.Validation (cfg v)) = false ->
     Config.CheckDKIM (Config.Validation (cfg v)) = false ->
     DMARCResult r <> "pass").
Proof.
  assert (D : forall domain spf dkim,
             validateDMARC v domain spf dkim = "pass" ->
             spf = "pass" \/ dkim = Some true).
  { intros domain spf dkim. unfold validateDMARC.
    destruct (String.eqb domain ""); [discriminate|].
    destruct (lookupDMARCRecord domain); [|discriminate].
    destruct (String.eqb spf "pass") eqn:E.
    - apply String.eqb_eq in E. auto.
    - destruct dkim as [[|]|]; simpl; auto; discriminate. }
  unfold ValidateEmail.
  destruct (Config.CheckSPF _) eqn:Cs.
  - destruct (validation_facts.validateSPF_returns v clientIP heloName from)
      as (verdict & -> & _).
    eexists. split; [reflexivity|]. cbn [DKIMValid SPFResult DMARCResult].
    destruct (Config.CheckDMARC _) eqn:Cm; destruct (Config.CheckDKIM _) eqn:Cd.
    all: split; [intros Hp; try discriminate Hp; apply D in Hp as [Hp|Hp];
                 try discriminate Hp; auto|].
    all: repeat (split; [intros; try reflexivity; discriminate|]).
    all: intros; discriminate.
  - eexists. split; [reflexivity|]. cbn [DKIMValid SPFResult DMARCResult].
    destruct (Config.CheckDMARC _) eqn:Cm; destruct (Config.CheckDKIM _) eqn:Cd.
    all: split; [intros Hp; try discriminate Hp; apply D in Hp as [Hp|Hp];
                 try discriminate Hp; auto|].
    all: repeat (split; [intros; try reflexivity; discriminate|]).
    all: intros _ Hd Hp; try discriminate Hd; try discriminate Hp.
    apply D in Hp as [Hp|Hp]; discriminate.
Qed.

End sender_facts.

(* ===================================================================== *)
(** * config.go: loading and the size limit *)
(* ===================================================================== *)

Module config_facts.
Import config_file.

Lemma or_default_Z (parsed default : Z) :
  default <> 0%Z ->
  or_default 0%Z parsed default (if (parsed =? 0)%Z then default else parsed).
Proof.
  intros Hd. unfold or_default. destruct (Z.eqb_spec parsed 0); repeat split; congruence.
Qed.

Lemma or_default_string (parsed default : string) :
  default <> "" ->
  or_default "" parsed default (if String.eqb parsed "" then default else parsed).
Proof.
  intros Hd. unfold or_default. destruct (String.eqb_spec parsed ""); repeat split; congruence.
Qed.

Section WithFiles.
Variable os_ReadFile : string -> result bytes.
Variable yaml_Unmarshal : bytes -> result t.

(** X8.  [LoadConfig] fails when the file cannot be read or parsed, when
    [database.url] is empty and when no domain is listed, in this order.
    Otherwise it returns the parsed configuration with the zero value of
    seven fields replaced by a default: the loaded configuration has a
    database URL, a domain, and none of these seven fields is zero; a value
    the file sets is kept, a negative number included; no other field is
    changed. *)
Theorem LoadConfig_checks_and_defaults (configPath : string) :
  match LoadConfig os_ReadFile yaml_Unmarshal configPath with
  | Err e =>
      (exists err,
         os_ReadFile configPath = Err err /\
         e = ErrorfW "failed to read config file: %w" [] err) \/
      (exists data err,
         os_ReadFile configPath = Ok data /\ yaml_Unmarshal data = Err err /\
         e = ErrorfW "failed to parse config file: %w" [] err) \/
      (exists data cfg,
         os_ReadFile configPath = Ok data /\ yaml_Unmarshal data = Ok cfg /\
         URL (Database cfg) = "" /\ e = Errorf "database.url is required" []) \/
      (exists data cfg,
         os_ReadFile configPath = Ok data /\ yaml_Unmarshal data = Ok cfg /\
         URL (Database cfg) <> "" /\ Config.Domains (base cfg) = [] /\
         e = Errorf "at least one domain is required" [])
  | Ok c =>
      exists data cfg,
        os_ReadFile configPath = Ok data /\ yaml_Unmarshal data = Ok cfg /\
        URL (Database c) = URL (Database cfg) /\ URL (Database c) <> "" /\
        Config.Domains (base c) = Config.Domains (base cfg) /\
        Config.Domains (base c) <> [] /\
        or_default 0%Z (Config.MXPort (Config.Server (base cfg))) 25%Z
          (Config.MXPort (Config.Server (base c))) /\
        or_default "" (Config.Hostname (Config.Server (base cfg))) "mail.tempmail.local"
          (Config.Hostname (Config.Server (base c))) /\
        or_default 0%Z (Config.MaxMsgSizeMB (Config.Server (base cfg))) 10%Z
          (Config.MaxMsgSizeMB (Config.Server (base c))) /\
        or_default 0%Z (PoolSize (Database cfg)) 10%Z (PoolSize (Database c)) /\
        or_default 0%Z (Config.MaxEmailsPerAddress (Config.Tempmail (base cfg))) 100%Z
          (Config.MaxEmailsPerAddress (Config.Tempmail (base c))) /\
        or_default "" (CertFile (TLS cfg)) "/config/certs/cert.pem" (CertFile (TLS c)) /\
        or_default "" (KeyFile (TLS cfg)) "/config/certs/key.pem" (KeyFile (TLS c)) /\
        Config.APIPort (Config.Server (base c)) = Config.APIPort (Config.Server (base cfg)) /\
        Config.AddressLifetimeHours (Config.Tempmail (base c))
          = Config.AddressLifetimeHours (Config.Tempmail (base cfg)) /\
        Config.CleanupIntervalHours (Config.Tempmail (base c))
          = Config.CleanupIntervalHours (Config.Tempmail (base cfg)) /\
        Config.AddressFormat (Config.Tempmail (base c))
          = Config.AddressFormat (Config.Tempmail (base cfg)) /\
        Config.Validation (base c) = Config.Validation (base cfg) /\
        Enabled (TLS c) = Enabled (TLS cfg) /\
        Logging c = Logging cfg
  end.
Proof.
  unfold LoadConfig.
  destruct (os_ReadFile configPath) as [data|err] eqn:R; [|left; eauto].
  destruct (yaml_Unmarshal data) as [cfg|err] eqn:U; [|right; left; eauto].
  destruct (String.eqb_spec (URL (Database cfg)) "") as [E|E];
    [right; right; left; eauto 6|].
  destruct (Config.Domains (base cfg)) as [|d ds] eqn:Dm; cbn [length Nat.eqb].
  { right; right; right. exists data, cfg. auto 6. }
  exists data, cfg. cbn [set_defaults base Database TLS Logging URL PoolSize CertFile KeyFile
                          Enabled Config.Domains Config.Server Config.Tempmail
                          Config.Validation Config.MXPort Config.Hostname Config.MaxMsgSizeMB
                          Config.MaxEmailsPerAddress Config.APIPort
                          Config.AddressLifetimeHours Config.CleanupIntervalHours
                          Config.AddressFormat].
  rewrite Dm.
  repeat (split; [first [reflexivity | assumption | discriminate
                        | apply or_default_Z; discriminate
                        | apply or_default_string; discriminate]|]).
  reflexivity.
Qed.

End WithFiles.

Lemma wrap64_small (z : Z) : (- 2 ^ 63 <= z < 2 ^ 63)%Z -> Config.wrap64 z = z.
Proof.
  intros H. unfold Config.wrap64.
  change (2 ^ 63)%Z with 9223372036854775808%Z in *.
  change (2 ^ 64)%Z with 18446744073709551616%Z.
  rewrite Z.mod_small; lia.
Qed.

Lemma GetMaxMessageSize_small (c : Config.t) :
  (- 2 ^ 43 <= Config.MaxMsgSizeMB (Config.Server c) < 2 ^ 43)%Z ->
  Config.GetMaxMessageSize c = (Config.MaxMsgSizeMB (Config.Server c) * 1048576)%Z.
Proof.
  intros H. unfold Config.GetMaxMessageSize.
  change (2 ^ 43)%Z with 8796093022208%Z in H.
  assert (B : (2 ^ 63 = 9223372036854775808)%Z) by reflexivity.
  rewrite (wrap64_small (Config.MaxMsgSizeMB (Config.Server c) * 1024))
    by (rewrite B; lia).
  rewrite wrap64_small by (rewrite B; lia). lia.
Qed.

(** X9.  [GetMaxMessageSize] is the configured number of megabytes times
    1048576 as long as the product fits 64 bits, that is for a number of
    megabytes from -2^43 up to 2^43 - 1. *)
Theorem GetMaxMessageSize_in_bytes (c : Config.t) :
  (- 2 ^ 43 <= Config.MaxMsgSizeMB (Config.Server c) < 2 ^ 43)%Z ->
  Config.GetMaxMessageSize c = (Config.MaxMsgSizeMB (Config.Server c) * 1048576)%Z.
Proof. apply GetMaxMessageSize_small. Qed.

(** The default limit of 10 megabytes is 10485760 bytes. *)
Lemma GetMaxMessageSize_in_bytes_witness :
  Config.GetMaxMessageSize (base (set_defaults zero))
  = (Config.MaxMsgSizeMB (Config.Server (base (set_defaults zero))) * 1048576)%Z.
Proof. apply (GetMaxMessageSize_in_bytes (base (set_defaults zero))). cbn. lia. Defined.

End config_facts.

(* ===================================================================== *)
(** * session.go: the envelope between two messages *)
(* ===================================================================== *)

Module transaction_facts.
Import strings strings_facts trim_facts transaction.

Section WithPlatform.
Context {P : Platform}.

(** Each call changes nothing of the session but the envelope. *)
Lemma call_frame (s : Session.t) (c : command) :
  Session.domains (fst (call s c)) = Session.domains s /\
  Session.cfg (fst (call s c)) = Session.cfg s /\
  Session.validator (fst (call s c)) = Session.validator s /\
  Session.remoteAddr (fst (call s c)) = Session.remoteAddr s /\
  Session.hostname (fst (call s c)) = Session.hostname s.
Proof.
  destruct c as [from|to| |username password]; cbn [call fst]; try (simpl; auto 7).
  rewrite Rcpt_unfold.
  destruct (mail_ParseAddress to) as [addr|e]; [|simpl; auto 7].
  destruct (Split (Address.Address addr) "@") as [|a [|b [|c l]]];
    try (simpl; auto 7).
  destruct (map_index (Session.domains s) (ToLower b)); simpl; auto 7.
Qed.

(** A call with an ASCII address keeps the recipients accepted. *)
Lemma call_keeps (s : Session.t) (c : command) :
  ascii_rcpt c = true ->
  Forall (accepted (Session.domains s)) (Session.to s) ->
  Forall (accepted (Session.domains s)) (Session.to (fst (call s c))).
Proof.
  intros Hc H. destruct c as [from|to| |username password]; cbn [call fst].
  - simpl. constructor.
  - rewrite Rcpt_unfold. cbn [ascii_rcpt] in Hc.
    destruct (mail_ParseAddress to) as [addr|e]; [|exact H].
    destruct (Split (Address.Address addr) "@") as [|a [|b [|c l]]] eqn:S;
      try exact H.
    destruct (map_index (Session.domains s) (ToLower b)) eqn:M; [|exact H].
    cbn [fst session.with_envelope Session.to].
    apply Forall_app. split; [exact H|]. constructor; [|constructor].
    apply Split_two in S as (E & Ha & Hb). rewrite E in Hc |- *.
    rewrite isASCII_app in Hc. apply andb_true_iff in Hc as [Aa Ab].
    change (isASCII (String "@" b)) with (isASCII b) in Ab.
    rewrite (ToLower_ascii b Ab) in M.
    rewrite ToLower_ascii
      by (rewrite isASCII_app, Aa; change (isASCII (String "@" b)) with (isASCII b); exact Ab).
    exists (lower_ascii a), (lower_ascii b).
    rewrite lower_ascii_app.
    change (lower_ascii (String "@" b)) with (String "@" (lower_ascii b)).
    rewrite !ContainsByte_lower_ascii_at.
    repeat split; try assumption.
    rewrite has_upper_app. change (has_upper (String "@" (lower_ascii b)))
      with (has_upper (lower_ascii b)).
    now rewrite !lower_ascii_no_upper.
  - simpl. constructor.
  - exact H.
Qed.

Lemma run_frame (commands : list command) (s : Session.t) :
  Session.domains (run s commands) = Session.domains s /\
  Session.cfg (run s commands) = Session.cfg s /\
  Session.validator (run s commands) = Session.validator s /\
  Session.remoteAddr (run s commands) = Session.remoteAddr s /\
  Session.hostname (run s commands) = Session.hostname s.
Proof.
  revert s. induction commands as [|c rest IH]; intros s; [simpl; auto 7|].
  change (run s (c :: rest)) with (run (fst (call s c)) rest).
  destruct (call_frame s c) as (Hd & Hc & Hv & Hr & Hh).
  destruct (IH (fst (call s c))) as (Id & Ic & Iv & Ir & Ih).
  rewrite Id, Ic, Iv, Ir, Ih, Hd, Hc, Hv, Hr, Hh. auto 7.
Qed.

Lemma run_keeps (commands : list command) (s : Session.t) :
  forallb ascii_rcpt commands = true ->
  Forall (accepted (Session.domains s)) (Session.to s) ->
  Forall (accepted (Session.domains s)) (Session.to (run s commands)).
Proof.
  revert s. induction commands as [|c rest IH]; intros s Hc H; [exact H|].
  change (run s (c :: rest)) with (run (fst (call s c)) rest).
  cbn [forallb] in Hc. apply andb_true_iff in Hc as [Hc Hrest].
  destruct (call_frame s c) as (Hd & _).
  rewrite <- Hd. apply IH; [exact Hrest|]. rewrite Hd. now apply call_keeps.
Qed.

(** X10.  Whatever the client sends after the session was created, only the
    envelope changes; and when the addresses read from its [RCPT] commands
    are written in ASCII, every recipient of the envelope is [local@domain]
    with a single [@], in lower case and with its domain in the domain
    set. *)
Theorem recipients_stay_accepted (remoteAddr hostname : string) (cfg : Config.t)
    (validator : option validation.Validator) (domains : gmap string bool)
    (commands : list command) :
  (forallb ascii_rcpt commands = true ->
   Forall (accepted domains)
     (Session.to (run (session.NewSession remoteAddr hostname cfg validator domains)
                    commands))) /\
  Session.domains (run (session.NewSession remoteAddr hostname cfg validator domains)
                     commands) = domains /\
  Session.cfg (run (session.NewSession remoteAddr hostname cfg validator domains)
                 commands) = cfg /\
  Session.validator (run (session.NewSession remoteAddr hostname cfg validator domains)
                       commands) = validator /\
  Session.remoteAddr (run (session.NewSession remoteAddr hostname cfg validator domains)
                        commands) = remoteAddr /\
  Session.hostname (run (session.NewSession remoteAddr hostname cfg validator domains)
                      commands) = hostname.
Proof.
  split.
  - intros Hc.
    apply (run_keeps commands
             (session.NewSession remoteAddr hostname cfg validator domains) Hc).
    constructor.
  - apply (run_frame commands
             (session.NewSession remoteAddr hostname cfg validator domains)).
Qed.

End WithPlatform.

(** [recipients_stay_accepted] for a client of the scenarios. *)
Lemma recipients_stay_accepted_witness :
  Forall (accepted (Config.GetDomainMap demo.cfg))
    (Session.to
       (run (P := demo.platform)
          (session.NewSession "192.0.2.10:40000" "foo" demo.cfg None
             (Config.GetDomainMap demo.cfg))
          [MAIL "a@b.com"; RCPT "Alive@TempMail.Example.com"; RCPT "x@other.example";
           RCPT "invalid-email"; RCPT "ghost@tempmail.example.com"])).
Proof.
  apply (proj1 (recipients_stay_accepted (P := demo.platform) "192.0.2.10:40000" "foo"
                  demo.cfg None (Config.GetDomainMap demo.cfg)
                  [MAIL "a@b.com"; RCPT "Alive@TempMail.Example.com";
                   RCPT "x@other.example"; RCPT "invalid-email";
                   RCPT "ghost@tempmail.example.com"])).
  reflexivity.
Defined.

(** An envelope of the scenarios: the second [MAIL] drops the recipient
    of the first, [AUTH] and the refused recipients leave no trace. *)
Example run_scenario :
  Session.to
    (run (P := demo.platform)
       (server.Backend_NewSession (server.NewSMTPServer_backend demo.cfg)
          "192.0.2.10:40000" "foo")
       [MAIL "a@b.com"; RCPT "first@tempmail.example.com"; MAIL "c@d.com";
        AUTH "user" "pass"; RCPT "Alive@TempMail.Example.com"; RCPT "x@other.example";
        RCPT "invalid-email"; RCPT "ghost@tempmail.example.com"])
  = ["alive@tempmail.example.com"; "ghost@tempmail.example.com"].
Proof. vm_compute. reflexivity. Qed.

(** TestFormatBoolPtr of the repository. *)
Example TestFormatBoolPtr :
  map formatBoolPtr [None; Some true; Some false] = ["null"; "true"; "false"].
Proof. reflexivity. Qed.

(** TestSessionLogout and TestSessionAuthPlain of the repository. *)
Example TestSessionLogout :
  Logout demo.sess = None /\
  AuthPlain demo.sess "user" "pass"
  = Some (Errorf "authentication not supported on MX server" []).
Proof. split; reflexivity. Qed.

End transaction_facts.

(* ===================================================================== *)
(** * session.go: what DATA leaves in the tables *)
(* ===================================================================== *)

Module delivery_facts.
Import strings database session spec delivery.

Lemma with_receipts_nil (t : Tables) (e : EmailData.t) (attachments : list AttachmentData.t) :
  with_receipts t e attachments [] = t.
Proof. destruct t. unfold with_receipts. simpl. now rewrite !app_nil_r. Qed.

Lemma with_receipts_cons (t : Tables) (e : EmailData.t)
    (attachments : list AttachmentData.t) (r : receipt) (rs : list receipt) (to : string) :
  with_receipts
    (with_message t (emailID r) (linkID r) (addressID r) (with_ToAddr e (recipient r))
       (attachmentIDs r) attachments)
    (with_ToAddr e to) attachments rs
  = with_receipts t e attachments (r :: rs).
Proof.
  unfold with_receipts, with_message. cbn [addresses emails email_recipients
    database.attachments map flat_map]. rewrite <- !app_assoc. reflexivity.
Qed.

(** The loop of [Data] stores the message for the recipients in order and
    stops at the first one [StoreEmail] refuses. *)
Lemma store_for_each_receipts {P : Platform} (recipients : list string) (db : DB) (e : EmailData.t)
    (attachments : list AttachmentData.t) (started : list UUID) :
  exists rs,
    tables (session.db_after (store_for_each db e attachments recipients started))
      = with_receipts (tables db) e attachments rs /\
    map recipient rs = firstn (length rs) recipients /\
    session.spawned (store_for_each db e attachments recipients started)
      = (started ++ map addressID rs)%list /\
    Forall (fun r =>
              length (attachmentIDs r) = length attachments /\
              exists a,
                find (fun a => String.eqb (addr_email a) (ToLower (recipient r)))
                  (addresses (tables db)) = Some a /\
                addressID r = addr_id a) rs /\
    (session.returned (store_for_each db e attachments recipients started) = None /\
     length rs = length recipients \/
     session.returned (store_for_each db e attachments recipients started)
       = Some (Errorf "error storing message" []) /\
     length rs < length recipients).
Proof.
  revert db e started. induction recipients as [|to rest IH]; intros db e started.
  - exists []. cbn [store_for_each session.db_after session.returned session.spawned].
    rewrite with_receipts_nil, app_nil_r. repeat split; auto.
  - cbn [store_for_each].
    pose proof (database_facts.StoreEmail_outcome db (with_ToAddr e to) attachments)
      as [_ H].
    destruct (database.returned (StoreEmail db (with_ToAddr e to) attachments)) as [err|].
    + destruct H as (Ht & _). exists [].
      cbn [session.db_after session.returned session.spawned].
      rewrite with_receipts_nil, app_nil_r, Ht. repeat split; auto.
      right. split; [reflexivity | simpl; lia].
    + destruct H as (eid & lid & ids & address & Hfind & Hlen & Hsp & Ht).
      rewrite Hsp.
      destruct (IH (database.db_after (StoreEmail db (with_ToAddr e to) attachments))
                  (with_ToAddr e to) (started ++ [addr_id address])%list)
        as (rs & Htab & Hmap & Hspawn & Hall & Hret).
      exists ({| recipient := to; emailID := eid; linkID := lid;
                 addressID := addr_id address; attachmentIDs := ids |} :: rs).
      split; [|split; [|split; [|split]]].
      * rewrite Htab, Ht.
        apply (with_receipts_cons (tables db) e attachments
                 {| recipient := to; emailID := eid; linkID := lid;
                    addressID := addr_id address; attachmentIDs := ids |} rs to).
      * simpl. now rewrite Hmap.
      * rewrite Hspawn. simpl. now rewrite <- app_assoc.
      * constructor.
        -- cbn [attachmentIDs recipient addressID]. split; [exact Hlen|].
           exists address. split; [exact Hfind | reflexivity].
        -- rewrite Ht in Hall. exact Hall.
      * simpl. destruct Hret as [[Hr Hl]|[Hr Hl]]; [left | right]; split; auto; lia.
Qed.

Section WithPlatform.
Context {P : Platform}.

(** [Data] always returns: the panic of [evaluateBasicSPF] is out of
    reach. *)
Lemma Data_returns (s : Session.t) (db : DB) (clock : Clock.t) (r : Reader.t) :
  exists d, session.Data s db clock r = Some d.
Proof.
  unfold Data. destruct (ReadFrom_LimitReader r _) as [[rawMessage size] [err|]]; [eauto|].
  destruct (size >=? _)%Z; [eauto|].
  destruct (enmime_ReadEnvelope rawMessage) as [envelope|err]; [|eauto].
  unfold Data_record. destruct (Session.validator s) as [v|]; [|eauto].
  destruct (validation_facts.ValidateEmail_values v rawMessage (Session.from s)
              (getClientIP s) (Session.hostname s)) as (res & -> & _). eauto.
Qed.

(** The columns of the record [Data] hands to [StoreEmail] that do not
    depend on the validator. *)
Lemma Data_record_columns (s : Session.t) (envelope : Envelope.t) (rawMessage : bytes)
    (size : Z) (clock : Clock.t) (e : EmailData.t) (attachments : list AttachmentData.t) :
  Data_record s envelope rawMessage size clock = Some (e, attachments) ->
  attachments = extractAttachments envelope /\
  EmailData.RawMessage e = rawMessage /\
  EmailData.SizeBytes e = size /\
  EmailData.FromAddr e = Session.from s /\
  EmailData.HasAttachments e = (0 <? length attachments)%nat /\
  EmailData.MessageID e = Envelope.GetHeader envelope "Message-ID" /\
  EmailData.Subject e = Envelope.GetHeader envelope "Subject" /\
  EmailData.RawHeaders e = rawHeaders_of (Envelope.RootHeader envelope).
Proof.
  unfold Data_record. destruct (Session.validator s) as [v|].
  - destruct (validation.ValidateEmail v rawMessage (Session.from s) (getClientIP s)
                (Session.hostname s)) as [res|]; [|discriminate].
    intros [= <- <-]. repeat split.
  - intros [= <- <-]. repeat split.
Qed.

(** Below the limit the whole content of the reader is read. *)
Lemma read_below_limit (r : Reader.t) (n : Z) (rawMessage : bytes) (size : Z)
    (err : option error) :
  ReadFrom_LimitReader r n = (rawMessage, size, err) ->
  (size < n)%Z ->
  rawMessage = Reader.content r /\ size = Z.of_nat (length (Reader.content r)) /\
  err = Reader.failure r.
Proof.
  unfold ReadFrom_LimitReader.
  destruct (length (Reader.content r) <? Z.to_nat n)%nat eqn:E.
  - intros [= <- <- <-]. auto.
  - intros [= <- <- <-] H. lia.
Qed.

(** How [Data] ends: before the loop, with an error and the tables as they
    were; or in the loop, on the record of the whole content of the
    reader, with one message per recipient up to the first refusal. *)
Lemma Data_outcome (s : Session.t) (db : DB) (clock : Clock.t) (r : Reader.t) :
  exists d,
    session.Data s db clock r = Some d /\
    ((session.db_after d = db /\ session.spawned d = [] /\
      In (session.returned d)
        [Some (Errorf "error reading message" []);
         Some (Errorf "message too large (max %d MB)"
                 [ArgD (Config.MaxMsgSizeMB (Config.Server (Session.cfg s)))]);
         Some (Errorf "error processing message" [])]) \/
     (exists envelope e rs,
        (Z.of_nat (length (Reader.content r)) < Config.GetMaxMessageSize (Session.cfg s))%Z /\
        Reader.failure r = None /\
        enmime_ReadEnvelope (Reader.content r) = Ok envelope /\
        Data_record s envelope (Reader.content r)
          (Z.of_nat (length (Reader.content r))) clock
          = Some (e, extractAttachments envelope) /\
        tables (session.db_after d)
          = with_receipts (tables db) e (extractAttachments envelope) rs /\
        map recipient rs = firstn (length rs) (Session.to s) /\
        session.spawned d = map addressID rs /\
        Forall (fun r =>
                  length (attachmentIDs r) = length (extractAttachments envelope) /\
                  exists a,
                    find (fun a => String.eqb (addr_email a) (ToLower (recipient r)))
                      (addresses (tables db)) = Some a /\
                    addressID r = addr_id a) rs /\
        (session.returned d = None /\ length rs = length (Session.to s) \/
         session.returned d = Some (Errorf "error storing message" []) /\
         length rs < length (Session.to s)))).
Proof.
  destruct (Data_returns s db clock r) as [d Hd]. exists d. split; [exact Hd|].
  destruct (session_facts.Data_cases s db clock r d Hd) as [[Hdb Hin]|H].
  - left. rewrite Hdb. cbn [session.db_after session.spawned session.returned]. auto.
  - right. destruct H as (rawMessage & size & envelope & e & attachments
                          & HR & Hlt & HE & HD & ->).
    destruct (read_below_limit _ _ _ _ _ HR Hlt) as (-> & -> & Hf).
    destruct (Data_record_columns _ _ _ _ _ _ _ HD) as (-> & _).
    destruct (store_for_each_receipts (Session.to s) db e (extractAttachments envelope) [])
      as (rs & Ht & Hm & Hs & Hall & Hret).
    exists envelope, e, rs. repeat split; auto.
Qed.

End WithPlatform.

End delivery_facts.

(* ===================================================================== *)
(** * database.go: the mailbox a message needs *)
(* ===================================================================== *)

Module mailbox_facts.
Import strings strings_facts database spec delivery.

Lemma healthy_call (db : DB) :
  healthy db ->
  driver_call db =
  ({| tables := tables db; calls := S (calls db); faults := faults db; supply := supply db |},
   Ok tt).
Proof. intros H. unfold driver_call. now rewrite H. Qed.

Lemma bind_ok {A B : Type} (m : M A) (k : A -> M B) (db db' : DB) (a : A) :
  m db = (db', Ok a) -> bind m k db = k a db'.
Proof. intros E. unfold bind. now rewrite E. Qed.

Lemma bind_err {A B : Type} (m : M A) (k : A -> M B) (db db' : DB) (e : error) :
  m db = (db', Err e) -> bind m k db = (db', Err e).
Proof. intros E. unfold bind. now rewrite E. Qed.

(** A statement on a healthy driver succeeds, and the driver stays
    healthy. *)
Lemma statement_healthy {A : Type} (format : string) (k : UUID -> A) (db : DB) :
  healthy db ->
  exists db',
    wrap_err format (do _ <- driver_call; do id <- fresh_uuid; ret (k id)) db
      = (db', Ok (k (supply db))) /\
    healthy db' /\ tables db' = tables db.
Proof.
  intros H. unfold wrap_err, bind. rewrite healthy_call by exact H.
  eexists. split; [reflexivity|]. split; [exact H | reflexivity].
Qed.

Lemma Begin_healthy (db : DB) :
  healthy db ->
  exists db',
    wrap_err "failed to begin transaction: %w" Begin db = (db', Ok {| pending := tables db |}) /\
    healthy db' /\ tables db' = tables db.
Proof.
  intros H. unfold wrap_err, Begin, bind. rewrite healthy_call by exact H.
  eexists. split; [reflexivity|]. split; [exact H | reflexivity].
Qed.

Lemma Commit_healthy (tx : Tx) (db : DB) :
  healthy db ->
  exists db',
    wrap_err "failed to commit transaction: %w" (Commit tx) db = (db', Ok tt) /\
    healthy db' /\ tables db' = pending tx.
Proof.
  intros H. unfold wrap_err, Commit, bind. rewrite healthy_call by exact H.
  eexists. split; [reflexivity|]. split; [exact H | reflexivity].
Qed.

Lemma getAddress_healthy {P : Platform} (tx : Tx) (email : string) (db : DB) :
  healthy db ->
  exists db',
    wrap_err "failed to get address: %w" (getAddress tx email) db
      = (db',
         match find (fun a => String.eqb (addr_email a) (ToLower email))
                 (addresses (pending tx)) with
         | Some a => Ok (addr_id a)
         | None =>
             Err (ErrorfW "failed to get address: %w" []
                    (Errorf "address does not exist: %s" [ArgS (ToLower email)]))
         end) /\
    healthy db' /\ tables db' = tables db.
Proof.
  intros H. unfold wrap_err, getAddress, tx_select_address_id, bind.
  rewrite healthy_call by exact H.
  exists {| tables := tables db; calls := S (calls db); faults := faults db;
            supply := supply db |}.
  split; [|split; [exact H | reflexivity]].
  destruct (find _ _); reflexivity.
Qed.

Lemma store_attachments_healthy (attachments : list AttachmentData.t) (tx : Tx)
    (emailID : UUID) (db : DB) :
  healthy db ->
  exists db' tx',
    store_attachments tx emailID attachments db = (db', Ok tx') /\
    healthy db' /\ tables db' = tables db.
Proof.
  revert tx db. induction attachments as [|att rest IH]; intros tx db H.
  - exists db, tx. auto.
  - cbn [store_attachments]. unfold tx_insert_attachment. cbv zeta.
    match goal with
    | |- context [wrap_err ?f (do _ <- driver_call; do i <- fresh_uuid; ret (@?k i))] =>
        destruct (statement_healthy f k db H) as (db1 & E1 & H1 & T1)
    end.
    rewrite (bind_ok _ _ _ _ _ E1).
    match goal with
    | |- context [store_attachments ?t emailID rest] =>
        destruct (IH t db1 H1) as (db' & tx' & E & H' & Ht)
    end.
    exists db', tx'. split; [exact E|]. split; [exact H' | congruence].
Qed.

Lemma existsb_find {A : Type} (f : A -> bool) (l : list A) :
  existsb f l = match find f l with Some _ => true | None => false end.
Proof. induction l as [|x l IH]; simpl; [reflexivity|]. now destruct (f x). Qed.

(** What [AddressExists] answers, and that it changes nothing. *)
Lemma AddressExists_outcome {P : Platform} (email : string) (db : DB) :
  tables (fst (AddressExists email db)) = tables db /\
  faults (fst (AddressExists email db)) = faults db /\
  match snd (AddressExists email db) with
  | Ok b =>
      b = match find (fun a => String.eqb (addr_email a) (ToLower email))
                  (addresses (tables db)) with
          | Some _ => true
          | None => false
          end
  | Err e =>
      exists cause,
        from_driver db cause /\
        e = ErrorfW "failed to check address existence: %w" [] cause
  end.
Proof.
  unfold AddressExists, wrap_err, bind.
  pose proof (database_facts.driver_call_spec db) as [[Ht Hf] He].
  destruct (driver_call db) as [db1 [[]|e]]; cbn [fst snd] in *.
  - rewrite Ht. repeat split; auto. apply existsb_find.
  - repeat split; auto. exists e. auto.
Qed.

(** With a driver that does not fail, [StoreEmail] delivers to an
    existing mailbox and refuses a missing one. *)
Lemma StoreEmail_healthy {P : Platform} (db : DB) (email : EmailData.t)
    (attachments : list AttachmentData.t) :
  healthy db ->
  match find (fun a => String.eqb (addr_email a) (ToLower (EmailData.ToAddr email)))
          (addresses (tables db)) with
  | Some a =>
      exists d,
        StoreEmail db email attachments
        = {| db_after := d; returned := None; spawned := Some (addr_id a) |}
  | None =>
      exists d,
        StoreEmail db email attachments
        = {| db_after := d; returned := Some (no_mailbox email); spawned := None |} /\
        tables d = tables db
  end.
Proof.
  intros H. unfold StoreEmail.
  destruct (Begin_healthy db H) as (db1 & E1 & H1 & T1). rewrite E1.
  unfold StoreEmail_statements, tx_insert_email. cbv zeta.
  match goal with
  | |- context [wrap_err ?f (do _ <- driver_call; do i <- fresh_uuid; ret (@?k i))] =>
      destruct (statement_healthy f k db1 H1) as (db2 & E2 & H2 & T2)
  end.
  rewrite (bind_ok _ _ _ _ _ E2). cbv beta iota.
  match goal with
  | |- context [wrap_err _ (getAddress ?t ?a)] =>
      destruct (getAddress_healthy t a db2 H2) as (db3 & E3 & H3 & T3)
  end.
  cbn [pending addresses] in E3.
  destruct (find _ (addresses (tables db))) as [a|] eqn:F.
  - rewrite (bind_ok _ _ _ _ _ E3). unfold tx_insert_recipient. cbv zeta.
    match goal with
    | |- context [wrap_err ?f (do _ <- driver_call; do i <- fresh_uuid; ret (@?k i))] =>
        destruct (statement_healthy f k db3 H3) as (db4 & E4 & H4 & T4)
    end.
    rewrite (bind_ok _ _ _ _ _ E4).
    match goal with
    | |- context [store_attachments ?t ?i attachments] =>
        destruct (store_attachments_healthy attachments t i db4 H4)
          as (db5 & tx5 & E5 & H5 & T5)
    end.
    rewrite (bind_ok _ _ _ _ _ E5). unfold ret.
    destruct (Commit_healthy tx5 db5 H5) as (db6 & E6 & H6 & T6). rewrite E6.
    eexists. reflexivity.
  - rewrite (bind_err _ _ _ _ _ E3).
    eexists. split; [reflexivity|].
    unfold Rollback. rewrite healthy_call by exact H3. cbn [fst tables]. congruence.
Qed.

(** X11.  When no call to the driver fails, [StoreEmail] returns nil exactly
    for a recipient for which [AddressExists] answers true, and for any
    other recipient it returns the error of the missing mailbox and leaves
    the tables as they were. *)
Theorem StoreEmail_needs_the_mailbox {P : Platform} (db : DB) (email : EmailData.t)
    (attachments : list AttachmentData.t) :
  healthy db ->
  (returned (StoreEmail db email attachments) = None <->
   snd (AddressExists (EmailData.ToAddr email) db) = Ok true) /\
  (snd (AddressExists (EmailData.ToAddr email) db) = Ok false <->
   returned (StoreEmail db email attachments) = Some (no_mailbox email)) /\
  (returned (StoreEmail db email attachments) = Some (no_mailbox email) ->
   tables (db_after (StoreEmail db email attachments)) = tables db).
Proof.
  intros H. pose proof (StoreEmail_healthy db email attachments H) as S.
  pose proof (AddressExists_outcome (EmailData.ToAddr email) db) as (_ & _ & A).
  destruct (snd (AddressExists (EmailData.ToAddr email) db)) as [b|e].
  2:{ destruct A as (cause & [n Hn] & _). rewrite H in Hn. discriminate. }
  destruct (find _ (addresses (tables db))) as [a|]; subst b.
  - destruct S as [d ->]. cbn [returned db_after]. repeat split; try discriminate; auto.
  - destruct S as (d & -> & Ht). cbn [returned db_after].
    repeat split; try discriminate; auto.
Qed.

Lemma StoreEmail_needs_the_mailbox_witness :
  (returned (StoreEmail (P := demo.platform) demo.db (demo.email_to "Alive@tempmail.example.com") []) = None <->
   snd (AddressExists (P := demo.platform) "Alive@tempmail.example.com" demo.db) = Ok true) /\
  (snd (AddressExists (P := demo.platform) "Alive@tempmail.example.com" demo.db) = Ok false <->
   returned (StoreEmail (P := demo.platform) demo.db (demo.email_to "Alive@tempmail.example.com") [])
   = Some (no_mailbox (P := demo.platform) (demo.email_to "Alive@tempmail.example.com"))) /\
  (returned (StoreEmail (P := demo.platform) demo.db (demo.email_to "Alive@tempmail.example.com") [])
   = Some (no_mailbox (P := demo.platform) (demo.email_to "Alive@tempmail.example.com")) ->
   tables (db_after (StoreEmail (P := demo.platform) demo.db (demo.email_to "Alive@tempmail.example.com") []))
   = tables demo.db).
Proof.
  apply (StoreEmail_needs_the_mailbox (P := demo.platform) demo.db
           (demo.email_to "Alive@tempmail.example.com") []).
  intros n. reflexivity.
Defined.

(** X12.  [AddressExists] never changes the tables.  Its answer is true
    exactly when a mailbox is stored under the lower-cased argument.  For
    an argument written in ASCII the answer does not depend on the case of
    the argument, and the mailbox found has no capital letter in its
    address, so a mailbox stored with a capital letter is never found.
    When the query fails the error wraps the error of the driver. *)
Theorem AddressExists_looks_up_lowercase {P : Platform} (email : string) (db : DB) :
  tables (fst (AddressExists email db)) = tables db /\
  (isASCII email = true -> AddressExists (ToLower email) db = AddressExists email db) /\
  match snd (AddressExists email db) with
  | Ok b =>
      (b = true <-> exists a, In a (addresses (tables db)) /\ addr_email a = ToLower email) /\
      (isASCII email = true -> b = true ->
       exists a, In a (addresses (tables db)) /\ addr_email a = ToLower email /\
                 has_upper (addr_email a) = false)
  | Err e =>
      exists cause,
        from_driver db cause /\
        e = ErrorfW "failed to check address existence: %w" [] cause
  end.
Proof.
  pose proof (AddressExists_outcome email db) as (Ht & _ & A).
  split; [exact Ht|]. split.
  { intros Hascii. unfold AddressExists. now rewrite ToLower_idem. }
  destruct (snd (AddressExists email db)) as [b|e]; [|exact A].
  assert (R : b = true <->
              exists a, In a (addresses (tables db)) /\ addr_email a = ToLower email).
  { subst b. destruct (find _ (addresses (tables db))) as [a|] eqn:F.
    - apply find_some in F as [Hin Heq]. apply String.eqb_eq in Heq.
      split; [eauto | reflexivity].
    - split; [discriminate|]. intros (a & Hin & Heq).
      apply (find_none _ _ F) in Hin. rewrite Heq, String.eqb_refl in Hin. discriminate. }
  split; [exact R|]. intros Hascii Hb. apply R in Hb as (a & Hin & Heq).
  exists a. rewrite Heq. auto using ToLower_no_upper.
Qed.

(** [AddressExists_looks_up_lowercase] for a capital in the argument: the
    answer is the one for the lower-case spelling. *)
Lemma AddressExists_looks_up_lowercase_witness :
  AddressExists (P := demo.platform)
    (ToLower (P := demo.platform) "Alive@TempMail.Example.com") demo.db
  = AddressExists (P := demo.platform) "Alive@TempMail.Example.com" demo.db.
Proof.
  apply (proj1 (proj2 (AddressExists_looks_up_lowercase (P := demo.platform)
                         "Alive@TempMail.Example.com" demo.db))).
  reflexivity.
Defined.

End mailbox_facts.

(* ===================================================================== *)
(** * database.go: what the quota leaves alone *)
(* ===================================================================== *)

Module frame_facts.
Import strings database spec delivery quota_facts.

Lemma excess_nil {S : Postgres} (t : Tables) (addressID : UUID) (offset : nat) :
  length (joined t addressID) <= offset -> excess t addressID offset = [].
Proof.
  intros H. unfold excess. apply skipn_all2.
  now rewrite (Permutation_length (order_perm (joined t addressID))).
Qed.

Lemma delete_emails_nil (t : Tables) : delete_emails t [] = t.
Proof.
  destruct t as [a e r at']. unfold delete_emails. cbn [addresses emails email_recipients
    database.attachments]. now rewrite !filter_all_in by reflexivity.
Qed.

(** The tables after [EnforceEmailLimit], nil or not. *)
Lemma EnforceEmailLimit_tables {S : Postgres} (db : DB) (addressID : UUID) :
  tables (fst (EnforceEmailLimit db addressID)) = tables db \/
  snd (EnforceEmailLimit db addressID) = None /\
  tables (fst (EnforceEmailLimit db addressID))
  = delete_emails (tables db) (map email_id (excess (tables db) addressID maxEmails)).
Proof.
  unfold EnforceEmailLimit.
  destruct (database_facts.driver_call_spec db) as [[Ht _] _].
  destruct (driver_call db) as [db1 [[]|e]]; cbn [fst snd tables] in *.
  - right. now rewrite Ht.
  - now left.
Qed.

(** A mailbox with at most 100 messages loses nothing. *)
Lemma under_cap {S : Postgres} (db : DB) (addressID : UUID) :
  length (joined (tables db) addressID) <= 100 ->
  tables (fst (EnforceEmailLimit db addressID)) = tables db.
Proof.
  intros H. destruct (EnforceEmailLimit_tables db addressID) as [E|[_ E]]; [exact E|].
  rewrite E, excess_nil by exact H. apply delete_emails_nil.
Qed.

(** X13.  [EnforceEmailLimit] leaves a mailbox with at most 100 linked messages
    as it is, whether the statement fails or not: no message, link or
    attachment of any mailbox is deleted. *)
Theorem EnforceEmailLimit_spares_small_mailbox {S : Postgres} (db : DB) (addressID : UUID) :
  length (joined (tables db) addressID) <= 100 ->
  tables (fst (EnforceEmailLimit db addressID)) = tables db.
Proof. apply under_cap. Qed.

Lemma EnforceEmailLimit_spares_small_mailbox_witness :
  tables (fst (EnforceEmailLimit (S := demo.postgres) (demo.db_with_messages 100) 1%N))
  = tables (demo.db_with_messages 100).
Proof.
  apply (EnforceEmailLimit_spares_small_mailbox (S := demo.postgres) (demo.db_with_messages 100) 1%N).
  apply Nat.leb_le. vm_compute. reflexivity.
Defined.

(** X14.  Running [EnforceEmailLimit] again after it succeeded changes nothing:
    the goroutines of successive deliveries to one mailbox do not add
    up. *)
Theorem EnforceEmailLimit_idempotent {S : Postgres} (db : DB) (addressID : UUID) :
  snd (EnforceEmailLimit db addressID) = None ->
  tables (fst (EnforceEmailLimit (fst (EnforceEmailLimit db addressID)) addressID))
  = tables (fst (EnforceEmailLimit db addressID)).
Proof.
  intros H. apply under_cap. unfold EnforceEmailLimit in *.
  destruct (database_facts.driver_call_spec db) as [[Ht _] _].
  destruct (driver_call db) as [db1 [[]|e]]; [|discriminate].
  cbn [fst tables] in *. rewrite Ht. apply (kept_length (tables db) addressID 100).
Qed.

Lemma EnforceEmailLimit_idempotent_witness :
  tables (fst (EnforceEmailLimit (S := demo.postgres) (fst (EnforceEmailLimit (S := demo.postgres) (demo.db_with_messages 102) 1%N))
                 1%N))
  = tables (fst (EnforceEmailLimit (S := demo.postgres) (demo.db_with_messages 102) 1%N)).
Proof.
  apply (EnforceEmailLimit_idempotent (S := demo.postgres) (demo.db_with_messages 102) 1%N). reflexivity.
Defined.

Lemma one_mailbox_each_check (t : Tables) :
  one_mailbox_each_b t = true -> one_mailbox_each t.
Proof.
  unfold one_mailbox_each_b. intros H er er' Hin Hin' E. rewrite forallb_forall in H.
  specialize (H er Hin). rewrite forallb_forall in H. specialize (H er' Hin').
  apply orb_true_iff in H as [H|H].
  - apply negb_true_iff, N.eqb_neq in H. contradiction.
  - now apply N.eqb_eq.
Qed.

Lemma in_joined (t : Tables) (addressID : UUID) (e : email_row) :
  In e (joined t addressID) <->
  In e (emails t) /\
  exists er, In er (email_recipients t) /\
             er_email_id er = email_id e /\ er_address_id er = addressID.
Proof.
  unfold joined. rewrite in_flat_map. split.
  - intros (x & Hx & Hin). apply in_map_iff in Hin as (er & <- & Her).
    apply filter_In in Her as [Her M]. apply andb_true_iff in M as [M1 M2].
    apply N.eqb_eq in M1, M2. eauto.
  - intros (He & er & Her & M1 & M2). exists e. split; [exact He|].
    apply in_map_iff. exists er. split; [reflexivity|]. apply filter_In.
    split; [exact Her|]. apply andb_true_iff. split; now apply N.eqb_eq.
Qed.

(** X15.  When no message is linked to two mailboxes ([StoreEmail] inserts one
    message and one link in each call), trimming one mailbox leaves the
    messages of every other mailbox, and all mailboxes, as they are. *)
Theorem EnforceEmailLimit_spares_other_mailboxes {S : Postgres} (db : DB) (addressID other : UUID) :
  one_mailbox_each (tables db) ->
  other <> addressID ->
  joined (tables (fst (EnforceEmailLimit db addressID))) other = joined (tables db) other /\
  addresses (tables (fst (EnforceEmailLimit db addressID))) = addresses (tables db).
Proof.
  intros H Hne. destruct (EnforceEmailLimit_tables db addressID) as [E|[_ E]]; rewrite E.
  - auto.
  - split; [|reflexivity]. rewrite joined_delete. apply filter_all_in.
    intros e He. apply negb_true_iff.
    destruct (id_in _ (email_id e)) eqn:I; [|reflexivity]. exfalso.
    apply id_in_spec, in_map_iff in I as (d & Hid & Hd).
    assert (Hd' : In d (joined (tables db) addressID)).
    { unfold excess in Hd. apply (Permutation_in _ (order_perm _)).
      rewrite <- (firstn_skipn maxEmails). apply in_or_app. now right. }
    apply in_joined in He as (_ & er & Her & M1 & M2).
    apply in_joined in Hd' as (_ & er' & Her' & M1' & M2').
    apply Hne. rewrite <- M2, <- M2'. apply H; congruence.
Qed.

Lemma EnforceEmailLimit_spares_other_mailboxes_witness :
  joined (tables (fst (EnforceEmailLimit (S := demo.postgres) (demo2.db_with_bob 102) 1%N))) 2%N
  = joined (tables (demo2.db_with_bob 102)) 2%N /\
  addresses (tables (fst (EnforceEmailLimit (S := demo.postgres) (demo2.db_with_bob 102) 1%N)))
  = addresses (tables (demo2.db_with_bob 102)).
Proof.
  apply (EnforceEmailLimit_spares_other_mailboxes (S := demo.postgres) (demo2.db_with_bob 102) 1%N 2%N).
  - apply one_mailbox_each_check. vm_compute. reflexivity.
  - discriminate.
Defined.

End frame_facts.

(* ===================================================================== *)
(** * The foreign keys of the schema *)
(* ===================================================================== *)

Module referential_facts.
Import strings database session spec delivery quota_facts.

Lemma attachment_rows_email (emailID : UUID) (ids : list UUID)
    (attachments : list AttachmentData.t) (a : attachment_row) :
  In a (attachment_rows emailID ids attachments) -> att_email_id a = emailID.
Proof.
  revert attachments. induction ids as [|id ids IH]; intros [|att rest]; simpl; try tauto.
  intros [<-|H]; [reflexivity | now apply (IH rest)].
Qed.

Lemma with_message_referential (t : Tables) (emailID linkID addressID : UUID)
    (email : EmailData.t) (ids : list UUID) (attachments : list AttachmentData.t) :
  referential t ->
  In addressID (map addr_id (addresses t)) ->
  referential (with_message t emailID linkID addressID email ids attachments).
Proof.
  intros [Hl Ha] Hin. unfold with_message. split;
    cbn [addresses emails email_recipients database.attachments].
  - intros er Her. rewrite map_app, in_app_iff.
    apply in_app_iff in Her as [Her|[<-|[]]].
    + destruct (Hl er Her). auto.
    + simpl. auto.
  - intros a Hin'. rewrite map_app, in_app_iff.
    apply in_app_iff in Hin' as [Hin'|Hin'].
    + left. now apply Ha.
    + right. apply attachment_rows_email in Hin'. simpl. auto.
Qed.

Lemma delete_emails_referential (t : Tables) (ids : list UUID) :
  referential t -> referential (delete_emails t ids).
Proof.
  intros [Hl Ha].
  assert (K : forall id, In id (map email_id (emails t)) -> id_in ids id = false ->
                         In id (map email_id
                                  (List.filter (fun e => negb (id_in ids (email_id e)))
                                     (emails t)))).
  { intros id Hid Hout. apply in_map_iff in Hid as (e & <- & He).
    apply in_map. apply filter_In. split; [exact He | now rewrite Hout]. }
  unfold delete_emails. split; cbn [addresses emails email_recipients database.attachments].
  - intros er Her. apply filter_In in Her as [Her Hk]. apply negb_true_iff in Hk.
    destruct (Hl er Her). auto.
  - intros a Hin. apply filter_In in Hin as [Hin Hk]. apply negb_true_iff in Hk. auto.
Qed.

Lemma StoreEmail_referential {P : Platform} (db : DB) (email : EmailData.t)
    (attachments : list AttachmentData.t) :
  referential (tables db) ->
  referential (tables (database.db_after (StoreEmail db email attachments))).
Proof.
  intros H.
  pose proof (database_facts.StoreEmail_outcome db email attachments) as [_ O].
  destruct (database.returned (StoreEmail db email attachments)) as [err|].
  - destruct O as [-> _]. exact H.
  - destruct O as (eid & lid & ids & address & Hfind & _ & _ & ->).
    apply with_message_referential; [exact H|].
    apply find_some in Hfind as [Hin _]. now apply in_map.
Qed.

Lemma EnforceEmailLimit_referential {S : Postgres} (db : DB) (addressID : UUID) :
  referential (tables db) ->
  referential (tables (fst (EnforceEmailLimit db addressID))).
Proof.
  intros H. destruct (frame_facts.EnforceEmailLimit_tables db addressID) as [E|[_ E]];
    rewrite E; [exact H | now apply delete_emails_referential].
Qed.

Lemma store_for_each_referential {P : Platform} (recipients : list string) (db : DB) (e : EmailData.t)
    (attachments : list AttachmentData.t) (started : list UUID) :
  referential (tables db) ->
  referential (tables (session.db_after (store_for_each db e attachments recipients started))).
Proof.
  revert db e started. induction recipients as [|to rest IH]; intros db e started H;
    [exact H|].
  cbn [store_for_each].
  pose proof (StoreEmail_referential db (with_ToAddr e to) attachments H) as H'.
  destruct (database.returned (StoreEmail db (with_ToAddr e to) attachments)).
  - exact H'.
  - now apply IH.
Qed.

(** X16.  The foreign keys of the schema are kept: when every link and every
    attachment belongs to a stored message and every link to a stored
    mailbox, the same holds after [StoreEmail], after [EnforceEmailLimit]
    and after [Data], whether they fail or not. *)
Theorem foreign_keys_kept {P : Platform} {S : Postgres} (db : DB) :
  referential (tables db) ->
  (forall email attachments,
     referential (tables (database.db_after (StoreEmail db email attachments)))) /\
  (forall addressID, referential (tables (fst (EnforceEmailLimit db addressID)))) /\
  (forall s clock r d,
     session.Data s db clock r = Some d -> referential (tables (session.db_after d))).
Proof.
  intros H. split; [|split].
  - intros. now apply StoreEmail_referential.
  - intros. now apply EnforceEmailLimit_referential.
  - intros s clock r d Hd.
    destruct (session_facts.Data_cases s db clock r d Hd) as [[-> _]|Hc]; [exact H|].
    destruct Hc as (rawMessage & size & envelope & e & attachments & _ & _ & _ & _ & ->).
    now apply store_for_each_referential.
Qed.

Lemma referential_check (t : Tables) : referential_b t = true -> referential t.
Proof.
  unfold referential_b. intros H. apply andb_true_iff in H as [H1 H2].
  rewrite forallb_forall in H1, H2. split.
  - intros er Her. specialize (H1 er Her). apply andb_true_iff in H1 as [A B].
    apply id_in_spec in A, B. auto.
  - intros a Ha. apply id_in_spec. auto.
Qed.

Lemma foreign_keys_kept_witness :
  (forall email attachments,
     referential
       (tables (database.db_after
                  (StoreEmail (P := demo.platform) (demo2.db_with_bob 102)
                     email attachments)))) /\
  (forall addressID,
     referential
       (tables (fst (EnforceEmailLimit (S := demo.postgres) (demo2.db_with_bob 102)
                       addressID)))) /\
  (forall s clock r d,
     session.Data (P := demo.platform) s (demo2.db_with_bob 102) clock r = Some d ->
     referential (tables (session.db_after d))).
Proof.
  apply (foreign_keys_kept (P := demo.platform) (S := demo.postgres)
           (demo2.db_with_bob 102)).
  apply referential_check. vm_compute. reflexivity.
Defined.

End referential_facts.

(* ===================================================================== *)
(** * session.go: the rows of a delivery *)
(* ===================================================================== *)

Module rows_facts.
Import strings database session spec delivery delivery_facts.

Lemma attachment_rows_cols (emailID : UUID) (ids : list UUID)
    (attachments : list AttachmentData.t) :
  length ids = length attachments ->
  map att_cols (attachment_rows emailID ids attachments) = attachments /\
  map att_email_id (attachment_rows emailID ids attachments)
  = map (fun _ => emailID) attachments.
Proof.
  revert attachments. induction ids as [|id ids IH]; intros [|att rest]; simpl;
    try discriminate; [auto|].
  intros [= H]. destruct (IH rest H) as [-> ->]. auto.
Qed.

Section WithPlatform.
Context {P : Platform}.


(** X18.  Every message [Data] stores is the whole content of the reader, which
    ended without error below the size limit: [raw_message] holds these
    bytes, [size_bytes] is their number, the sender is the one of the
    envelope, and the header columns and the attachment flag are those of
    the parsed message. *)
Theorem Data_stores_what_it_read (s : Session.t) (db : DB) (clock : Clock.t)
    (r : Reader.t) :
  exists d new,
    session.Data s db clock r = Some d /\
    emails (tables (session.db_after d)) = (emails (tables db) ++ new)%list /\
    (new = [] \/
     exists envelope,
       Reader.failure r = None /\
       enmime_ReadEnvelope (Reader.content r) = Ok envelope /\
       Forall
         (fun row =>
            EmailData.RawMessage (email_cols row) = Reader.content r /\
            EmailData.SizeBytes (email_cols row) = Z.of_nat (length (Reader.content r)) /\
            (0 <= EmailData.SizeBytes (email_cols row)
             < Config.GetMaxMessageSize (Session.cfg s))%Z /\
            EmailData.FromAddr (email_cols row) = Session.from s /\
            EmailData.MessageID (email_cols row) = Envelope.GetHeader envelope "Message-ID" /\
            EmailData.Subject (email_cols row) = Envelope.GetHeader envelope "Subject" /\
            EmailData.BodyHTML (email_cols row) = Envelope.HTML envelope /\
            EmailData.ReceivedAt (email_cols row) = Clock.now_ReceivedAt clock /\
            (EmailData.HasAttachments (email_cols row) = true <->
             Envelope.Attachments envelope <> [] \/ Envelope.Inlines envelope <> []))
         new).
Proof.
  destruct (Data_outcome s db clock r) as (d & Hd & [(Hdb & Hsp & Hin)|H]).
  - exists d, []. rewrite Hdb, app_nil_r. auto.
  - destruct H as (envelope & e & rs & Hlt & Hf & HE & HD & Ht & _).
    exists d, (map (email_of e) rs). rewrite Ht. split; [exact Hd|].
    split; [reflexivity|]. right. exists envelope. split; [exact Hf|]. split; [exact HE|].
    destruct (Data_record_columns _ _ _ _ _ _ _ HD)
      as (_ & Hraw & Hsize & Hfrom & Hhas & Hid & Hsub & _).
    destruct (session_facts.Data_record_fields _ _ _ _ _ _ _ HD) as (_ & Hhtml & Hrec & _).
    apply List.Forall_forall. intros row Hrow. apply in_map_iff in Hrow as (x & <- & _).
    cbn [email_of email_cols with_ToAddr EmailData.RawMessage EmailData.SizeBytes
         EmailData.FromAddr EmailData.MessageID EmailData.Subject EmailData.BodyHTML
         EmailData.ReceivedAt EmailData.HasAttachments].
    rewrite Hraw, Hsize, Hfrom, Hid, Hsub, Hhtml, Hrec, Hhas.
    repeat (split; [first [reflexivity | lia]|]).
    unfold extractAttachments. rewrite length_app, !length_map, Nat.ltb_lt.
    destruct (Envelope.Attachments envelope), (Envelope.Inlines envelope); simpl;
      split; try lia; intuition congruence.
Qed.

(** X19.  The attachments of a delivery: for every message [Data] stores, and
    in the order of the messages, one row per attachment of the parsed
    message, the attachments first and the inline parts after them, each
    with the identifier of its message, the name, type and content of the
    part, and the length of the content as its size. *)
Theorem Data_stores_the_attachments (s : Session.t) (db : DB) (clock : Clock.t)
    (r : Reader.t) :
  exists d new rows,
    session.Data s db clock r = Some d /\
    emails (tables (session.db_after d)) = (emails (tables db) ++ new)%list /\
    database.attachments (tables (session.db_after d))
      = (database.attachments (tables db) ++ rows)%list /\
    (new = [] /\ rows = [] \/
     exists envelope,
       enmime_ReadEnvelope (Reader.content r) = Ok envelope /\
       map att_cols rows
       = flat_map
           (fun _ =>
              map attachment_of (Envelope.Attachments envelope ++ Envelope.Inlines envelope))
           new /\
       map att_email_id rows
       = flat_map
           (fun row =>
              map (fun _ => email_id row)
                (Envelope.Attachments envelope ++ Envelope.Inlines envelope))
           new /\
       Forall
         (fun a =>
            AttachmentData.SizeBytes (att_cols a)
            = Z.of_nat (length (AttachmentData.Data (att_cols a))))
         rows).
Proof.
  destruct (Data_outcome s db clock r) as (d & Hd & [(Hdb & Hsp & Hin)|H]).
  - exists d, [], []. rewrite Hdb, !app_nil_r. auto 7.
  - destruct H as (envelope & e & rs & _ & _ & HE & _ & Ht & _ & _ & Hall & _).
    exists d, (map (email_of e) rs),
      (flat_map (attachments_of (extractAttachments envelope)) rs).
    rewrite Ht. split; [exact Hd|]. split; [reflexivity|]. split; [reflexivity|].
    right. exists envelope. split; [exact HE|].
    assert (X : extractAttachments envelope
                = map attachment_of (Envelope.Attachments envelope ++ Envelope.Inlines envelope))
      by (unfold extractAttachments; now rewrite map_app).
    split; [|split].
    + clear - Hall X. induction Hall as [|x l (Hlen & _) _ IH]; [reflexivity|].
      cbn [flat_map map]. rewrite map_app, IH. f_equal.
      unfold attachments_of. rewrite (proj1 (attachment_rows_cols _ _ _ Hlen)). exact X.
    + clear - Hall X. induction Hall as [|x l (Hlen & _) _ IH]; [reflexivity|].
      cbn [flat_map map]. rewrite map_app, IH. f_equal.
      unfold attachments_of. rewrite (proj2 (attachment_rows_cols _ _ _ Hlen)), X.
      rewrite map_map. reflexivity.
    + apply List.Forall_forall. intros a Ha. apply in_flat_map in Ha as (x & Hx & Ha).
      rewrite List.Forall_forall in Hall. destruct (Hall x Hx) as (Hlen & _).
      assert (Hc : In (att_cols a) (extractAttachments envelope)).
      { rewrite <- (proj1 (attachment_rows_cols (emailID x) _ _ Hlen)).
        now apply in_map. }
      rewrite X in Hc. apply in_map_iff in Hc as (p & <- & _). reflexivity.
Qed.

(** X20.  With a limit of zero or less, as in the zero [Config] of the tests,
    [Data] refuses every message as too large, the empty one included. *)
Theorem Data_refuses_all_without_limit (s : Session.t) (db : DB) (clock : Clock.t)
    (r : Reader.t) :
  (- 2 ^ 43 <= Config.MaxMsgSizeMB (Config.Server (Session.cfg s)) <= 0)%Z ->
  session.Data s db clock r =
  Some {| session.db_after := db;
          session.returned :=
            Some (Errorf "message too large (max %d MB)"
                    [ArgD (Config.MaxMsgSizeMB (Config.Server (Session.cfg s)))]);
          session.spawned := [] |}.
Proof.
  intros H.
  assert (M : (Config.GetMaxMessageSize (Session.cfg s) <= 0)%Z).
  { rewrite config_facts.GetMaxMessageSize_small; [lia|].
    change (2 ^ 43)%Z with 8796093022208%Z in *. lia. }
  unfold Data, ReadFrom_LimitReader.
  replace (Z.to_nat (Config.GetMaxMessageSize (Session.cfg s))) with 0%nat by lia.
  cbn [Nat.ltb Nat.leb firstn].
  replace (Z.of_nat 0 >=? _)%Z with true by (symmetry; apply Z.geb_le; lia).
  reflexivity.
Qed.

End WithPlatform.

Lemma Data_refuses_all_without_limit_witness :
  session.Data (P := demo.platform)
    (session.NewSession "127.0.0.1:12345" "client.example.com"
       (config_file.base config_file.zero) None ∅)
    demo.db demo.clock (demo.reader [])
  = Some {| session.db_after := demo.db;
            session.returned :=
              Some (Errorf "message too large (max %d MB)" [ArgD 0%Z]);
            session.spawned := [] |}.
Proof.
  apply (Data_refuses_all_without_limit (P := demo.platform)
           (session.NewSession "127.0.0.1:12345" "client.example.com"
              (config_file.base config_file.zero) None ∅)
           demo.db demo.clock (demo.reader [])).
  cbn. lia.
Defined.

(** Scenario S2 with a second recipient: the message for [alive] stays
    stored when the store refuses [ghost], and [Data] returns the error. *)
Example partial_delivery :
  option_map
    (fun d =>
       (session.returned d,
        map (fun row => EmailData.ToAddr (email_cols row))
          (emails (tables (session.db_after d)))))
    (session.Data (P := demo.platform)
       (session.with_envelope demo.sess "a@b.com"
          ["alive@tempmail.example.com"; "ghost@tempmail.example.com"])
       demo.db demo.clock (demo.reader demo.raw_hello))
  = Some (Some (Errorf "error storing message" []), ["alive@tempmail.example.com"]).
Proof. vm_compute. reflexivity. Qed.

End rows_facts.

(* ===================================================================== *)
(** * database.go, first version *)
(* ===================================================================== *)

Module catch_all_facts.
Import strings database spec delivery database_v1 mailbox_facts.

Lemma format_d_inj (n m : Z) : format_d n = format_d m -> n = m.
Proof.
  unfold format_d. intros H. apply DecimalZ.to_int_inj.
  assert (K : forall z, NilZero.int_of_string (NilZero.string_of_int (Z.to_int z))
                        = Some (Z.to_int z)).
  { intros z. apply NilZero.isi; destruct z; simpl; try discriminate;
      intros [= E]; now apply Unsigned.to_uint_nonnil in E. }
  pose proof (K n) as Kn. rewrite H, K in Kn. now injection Kn.
Qed.

(** X21.  Two tokens generated at different instants differ, as long as the
    instants lie in the years the nanosecond counter of [UnixNano] covers;
    every token starts with [auto_]. *)
Theorem generateSimpleToken_distinct (now now' : GoTime) :
  (- 2 ^ 63 <= now < 2 ^ 63)%Z ->
  (- 2 ^ 63 <= now' < 2 ^ 63)%Z ->
  HasPrefix (generateSimpleToken now) "auto_" = true /\
  (generateSimpleToken now = generateSimpleToken now' <-> now = now').
Proof.
  intros H H'. split.
  { unfold generateSimpleToken. cbv [String.append]. fold String.append.
    cbn [HasPrefix Ascii.eqb Bool.eqb andb]. apply validation_facts.HasPrefix_empty. }
  split; [|now intros ->].
  unfold generateSimpleToken, UnixNano.
  rewrite !config_facts.wrap64_small by assumption.
  intros E. apply format_d_inj. now injection E.
Qed.

Lemma generateSimpleToken_distinct_witness :
  HasPrefix (generateSimpleToken (1761782460 * 10 ^ 9)%Z) "auto_" = true /\
  (generateSimpleToken (1761782460 * 10 ^ 9)%Z
   = generateSimpleToken (1761782460 * 10 ^ 9 + 1)%Z
   <-> (1761782460 * 10 ^ 9 = 1761782460 * 10 ^ 9 + 1)%Z).
Proof.
  apply (generateSimpleToken_distinct (1761782460 * 10 ^ 9)%Z (1761782460 * 10 ^ 9 + 1)%Z);
    vm_compute; (split; [intros E; discriminate E | reflexivity]).
Defined.

Example TestGenerateSimpleToken :
  generateSimpleToken (1761782460 * 10 ^ 9 + 2000)%Z = "auto_1761782460000002000".
Proof. vm_compute. reflexivity. Qed.

(** The mailbox [getOrCreateAddress] creates for [email]. *)
Lemma getOrCreateAddress_healthy (clocks : Clocks) (tx : Tx) (email : string) (db : DB) :
  healthy db ->
  exists db',
    healthy db' /\ tables db' = tables db /\
    wrap_err "failed to get/create address: %w" (getOrCreateAddress clocks tx email) db
    = (db',
       match find (fun a => String.eqb (addr_email a) email) (addresses (pending tx)) with
       | Some a => Ok (tx, addr_id a)
       | None =>
           Ok ({| pending :=
                    {| addresses :=
                         addresses (pending tx) ++
                         [{| addr_id := supply db; addr_email := email;
                             addr_token := generateSimpleToken (now_token clocks);
                             addr_created_at := now_created_at clocks;
                             addr_expires_at := (now_expiresAt clocks + day)%Z |}];
                       emails := emails (pending tx);
                       email_recipients := email_recipients (pending tx);
                       attachments := attachments (pending tx) |} |}, supply db)
       end).
Proof.
  intros H. unfold getOrCreateAddress, tx_select_address_id, wrap_err at 1, bind at 1.
  rewrite healthy_call by exact H.
  destruct (find _ _) as [a|].
  - eexists. split; [|split; [|reflexivity]]; [exact H | reflexivity].
  - cbv beta iota zeta. unfold tx_insert_address. cbv zeta.
    match goal with
    | |- context [wrap_err ?f (do _ <- driver_call; do i <- fresh_uuid; ret (@?k i)) ?d] =>
        destruct (statement_healthy f k d H) as (db1 & E1 & H1 & T1)
    end.
    rewrite E1. exists db1. split; [exact H1|]. split; [exact T1 | reflexivity].
Qed.

Lemma find_app_new {A : Type} (f : A -> bool) (l : list A) (x : A) :
  find f l = None -> f x = true -> find f (l ++ [x]) = Some x.
Proof.
  induction l as [|y l IH]; simpl; intros H Hx; [now rewrite Hx|].
  destruct (f y); [discriminate | auto].
Qed.

(** X22.  When no call to the driver fails, [getOrCreateAddress] returns the
    mailbox stored under [email], as written, and leaves the transaction
    as it is; or, when there is none, adds one with a token [auto_<ns>]
    that expires 24 hours after the reading of the clock, and returns it.
    In both cases a second call finds the mailbox of the first and adds
    nothing. *)
Theorem getOrCreateAddress_finds_or_creates (clocks clocks' : Clocks) (tx : Tx)
    (email : string) (db : DB) :
  healthy db ->
  exists db' tx' addressID,
    getOrCreateAddress clocks tx email db = (db', Ok (tx', addressID)) /\
    healthy db' /\ tables db' = tables db /\
    (exists a,
       find (fun a => String.eqb (addr_email a) email) (addresses (pending tx')) = Some a /\
       addr_id a = addressID) /\
    (forall a,
       find (fun a => String.eqb (addr_email a) email) (addresses (pending tx)) = Some a ->
       tx' = tx /\ addressID = addr_id a) /\
    (find (fun a => String.eqb (addr_email a) email) (addresses (pending tx)) = None ->
     addresses (pending tx') =
     (addresses (pending tx) ++
      [{| addr_id := addressID; addr_email := email;
          addr_token := generateSimpleToken (now_token clocks);
          addr_created_at := now_created_at clocks;
          addr_expires_at := (now_expiresAt clocks + 86400 * 10 ^ 9)%Z |}])%list /\
     emails (pending tx') = emails (pending tx) /\
     email_recipients (pending tx') = email_recipients (pending tx) /\
     attachments (pending tx') = attachments (pending tx)) /\
    exists db'',
      getOrCreateAddress clocks' tx' email db' = (db'', Ok (tx', addressID)).
Proof.
  intros H.
  assert (G : forall c t d, healthy d ->
            exists d',
              healthy d' /\ tables d' = tables d /\
              getOrCreateAddress c t email d
              = (d',
                 match find (fun a => String.eqb (addr_email a) email)
                         (addresses (pending t)) with
                 | Some a => Ok (t, addr_id a)
                 | None =>
                     Ok ({| pending :=
                              {| addresses :=
                                   addresses (pending t) ++
                                   [{| addr_id := supply d; addr_email := email;
                                       addr_token := generateSimpleToken (now_token c);
                                       addr_created_at := now_created_at c;
                                       addr_expires_at := (now_expiresAt c + day)%Z |}];
                                 emails := emails (pending t);
                                 email_recipients := email_recipients (pending t);
                                 attachments := attachments (pending t) |} |}, supply d)
                 end)).
  { intros c t d Hd. destruct (getOrCreateAddress_healthy c t email d Hd)
      as (d' & Hd' & Td & E).
    exists d'. split; [exact Hd'|]. split; [exact Td|].
    unfold wrap_err in E. destruct (getOrCreateAddress c t email d) as [d1 [x|e]].
    - exact E.
    - destruct (find _ _); discriminate. }
  destruct (G clocks tx db H) as (db' & H' & T' & E).
  destruct (find (fun a => String.eqb (addr_email a) email) (addresses (pending tx)))
    as [a|] eqn:F.
  - exists db', tx, (addr_id a). split; [exact E|]. split; [exact H'|]. split; [exact T'|].
    split; [eauto|]. split; [intros a' [= <-]; auto|]. split; [discriminate|].
    destruct (G clocks' tx db' H') as (db'' & _ & _ & E'). rewrite F in E'. eauto.
  - eexists db', _, (supply db). split; [exact E|]. split; [exact H'|]. split; [exact T'|].
    assert (N : find (fun a => String.eqb (addr_email a) email)
                  (addresses (pending tx) ++
                   [{| addr_id := supply db; addr_email := email;
                       addr_token := generateSimpleToken (now_token clocks);
                       addr_created_at := now_created_at clocks;
                       addr_expires_at := (now_expiresAt clocks + day)%Z |}])
                = Some {| addr_id := supply db; addr_email := email;
                          addr_token := generateSimpleToken (now_token clocks);
                          addr_created_at := now_created_at clocks;
                          addr_expires_at := (now_expiresAt clocks + day)%Z |}).
    { apply find_app_new; [exact F|]. cbn. apply String.eqb_refl. }
    cbn [pending addresses emails email_recipients attachments].
    split; [eexists; split; [exact N | reflexivity]|].
    split; [discriminate|]. split; [intros _; repeat split|].
    match goal with
    | |- context [getOrCreateAddress clocks' ?t email db'] =>
        destruct (G clocks' t db' H') as (db'' & _ & _ & E')
    end.
    cbn [pending addresses] in E'. rewrite N in E'. eauto.
Qed.

Lemma getOrCreateAddress_finds_or_creates_witness :
  exists db' tx' addressID,
    getOrCreateAddress clocks {| pending := tables demo.db |} "ghost@tempmail.example.com"
      demo.db = (db', Ok (tx', addressID)) /\
    healthy db' /\ tables db' = tables demo.db /\
    (exists a,
       find (fun a => String.eqb (addr_email a) "ghost@tempmail.example.com")
         (addresses (pending tx')) = Some a /\
       addr_id a = addressID) /\
    (forall a,
       find (fun a => String.eqb (addr_email a) "ghost@tempmail.example.com")
         (addresses (pending {| pending := tables demo.db |})) = Some a ->
       tx' = {| pending := tables demo.db |} /\ addressID = addr_id a) /\
    (find (fun a => String.eqb (addr_email a) "ghost@tempmail.example.com")
       (addresses (pending {| pending := tables demo.db |})) = None ->
     addresses (pending tx') =
     (addresses (pending {| pending := tables demo.db |}) ++
      [{| addr_id := addressID; addr_email := "ghost@tempmail.example.com";
          addr_token := generateSimpleToken (now_token clocks);
          addr_created_at := now_created_at clocks;
          addr_expires_at := (now_expiresAt clocks + 86400 * 10 ^ 9)%Z |}])%list /\
     emails (pending tx') = emails (pending {| pending := tables demo.db |}) /\
     email_recipients (pending tx')
       = email_recipients (pending {| pending := tables demo.db |}) /\
     attachments (pending tx') = attachments (pending {| pending := tables demo.db |})) /\
    exists db'',
      getOrCreateAddress clocks tx' "ghost@tempmail.example.com" db'
      = (db'', Ok (tx', addressID)).
Proof.
  apply (getOrCreateAddress_finds_or_creates clocks clocks {| pending := tables demo.db |}
           "ghost@tempmail.example.com" demo.db).
  intros n. reflexivity.
Defined.

(** X23.  When no call to the driver fails, the first [StoreEmail] delivers to
    any recipient: it returns nil, the mailbox of the recipient is in the
    store afterwards, created if it was missing, the message is linked to
    it, and the goroutine of this mailbox is started. *)
Theorem first_StoreEmail_catches_all (clocks : Clocks) (db : DB) (email : EmailData.t)
    (attachments : list AttachmentData.t) :
  healthy db ->
  exists a emailID linkID,
    database.returned (StoreEmail clocks db email attachments) = None /\
    database.spawned (StoreEmail clocks db email attachments) = Some (addr_id a) /\
    find (fun a => String.eqb (addr_email a) (EmailData.ToAddr email))
      (addresses (tables (database.db_after (StoreEmail clocks db email attachments))))
      = Some a /\
    (forall a',
       find (fun a => String.eqb (addr_email a) (EmailData.ToAddr email))
         (addresses (tables db)) = Some a' ->
       a = a' /\
       addresses (tables (database.db_after (StoreEmail clocks db email attachments)))
       = addresses (tables db)) /\
    emails (tables (database.db_after (StoreEmail clocks db email attachments)))
      = (emails (tables db) ++ [{| email_id := emailID; email_cols := email |}])%list /\
    email_recipients (tables (database.db_after (StoreEmail clocks db email attachments)))
      = (email_recipients (tables db) ++
         [{| er_id := linkID; er_email_id := emailID; er_address_id := addr_id a;
             er_is_read := false |}])%list.
Proof.
  intros H.
  assert (S : exists d a emailID linkID tx5,
             StoreEmail clocks db email attachments
             = {| database.db_after := d; database.returned := None;
                  database.spawned := Some (addr_id a) |} /\
             tables d = pending tx5 /\
             find (fun a => String.eqb (addr_email a) (EmailData.ToAddr email))
               (addresses (pending tx5)) = Some a /\
             (forall a',
                find (fun a => String.eqb (addr_email a) (EmailData.ToAddr email))
                  (addresses (tables db)) = Some a' ->
                a = a' /\ addresses (pending tx5) = addresses (tables db)) /\
             emails (pending tx5)
             = (emails (tables db) ++ [{| email_id := emailID; email_cols := email |}])%list /\
             email_recipients (pending tx5)
             = (email_recipients (tables db) ++
                [{| er_id := linkID; er_email_id := emailID; er_address_id := addr_id a;
                    er_is_read := false |}])%list).
  { unfold StoreEmail.
    destruct (Begin_healthy db H) as (db1 & E1 & H1 & T1). rewrite E1.
    unfold StoreEmail_statements, tx_insert_email. cbv zeta.
    match goal with
    | |- context [wrap_err ?f (do _ <- driver_call; do i <- fresh_uuid; ret (@?k i))] =>
        destruct (statement_healthy f k db1 H1) as (db2 & E2 & H2 & T2)
    end.
    rewrite (bind_ok _ _ _ _ _ E2). cbv beta iota.
    match goal with
    | |- context [wrap_err _ (getOrCreateAddress _ ?t ?e)] =>
        destruct (getOrCreateAddress_healthy clocks t e db2 H2) as (db3 & H3 & T3 & E3)
    end.
    cbn [pending addresses emails email_recipients database.attachments] in E3.
    destruct (find _ (addresses (tables db))) as [a|] eqn:F.
    - rewrite (bind_ok _ _ _ _ _ E3). cbv beta iota. unfold tx_insert_recipient. cbv zeta.
      match goal with
      | |- context [wrap_err ?f (do _ <- driver_call; do i <- fresh_uuid; ret (@?k i))] =>
          destruct (statement_healthy f k db3 H3) as (db4 & E4 & H4 & T4)
      end.
      rewrite (bind_ok _ _ _ _ _ E4).
      match goal with
      | |- context [store_attachments ?t ?i attachments] =>
          destruct (store_attachments_healthy attachments t i db4 H4)
            as (db5 & tx5 & E5 & H5 & T5)
      end.
      rewrite (bind_ok _ _ _ _ _ E5). unfold ret.
      destruct (Commit_healthy tx5 db5 H5) as (db6 & E6 & H6 & T6). rewrite E6.
      exists db6, a, (supply db1), (supply db3), tx5. split; [reflexivity|].
      split; [exact T6|].
      match type of E5 with
      | store_attachments ?t ?i _ _ = _ =>
          pose proof (database_facts.store_attachments_spec attachments t i db4) as Sp
      end.
      rewrite E5 in Sp. destruct Sp as (_ & ids & _ & ->).
      cbn [pending addresses emails email_recipients].
      split; [exact F|]. split; [|split; reflexivity].
      intros a' [= <-]. auto.
    - rewrite (bind_ok _ _ _ _ _ E3). cbv beta iota. unfold tx_insert_recipient. cbv zeta.
      match goal with
      | |- context [wrap_err ?f (do _ <- driver_call; do i <- fresh_uuid; ret (@?k i))] =>
          destruct (statement_healthy f k db3 H3) as (db4 & E4 & H4 & T4)
      end.
      rewrite (bind_ok _ _ _ _ _ E4).
      match goal with
      | |- context [store_attachments ?t ?i attachments] =>
          destruct (store_attachments_healthy attachments t i db4 H4)
            as (db5 & tx5 & E5 & H5 & T5)
      end.
      rewrite (bind_ok _ _ _ _ _ E5). unfold ret.
      destruct (Commit_healthy tx5 db5 H5) as (db6 & E6 & H6 & T6). rewrite E6.
      exists db6,
        {| addr_id := supply db2; addr_email := EmailData.ToAddr email;
           addr_token := generateSimpleToken (now_token clocks);
           addr_created_at := now_created_at clocks;
           addr_expires_at := (now_expiresAt clocks + day)%Z |},
        (supply db1), (supply db3), tx5.
      split; [reflexivity|].
      split; [exact T6|].
      match type of E5 with
      | store_attachments ?t ?i _ _ = _ =>
          pose proof (database_facts.store_attachments_spec attachments t i db4) as Sp
      end.
      rewrite E5 in Sp. destruct Sp as (_ & ids & _ & ->).
      cbn [pending addresses emails email_recipients addr_id].
      split; [apply find_app_new; [exact F | cbn; apply String.eqb_refl]|].
      split; [discriminate|]. split; reflexivity. }
  destruct S as (d & a & emailID & linkID & tx5 & -> & Td & Hf & Hold & He & Hl).
  exists a, emailID, linkID. cbn [database.db_after database.returned database.spawned].
  rewrite Td. split; [reflexivity|]. split; [reflexivity|]. split; [exact Hf|].
  split; [exact Hold|]. split; assumption.
Qed.

Lemma first_StoreEmail_catches_all_witness :
  exists a emailID linkID,
    database.returned
      (StoreEmail clocks demo.db (demo.email_to "ghost@tempmail.example.com") []) = None /\
    database.spawned
      (StoreEmail clocks demo.db (demo.email_to "ghost@tempmail.example.com") [])
      = Some (addr_id a) /\
    find (fun a => String.eqb (addr_email a)
                     (EmailData.ToAddr (demo.email_to "ghost@tempmail.example.com")))
      (addresses
         (tables (database.db_after
                    (StoreEmail clocks demo.db
                       (demo.email_to "ghost@tempmail.example.com") []))))
      = Some a /\
    (forall a',
       find (fun a => String.eqb (addr_email a)
                        (EmailData.ToAddr (demo.email_to "ghost@tempmail.example.com")))
         (addresses (tables demo.db)) = Some a' ->
       a = a' /\
       addresses
         (tables (database.db_after
                    (StoreEmail clocks demo.db
                       (demo.email_to "ghost@tempmail.example.com") [])))
       = addresses (tables demo.db)) /\
    emails
      (tables (database.db_after
                 (StoreEmail clocks demo.db (demo.email_to "ghost@tempmail.example.com") [])))
      = (emails (tables demo.db) ++
         [{| email_id := emailID;
             email_cols := demo.email_to "ghost@tempmail.example.com" |}])%list /\
    email_recipients
      (tables (database.db_after
                 (StoreEmail clocks demo.db (demo.email_to "ghost@tempmail.example.com") [])))
      = (email_recipients (tables demo.db) ++
         [{| er_id := linkID; er_email_id := emailID; er_address_id := addr_id a;
             er_is_read := false |}])%list.
Proof.
  apply (first_StoreEmail_catches_all clocks demo.db
           (demo.email_to "ghost@tempmail.example.com") []).
  intros n. reflexivity.
Defined.

(** The recipient without a mailbox of scenario S2, under the first
    [StoreEmail]: the mailbox is created and the message is stored. *)
Example ghost_gets_a_mailbox :
  map addr_email
    (addresses
       (tables (database.db_after
                  (StoreEmail clocks demo.db (demo.email_to "ghost@tempmail.example.com") []))))
  = ["alive@tempmail.example.com"; "ghost@tempmail.example.com"] /\
  map addr_token
    (addresses
       (tables (database.db_after
                  (StoreEmail clocks demo.db (demo.email_to "ghost@tempmail.example.com") []))))
  = ["token-1"; "auto_1761782460000002000"].
Proof. vm_compute. auto. Qed.

End catch_all_facts.

(* ===================================================================== *)
(** * The functions and the trigger of the schema *)
(* ===================================================================== *)

Module schema_facts.
Import strings database spec delivery quota_facts schema.

Lemma has_link_spec (t : Tables) (id : UUID) :
  has_link t id = true <-> exists er, In er (email_recipients t) /\ er_email_id er = id.
Proof.
  unfold has_link. rewrite existsb_exists. split; intros (er & Hin & H); exists er;
    (split; [exact Hin|]); now apply N.eqb_eq.
Qed.

Lemma id_in_one (id x : UUID) : id_in [id] x = (id =? x)%N.
Proof. unfold id_in. simpl. apply orb_false_r. Qed.

Lemma filter_twice {A : Type} (f g : A -> bool) (l : list A) :
  List.filter f (List.filter g l) = List.filter (fun x => g x && f x) l.
Proof.
  induction l as [|x l IH]; [reflexivity|]. cbn [List.filter].
  destruct (g x); cbn [List.filter andb]; [destruct (f x)|]; now rewrite IH.
Qed.

(** The trigger function leaves the mailboxes and the links alone, and
    deletes the messages and the attachments of [OLD.email_id] when no
    link with this identifier is left. *)
Lemma delete_orphaned_emails_spec (t : Tables) (OLD : recipient_row) :
  addresses (delete_orphaned_emails t OLD) = addresses t /\
  email_recipients (delete_orphaned_emails t OLD) = email_recipients t /\
  emails (delete_orphaned_emails t OLD)
  = List.filter
      (fun e => negb ((er_email_id OLD =? email_id e)%N && negb (has_link t (email_id e))))
      (emails t) /\
  attachments (delete_orphaned_emails t OLD)
  = List.filter
      (fun a => negb ((er_email_id OLD =? att_email_id a)%N
                      && negb (has_link t (att_email_id a))))
      (attachments t).
Proof.
  unfold delete_orphaned_emails. destruct (has_link t (er_email_id OLD)) eqn:L.
  - split; [reflexivity|]. split; [reflexivity|]. split; symmetry; apply filter_all_in.
    + intros e _. destruct (N.eqb_spec (er_email_id OLD) (email_id e)) as [<-|]; [|reflexivity].
      now rewrite L.
    + intros a _. destruct (N.eqb_spec (er_email_id OLD) (att_email_id a)) as [<-|];
        [|reflexivity]. now rewrite L.
  - unfold delete_emails. cbn [addresses emails email_recipients attachments].
    split; [reflexivity|]. split; [|split].
    + apply filter_all_in. intros er Her. rewrite id_in_one.
      destruct (N.eqb_spec (er_email_id OLD) (er_email_id er)) as [E|]; [|reflexivity].
      exfalso. assert (X : has_link t (er_email_id OLD) = true)
        by (apply has_link_spec; eauto).
      congruence.
    + apply filter_ext. intros e. rewrite id_in_one.
      destruct (N.eqb_spec (er_email_id OLD) (email_id e)) as [<-|]; [|reflexivity].
      now rewrite L.
    + apply filter_ext. intros a. rewrite id_in_one.
      destruct (N.eqb_spec (er_email_id OLD) (att_email_id a)) as [<-|]; [|reflexivity].
      now rewrite L.
Qed.

(** The trigger, run for the deleted links [OLDs]. *)
Lemma triggers_spec (OLDs : list recipient_row) (t : Tables) :
  addresses (fold_left delete_orphaned_emails OLDs t) = addresses t /\
  email_recipients (fold_left delete_orphaned_emails OLDs t) = email_recipients t /\
  emails (fold_left delete_orphaned_emails OLDs t)
  = List.filter
      (fun e => negb (id_in (map er_email_id OLDs) (email_id e)
                      && negb (has_link t (email_id e))))
      (emails t) /\
  attachments (fold_left delete_orphaned_emails OLDs t)
  = List.filter
      (fun a => negb (id_in (map er_email_id OLDs) (att_email_id a)
                      && negb (has_link t (att_email_id a))))
      (attachments t).
Proof.
  revert t. induction OLDs as [|OLD rest IH]; intros t; cbn [fold_left map].
  - repeat split; try reflexivity; symmetry; apply filter_all_in; reflexivity.
  - destruct (delete_orphaned_emails_spec t OLD) as (Ha & Hl & He & Hat).
    destruct (IH (delete_orphaned_emails t OLD)) as (Ia & Il & Ie & Iat).
    assert (L : forall id, has_link (delete_orphaned_emails t OLD) id = has_link t id)
      by (intros id; unfold has_link; now rewrite Hl).
    rewrite Ia, Il, Ie, Iat, Ha, Hl, He, Hat.
    split; [reflexivity|]. split; [reflexivity|].
    split; rewrite filter_twice; apply filter_ext; intros x; rewrite L;
      unfold id_in; cbn [existsb];
      destruct (N.eqb _ _), (existsb _ _), (has_link t _); reflexivity.
Qed.

Lemma cascade_address_spec (migrated : bool) (t : Tables) (addressID : UUID) :
  addresses (cascade_address migrated t addressID) = addresses t /\
  email_recipients (cascade_address migrated t addressID)
  = List.filter (fun er => negb (er_address_id er =? addressID)%N) (email_recipients t) /\
  (migrated = false ->
   emails (cascade_address migrated t addressID) = emails t /\
   attachments (cascade_address migrated t addressID) = attachments t) /\
  (forall e, In e (emails (cascade_address migrated t addressID)) -> In e (emails t)) /\
  (forall a, In a (attachments (cascade_address migrated t addressID)) ->
             In a (attachments t)) /\
  (forall e, In e (emails t) ->
             has_link (cascade_address migrated t addressID) (email_id e) = true ->
             In e (emails (cascade_address migrated t addressID))) /\
  (forall a, In a (attachments (cascade_address migrated t addressID)) ->
             In (att_email_id a) (map email_id (emails t)) ->
             In (att_email_id a)
               (map email_id (emails (cascade_address migrated t addressID)))) /\
  (migrated = true -> no_orphans t -> no_orphans (cascade_address migrated t addressID)).
Proof.
  unfold cascade_address. destruct migrated.
  2:{ cbn [addresses emails email_recipients attachments].
      repeat split; auto; discriminate. }
  cbv beta iota zeta.
  match goal with
  | |- context [fold_left delete_orphaned_emails ?o ?u] =>
      destruct (triggers_spec o u) as (Ha & Hl & He & Hat);
        remember o as OLDs eqn:EO; remember u as t' eqn:Et
  end.
  assert (U : addresses t' = addresses t /\ emails t' = emails t /\
              attachments t' = attachments t /\
              email_recipients t'
              = List.filter (fun er => negb (er_address_id er =? addressID)%N)
                  (email_recipients t)) by (subst t'; auto).
  destruct U as (Ua & Ue & Uat & Ul).
  remember (fold_left delete_orphaned_emails OLDs t') as t'' eqn:Et''.
  assert (L : forall id, has_link t'' id = has_link t' id)
    by (intros id; unfold has_link; now rewrite Hl).
  split; [congruence|]. split; [congruence|]. split; [discriminate|].
  split; [intros e He'; rewrite He in He'; apply filter_In in He' as [He' _]; congruence|].
  split; [intros a Ha'; rewrite Hat in Ha'; apply filter_In in Ha' as [Ha' _]; congruence|].
  split; [|split].
  - intros e Hin Hlink. rewrite He. apply filter_In. split; [congruence|].
    rewrite L in Hlink. rewrite Hlink. now rewrite andb_false_r.
  - intros a Hin Hid. rewrite Hat in Hin. apply filter_In in Hin as [_ Hk].
    apply in_map_iff in Hid as (e & Heq & He'). apply in_map_iff. exists e.
    split; [exact Heq|]. rewrite He. apply filter_In. split; [congruence | now rewrite Heq].
  - intros _ Hno e He'. rewrite L. rewrite He in He'. apply filter_In in He' as [Hin Hk].
    rewrite Ue in Hin.
    destruct (has_link t' (email_id e)) eqn:Lk; [reflexivity|]. exfalso.
    rewrite andb_true_r in Hk. apply negb_true_iff in Hk.
    specialize (Hno e Hin). apply has_link_spec in Hno as (er & Her & Hid).
    destruct (N.eqb_spec (er_address_id er) addressID) as [Ea|Ea].
    + assert (X : id_in (map er_email_id OLDs) (email_id e) = true).
      { apply id_in_spec. rewrite <- Hid. apply in_map. subst OLDs. apply filter_In.
        split; [exact Her|]. now apply N.eqb_eq. }
      congruence.
    + assert (X : has_link t' (email_id e) = true).
      { apply has_link_spec. exists er. split; [|exact Hid].
        rewrite Ul. apply filter_In. split; [exact Her|].
        apply negb_true_iff. now apply N.eqb_neq. }
      congruence.
Qed.

(** The cascades of the deleted mailboxes, one after the other. *)
Lemma cascades_spec (migrated : bool) (ids : list UUID) (t : Tables) :
  addresses (fold_left (cascade_address migrated) ids t) = addresses t /\
  email_recipients (fold_left (cascade_address migrated) ids t)
  = List.filter (fun er => negb (id_in ids (er_address_id er))) (email_recipients t) /\
  (migrated = false ->
   emails (fold_left (cascade_address migrated) ids t) = emails t /\
   attachments (fold_left (cascade_address migrated) ids t) = attachments t) /\
  (forall e, In e (emails (fold_left (cascade_address migrated) ids t)) -> In e (emails t)) /\
  (forall a, In a (attachments (fold_left (cascade_address migrated) ids t)) ->
             In a (attachments t)) /\
  (forall e, In e (emails t) ->
             has_link (fold_left (cascade_address migrated) ids t) (email_id e) = true ->
             In e (emails (fold_left (cascade_address migrated) ids t))) /\
  (forall a, In a (attachments (fold_left (cascade_address migrated) ids t)) ->
             In (att_email_id a) (map email_id (emails t)) ->
             In (att_email_id a)
               (map email_id (emails (fold_left (cascade_address migrated) ids t)))) /\
  (migrated = true -> no_orphans t ->
   no_orphans (fold_left (cascade_address migrated) ids t)).
Proof.
  revert t. induction ids as [|id rest IH]; intros t; cbn [fold_left].
  - repeat split; auto. symmetry. apply filter_all_in. reflexivity.
  - destruct (cascade_address_spec migrated t id)
      as (Ha & Hl & Hb & He & Hat & Hk & Hka & Hno).
    destruct (IH (cascade_address migrated t id))
      as (Ia & Il & Ib & Ie & Iat & Ik & Ika & Ino).
    split; [congruence|]. split; [|split; [|split; [|split; [|split; [|split]]]]].
    + rewrite Il, Hl, filter_twice. apply filter_ext. intros er.
      unfold id_in. cbn [existsb]. rewrite (N.eqb_sym id).
      destruct (N.eqb _ _), (existsb _ _); reflexivity.
    + intros M. destruct (Hb M) as [E1 E2], (Ib M) as [E3 E4]. split; congruence.
    + auto.
    + auto.
    + intros e Hin Hlink. apply Ik; [|exact Hlink]. apply Hk; [exact Hin|].
      apply has_link_spec in Hlink as (er & Her & Hid). apply has_link_spec.
      exists er. split; [|exact Hid]. rewrite Il in Her. now apply filter_In in Her.
    + intros a Hin Hid. apply Ika; [exact Hin|]. apply Hka; [now apply Iat | exact Hid].
    + auto.
Qed.

(** X24.  [cleanup_expired_addresses()] deletes exactly the mailboxes whose
    [expires_at] lies before the instant of the call, returns their number,
    and with them their links and no other link.  It never adds a row and
    keeps the foreign keys.  With the schema alone it deletes no message
    and no attachment: the messages of a deleted mailbox stay behind,
    without a link.  Once the migration installed the trigger, a store in
    which every message has a link is one afterwards, and every message
    that still has a link is kept with its attachments. *)
Theorem cleanup_expired_addresses_effect (migrated : bool) (now : GoTime) (t : Tables) :
  addresses (fst (cleanup_expired_addresses migrated now t))
  = List.filter (fun a => (now <=? addr_expires_at a)%Z) (addresses t) /\
  snd (cleanup_expired_addresses migrated now t)
  = Z.of_nat (length (List.filter (fun a => (addr_expires_at a <? now)%Z) (addresses t))) /\
  email_recipients (fst (cleanup_expired_addresses migrated now t))
  = List.filter
      (fun er =>
         negb (id_in (map addr_id
                        (List.filter (fun a => (addr_expires_at a <? now)%Z) (addresses t)))
                 (er_address_id er)))
      (email_recipients t) /\
  (forall e, In e (emails (fst (cleanup_expired_addresses migrated now t))) ->
             In e (emails t)) /\
  (forall a, In a (attachments (fst (cleanup_expired_addresses migrated now t))) ->
             In a (attachments t)) /\
  (referential t -> referential (fst (cleanup_expired_addresses migrated now t))) /\
  (migrated = false ->
   emails (fst (cleanup_expired_addresses migrated now t)) = emails t /\
   attachments (fst (cleanup_expired_addresses migrated now t)) = attachments t) /\
  (migrated = true ->
   (no_orphans t -> no_orphans (fst (cleanup_expired_addresses migrated now t))) /\
   (forall e, In e (emails t) ->
      has_link (fst (cleanup_expired_addresses migrated now t)) (email_id e) = true ->
      In e (emails (fst (cleanup_expired_addresses migrated now t))))).
Proof.
  unfold cleanup_expired_addresses. cbn [fst snd].
  match goal with
  | |- context [fold_left (cascade_address migrated) ?i ?u] =>
      destruct (cascades_spec migrated i u) as (Ha & Hl & Hb & He & Hat & Hk & Hka & Hno);
        set (ids := i) in *; set (t0 := u) in *
  end.
  cbn [addresses emails email_recipients attachments] in Ha, Hl, Hb, He, Hat, Hk, Hka.
  split; [|split; [reflexivity|split; [exact Hl|split; [exact He|split; [exact Hat|]]]]].
  { rewrite Ha. apply filter_ext. intros a. unfold expired.
    now rewrite Z.leb_antisym. }
  split; [|split; [exact Hb|]].
  - intros [Rl Ra]. split.
    + intros er Her. rewrite Hl in Her. apply filter_In in Her as [Her Hout].
      apply negb_true_iff in Hout. destruct (Rl er Her) as [R1 R2]. split.
      * apply in_map_iff in R1 as (e & Heq & Hin). apply in_map_iff. exists e.
        split; [exact Heq|]. apply Hk; [exact Hin|].
        apply has_link_spec. exists er. split; [|now symmetry].
        rewrite Hl. apply filter_In. split; [exact Her | now rewrite Hout].
      * rewrite Ha. apply in_map_iff in R2 as (a & Heq & Hin). apply in_map_iff.
        exists a. split; [exact Heq|]. apply filter_In. split; [exact Hin|].
        destruct (expired now a) eqn:X; [|reflexivity]. exfalso.
        assert (Y : id_in ids (er_address_id er) = true).
        { apply id_in_spec. rewrite <- Heq. unfold ids. apply in_map.
          apply filter_In. auto. }
        congruence.
    + intros a Hin. apply Hka; [exact Hin|]. apply Ra. now apply Hat.
  - intros M. split; [intros Hn; apply Hno; [exact M|]; exact Hn | exact Hk].
Qed.


(** X25.  The last statement of the migration deletes exactly the messages
    without a link, with their attachments: afterwards every message has a
    link, the mailboxes and the links are as before, the foreign keys are
    kept, and running it again changes nothing. *)
Theorem delete_existing_orphans_effect (t : Tables) :
  no_orphans (delete_existing_orphans t) /\
  emails (delete_existing_orphans t)
  = List.filter (fun e => has_link t (email_id e)) (emails t) /\
  email_recipients (delete_existing_orphans t) = email_recipients t /\
  addresses (delete_existing_orphans t) = addresses t /\
  (forall a, In a (attachments (delete_existing_orphans t)) -> In a (attachments t)) /\
  (referential t -> referential (delete_existing_orphans t)) /\
  delete_existing_orphans (delete_existing_orphans t) = delete_existing_orphans t.
Proof.
  assert (K : forall id,
            In id (map email_id (emails t)) \/ has_link t id = true ->
            id_in (map email_id
                     (List.filter (fun e => negb (has_link t (email_id e))) (emails t))) id
            = negb (has_link t id)).
  { intros id Hid. destruct (has_link t id) eqn:L; cbn [negb].
    - destruct (id_in _ id) eqn:I; [|reflexivity]. exfalso.
      apply id_in_spec, in_map_iff in I as (e & Heq & He).
      apply filter_In in He as [_ He]. rewrite Heq, L in He. discriminate.
    - destruct Hid as [Hid|Hid]; [|discriminate].
      apply id_in_spec. apply in_map_iff in Hid as (e & Heq & He).
      apply in_map_iff. exists e. split; [exact Heq|]. apply filter_In.
      split; [exact He | now rewrite Heq, L]. }
  assert (Hl : email_recipients (delete_existing_orphans t) = email_recipients t).
  { unfold delete_existing_orphans, delete_emails. cbn [email_recipients].
    apply filter_all_in. intros er Her. rewrite K.
    - rewrite negb_involutive. apply has_link_spec. eauto.
    - right. apply has_link_spec. eauto. }
  assert (He : emails (delete_existing_orphans t)
               = List.filter (fun e => has_link t (email_id e)) (emails t)).
  { unfold delete_existing_orphans, delete_emails. cbn [emails].
    apply filter_ext_in. intros e Hin. rewrite K by (left; now apply in_map).
    apply negb_involutive. }
  assert (Hn : no_orphans (delete_existing_orphans t)).
  { intros e Hin. rewrite He in Hin. apply filter_In in Hin as [_ Hin].
    unfold has_link. now rewrite Hl. }
  split; [exact Hn|]. split; [exact He|]. split; [exact Hl|]. split; [reflexivity|].
  split; [|split].
  - intros a Ha. unfold delete_existing_orphans, delete_emails in Ha.
    cbn [attachments] in Ha. now apply filter_In in Ha.
  - apply referential_facts.delete_emails_referential.
  - unfold delete_existing_orphans at 1.
    rewrite (filter_all_out _ (emails (delete_existing_orphans t))).
    + apply frame_facts.delete_emails_nil.
    + intros e Hin. now rewrite (Hn e Hin).
Qed.

(** What the statement of the function gets from the server. *)
Lemma function_order_perm {S : Postgres} (l : list email_row) :
  Permutation (ORDER_BY_received_at_DESC of_enforce_max_emails_per_address l) l.
Proof. apply ORDER_BY_rows. Qed.

Lemma function_order_sorted {S : Postgres} (l : list email_row) :
  StronglySorted not_older
    (ORDER_BY_received_at_DESC of_enforce_max_emails_per_address l).
Proof. exact (ORDER_BY_descending of_enforce_max_emails_per_address l). Qed.

(** X26.  The function of the schema that takes the cap as a parameter: for a
    cap that is not negative it leaves at most [p_max_emails] messages
    linked to the mailbox, the [received_at] of none of them below that of
    a deleted one, whatever order the server gives to rows of equal
    [received_at]; when each message has one link to the mailbox, what
    remains are the first [p_max_emails] rows of the order the statement
    got; it returns the number of messages deleted.  When no two rows of
    the mailbox have the same [received_at], that order is determined, and
    with the cap 100 the function deletes what [EnforceEmailLimit]
    deletes. *)
Theorem enforce_max_emails_per_address_keeps_newest {S : Postgres} (t : Tables)
    (p_address_id : UUID) (p_max_emails : Z) :
  (0 <= p_max_emails)%Z ->
  exists t' n,
    enforce_max_emails_per_address t p_address_id p_max_emails = Some (t', n) /\
    length (joined t' p_address_id) <= Z.to_nat p_max_emails /\
    (forall k d,
       In k (joined t' p_address_id) ->
       In d (emails_to_delete t p_address_id (Z.to_nat p_max_emails)) ->
       (received_at d <= received_at k)%Z) /\
    (NoDup (map email_id (joined t p_address_id)) ->
     Permutation (joined t' p_address_id)
       (firstn (Z.to_nat p_max_emails)
          (ORDER_BY_received_at_DESC of_enforce_max_emails_per_address
             (joined t p_address_id)))) /\
    n = (Z.of_nat (length (emails t)) - Z.of_nat (length (emails t')))%Z /\
    (NoDup (map received_at (joined t p_address_id)) ->
     ORDER_BY_received_at_DESC of_enforce_max_emails_per_address (joined t p_address_id)
     = order_by_received_at_desc (joined t p_address_id) /\
     (p_max_emails = 100%Z ->
      forall db, tables db = t -> snd (EnforceEmailLimit db p_address_id) = None ->
                 tables (fst (EnforceEmailLimit db p_address_id)) = t')).
Proof.
  intros H. unfold enforce_max_emails_per_address.
  replace (p_max_emails <? 0)%Z with false by (symmetry; apply Z.ltb_ge; exact H).
  eexists _, _. split; [reflexivity|]. unfold emails_to_delete.
  split; [apply trimmed_length, function_order_perm|].
  split; [|split; [apply trimmed_exactly, function_order_perm|split]].
  - intros k d Hk Hd.
    apply (trimmed_not_older t p_address_id (Z.to_nat p_max_emails) _
             (function_order_perm _) (function_order_sorted _) k d Hk Hd).
  - unfold delete_emails. cbn [emails].
    pose proof (List.filter_length
                  (fun e =>
                     id_in (map email_id
                              (skipn (Z.to_nat p_max_emails)
                                 (ORDER_BY_received_at_DESC
                                    of_enforce_max_emails_per_address
                                    (joined t p_address_id))))
                       (email_id e)) (emails t)) as FL.
    lia.
  - intros Hn.
    assert (E : ORDER_BY_received_at_DESC of_enforce_max_emails_per_address
                  (joined t p_address_id)
                = order_by_received_at_desc (joined t p_address_id)).
    { apply sorted_unique.
      - rewrite function_order_perm. symmetry. apply order_perm.
      - apply function_order_sorted.
      - apply order_sorted.
      - apply (NoDup_Permutation_proper _ _
                 (Permutation_map received_at (function_order_perm _))).
        exact Hn. }
    split; [exact E|].
    intros -> db <- Hs. unfold EnforceEmailLimit in *.
    destruct (database_facts.driver_call_spec db) as [[Ht _] _].
    destruct (driver_call db) as [db1 [[]|e]]; [|discriminate].
    cbn [fst tables] in *. rewrite Ht, E. reflexivity.
Qed.

(** Scenario S6: with the cap 3 and the messages M1 to M5 in the mailbox,
    the function leaves three messages. *)
Lemma enforce_max_emails_per_address_keeps_newest_witness :
  exists t' n,
    enforce_max_emails_per_address (S := demo.postgres)
      (tables (demo.db_with_messages 5)) 1%N 3 = Some (t', n) /\
    length (joined t' 1%N) <= Z.to_nat 3 /\
    (forall k d,
       In k (joined t' 1%N) ->
       In d (emails_to_delete (S := demo.postgres)
               (tables (demo.db_with_messages 5)) 1%N (Z.to_nat 3)) ->
       (received_at (S := demo.postgres) d <= received_at (S := demo.postgres) k)%Z) /\
    (NoDup (map email_id (joined (tables (demo.db_with_messages 5)) 1%N)) ->
     Permutation (joined t' 1%N)
       (firstn (Z.to_nat 3)
          (ORDER_BY_received_at_DESC (Postgres := demo.postgres)
             of_enforce_max_emails_per_address
             (joined (tables (demo.db_with_messages 5)) 1%N)))) /\
    n = (Z.of_nat (length (emails (tables (demo.db_with_messages 5))))
         - Z.of_nat (length (emails t')))%Z /\
    (NoDup (map (received_at (S := demo.postgres))
              (joined (tables (demo.db_with_messages 5)) 1%N)) ->
     ORDER_BY_received_at_DESC (Postgres := demo.postgres)
       of_enforce_max_emails_per_address (joined (tables (demo.db_with_messages 5)) 1%N)
     = order_by_received_at_desc (S := demo.postgres)
         (joined (tables (demo.db_with_messages 5)) 1%N) /\
     (3%Z = 100%Z ->
      forall db, tables db = tables (demo.db_with_messages 5) ->
                 snd (EnforceEmailLimit (S := demo.postgres) db 1%N) = None ->
                 tables (fst (EnforceEmailLimit (S := demo.postgres) db 1%N)) = t')).
Proof.
  apply (enforce_max_emails_per_address_keeps_newest (S := demo.postgres)
           (tables (demo.db_with_messages 5)) 1%N 3).
  discriminate.
Defined.

Example S6_quota_3 :
  option_map (fun r => (map email_id (emails (fst r)), snd r))
    (enforce_max_emails_per_address (S := demo.postgres)
       (tables (demo.db_with_messages 5)) 1%N 3)
  = Some ([1003%N; 1004%N; 1005%N], 2%Z) /\
  enforce_max_emails_per_address (S := demo.postgres)
    (tables (demo.db_with_messages 5)) 1%N (-1) = None.
Proof. vm_compute. auto. Qed.

(** The mailbox [alive] has expired.  With the schema alone its three
    messages stay in [emails] without a link; with the trigger of the
    migration they are deleted, and the message of bob stays. *)
Example expired_mailbox :
  map email_id
    (emails (fst (cleanup_expired_addresses false (Clock.now_ReceivedAt demo.clock)
                    tables_with_expired)))
  = [2000%N; 1001%N; 1002%N; 1003%N] /\
  map er_email_id
    (email_recipients (fst (cleanup_expired_addresses false (Clock.now_ReceivedAt demo.clock)
                              tables_with_expired)))
  = [2000%N] /\
  map email_id
    (emails (fst (cleanup_expired_addresses true (Clock.now_ReceivedAt demo.clock)
                    tables_with_expired)))
  = [2000%N] /\
  snd (cleanup_expired_addresses true (Clock.now_ReceivedAt demo.clock) tables_with_expired)
  = 1%Z.
Proof. vm_compute. auto. Qed.

End schema_facts.

(* ===================================================================== *)
(** * The domains a server accepts *)
(* ===================================================================== *)

Module domain_facts.
Import strings strings_facts trim_facts transaction.

(** X27.  [CheckDomainAllowed] on the domain map of a configuration answers
    true exactly when the lower-cased domain is listed, as written, in the
    configuration; two spellings of one domain get the same answer from any
    map, and a map without entries allows nothing. *)
Theorem CheckDomainAllowed_lowercases {P : Platform} (c : Config.t) (domain : string) :
  (database.CheckDomainAllowed domain (Config.GetDomainMap c) = true <->
   In (ToLower domain) (Config.Domains c)) /\
  (forall (allowedDomains : gmap string bool) (spelling : string),
     ToLower spelling = ToLower domain ->
     database.CheckDomainAllowed spelling allowedDomains
     = database.CheckDomainAllowed domain allowedDomains) /\
  database.CheckDomainAllowed domain ∅ = false.
Proof.
  split; [|split].
  - unfold database.CheckDomainAllowed. apply GetDomainMap_index.
  - intros m spelling H. unfold database.CheckDomainAllowed. now rewrite H.
  - unfold database.CheckDomainAllowed, map_index. now rewrite lookup_empty.
Qed.

(** A domain with a capital letter outside ASCII goes through
    [strings.Map(unicode.ToLower, s)]: where that answers as in Go, the
    sender domain and the domain looked up are written with the small
    letter. *)
Example domain_with_accent {P : Platform} :
  strings_Map_unicode_ToLower (demo.E_ACUTE +:+ "COLE.fr") = demo.e_acute +:+ "cole.fr" ->
  validation.extractDomain ("user@" +:+ demo.E_ACUTE +:+ "COLE.fr")
  = demo.e_acute +:+ "cole.fr" /\
  database.CheckDomainAllowed (demo.E_ACUTE +:+ "COLE.fr")
    (Config.GetDomainMap (demo.config [demo.e_acute +:+ "cole.fr"] false))
  = true.
Proof.
  intros H.
  assert (T : ToLower (demo.E_ACUTE +:+ "COLE.fr")
              = strings_Map_unicode_ToLower (demo.E_ACUTE +:+ "COLE.fr")) by reflexivity.
  split.
  - change (validation.extractDomain ("user@" +:+ demo.E_ACUTE +:+ "COLE.fr"))
      with (ToLower (demo.E_ACUTE +:+ "COLE.fr")).
    now rewrite T, H.
  - unfold database.CheckDomainAllowed. rewrite T, H.
    apply GetDomainMap_index. simpl. auto.
Qed.

(** TestCheckDomainAllowed of the repository. *)
Example TestCheckDomainAllowed :
  map (fun domain =>
         database.CheckDomainAllowed (P := demo.platform) domain
           (Config.GetDomainMap
              (demo.config ["tempmail.example.com"; "temp.test"; "mail.local"] false)))
    ["tempmail.example.com"; "temp.test"; "TEMPMAIL.EXAMPLE.COM"; "TempMail.Example.Com";
     "notallowed.com"; ""; "tempmail.example.org"]
  = [true; true; true; true; false; false; false].
Proof. vm_compute. reflexivity. Qed.

(** X28.  The sessions [NewSMTPServer] creates carry the configuration, and
    a validator exactly when a check is switched on, whatever a client
    sends.  When the addresses read from the [RCPT] commands of the client
    are written in ASCII, every recipient in the envelope of such a session
    is a lower-case [local@domain] whose domain is listed, as written, in
    the configuration. *)
Theorem server_accepts_listed_domains {P : Platform} (c : Config.t)
    (remoteAddr hostname : string) (commands : list command) :
  (forallb ascii_rcpt commands = true ->
   Forall
     (fun recipient =>
        exists local domain,
          recipient = local +:+ "@" +:+ domain /\
          ContainsByte local "@" = false /\ ContainsByte domain "@" = false /\
          has_upper recipient = false /\
          In domain (Config.Domains c))
     (Session.to
        (run (server.Backend_NewSession (server.NewSMTPServer_backend c) remoteAddr hostname)
           commands))) /\
  Session.cfg
    (run (server.Backend_NewSession (server.NewSMTPServer_backend c) remoteAddr hostname)
       commands) = c /\
  (Session.validator
     (run (server.Backend_NewSession (server.NewSMTPServer_backend c) remoteAddr hostname)
        commands) = None <->
   Config.CheckDKIM (Config.Validation c) = false /\
   Config.CheckSPF (Config.Validation c) = false /\
   Config.CheckDMARC (Config.Validation c) = false).
Proof.
  unfold server.Backend_NewSession, server.NewSMTPServer_backend, server.NewBackend.
  cbn [server.cfg server.validator server.domains].
  destruct (transaction_facts.run_frame commands
              (session.NewSession remoteAddr hostname c (server.new_validator c)
                 (Config.GetDomainMap c)))
    as (_ & Hc & Hv & _).
  cbn [session.NewSession Session.domains Session.cfg Session.validator] in Hc, Hv.
  split; [|split; [exact Hc|]].
  - intros Hascii.
    pose proof (transaction_facts.run_keeps commands
                  (session.NewSession remoteAddr hostname c (server.new_validator c)
                     (Config.GetDomainMap c)) Hascii) as Hall.
    cbn [session.NewSession Session.domains Session.to] in Hall.
    specialize (Hall ltac:(constructor)).
    eapply Forall_impl; [exact Hall|].
    intros r (l & d & Hr & Hl & Hd & Hu & Hm).
    exists l, d. apply GetDomainMap_index in Hm. auto.
  - rewrite Hv. unfold server.new_validator.
    destruct (Config.CheckDKIM _), (Config.CheckSPF _), (Config.CheckDMARC _); cbn;
      split; try discriminate; try tauto; intros (? & ? & ?); discriminate.
Qed.

(** [server_accepts_listed_domains] for a client of the scenarios. *)
Lemma server_accepts_listed_domains_witness :
  Forall
    (fun recipient =>
       exists local domain,
         recipient = local +:+ "@" +:+ domain /\
         ContainsByte local "@" = false /\ ContainsByte domain "@" = false /\
         has_upper recipient = false /\
         In domain (Config.Domains demo.cfg))
    (Session.to
       (run (P := demo.platform)
          (server.Backend_NewSession (server.NewSMTPServer_backend demo.cfg)
             "192.0.2.10:40000" "foo")
          [MAIL "a@b.com"; RCPT "Alive@TempMail.Example.com"; RCPT "x@other.example";
           RCPT "ghost@tempmail.example.com"])).
Proof.
  apply (proj1 (server_accepts_listed_domains (P := demo.platform) demo.cfg
                  "192.0.2.10:40000" "foo"
                  [MAIL "a@b.com"; RCPT "Alive@TempMail.Example.com";
                   RCPT "x@other.example"; RCPT "ghost@tempmail.example.com"])).
  reflexivity.
Defined.

End domain_facts.

(* ===================================================================== *)
(** * session.go: the header block *)
(* ===================================================================== *)

Module header_facts.
Import strings trim_facts session.

Lemma values_fold (key : string) (values : list string) (acc : string) :
  fold_left (fun acc' val => acc' +:+ key +:+ ": " +:+ val +:+ LF) values acc
  = acc +:+ fold_right append "" (map (fun val => key +:+ ": " +:+ val +:+ LF) values).
Proof.
  revert acc. induction values as [|v rest IH]; intros acc; cbn [fold_left map fold_right].
  - now rewrite append_nil_r.
  - now rewrite IH, append_assoc.
Qed.

Lemma fold_right_append_app (a b : list string) :
  fold_right append "" (a ++ b) = fold_right append "" a +:+ fold_right append "" b.
Proof.
  induction a as [|x a IH]; cbn [fold_right app]; [reflexivity|].
  now rewrite IH, append_assoc.
Qed.

Lemma headers_fold (header : list (string * list string)) (acc : string) :
  fold_left
    (fun acc kv =>
       fold_left (fun acc' val => acc' +:+ fst kv +:+ ": " +:+ val +:+ LF) (snd kv) acc)
    header acc
  = acc +:+
    fold_right append ""
      (flat_map (fun kv => map (fun val => fst kv +:+ ": " +:+ val +:+ LF) (snd kv)) header).
Proof.
  revert acc. induction header as [|kv rest IH]; intros acc; cbn [fold_left flat_map].
  - now rewrite append_nil_r.
  - now rewrite IH, values_fold, fold_right_append_app, append_assoc.
Qed.

(** X29.  The two loops of [extractEmailData] over the header write one line
    [Key: value] per value, in the order the loops visit the keys and the
    values of each key; a key without a value writes nothing, and the
    block is empty exactly when no key has a value. *)
Theorem rawHeaders_of_lines (header : list (string * list string)) :
  rawHeaders_of header
  = fold_right append ""
      (flat_map (fun kv => map (fun val => fst kv +:+ ": " +:+ val +:+ LF) (snd kv)) header) /\
  (rawHeaders_of header = "" <-> Forall (fun kv => snd kv = []) header).
Proof.
  assert (E : rawHeaders_of header
              = fold_right append ""
                  (flat_map
                     (fun kv => map (fun val => fst kv +:+ ": " +:+ val +:+ LF) (snd kv))
                     header)).
  { unfold rawHeaders_of. now rewrite headers_fold. }
  split; [exact E|]. rewrite E. clear E.
  induction header as [|[key values] rest IH]; cbn [flat_map fst snd].
  - split; [constructor | reflexivity].
  - rewrite fold_right_append_app. destruct values as [|v vs].
    + cbn [map fold_right]. rewrite append_nil_l, IH.
      split; [now constructor | now inversion 1].
    + cbn [map fold_right]. split.
      * intros H. exfalso. destruct key; discriminate H.
      * inversion 1. discriminate.
Qed.

End header_facts.
